(** * prompt-opt: scene classifier, prompt version store, LLM gateway, log statistics

    A shallow embedding of the TypeScript / JavaScript sources

      - [src/lib/sceneDetector.ts]        (detectScene, CLI classifier)
      - [packages/engine .. detector]     (detect, engine classifier)
      - [src/lib/storage.ts]              (prompt version store)
      - [src/lib/llmClient.ts], [packages/engine/src/llmClient.js]
      - [src/logs/logger.ts]              (Logger.getStats)

    followed by the properties of the specification that concern them. *)

From Stdlib Require Import List Bool Arith NArith ZArith QArith Qminmax Lia.
From Stdlib Require Import Ascii String DecimalString DecimalNat.
Import ListNotations.

Set Implicit Arguments.
Close Scope Q_scope.
Open Scope nat_scope.

(* ================================================================== *)
(** * JavaScript strings *)
(* ================================================================== *)

(** A JavaScript string is a finite sequence of UTF-16 code units.
    Source literals are written as Rocq string literals (UTF-8 bytes) and
    decoded by [js]. *)
Module JsString.

Definition jsstring : Type := list N.

Definition cont (b : N) : N := N.land b 63.

(** UTF-8 decoding to UTF-16 code units; an astral code point becomes a
    surrogate pair, a truncated sequence becomes U+FFFD. *)
Fixpoint utf16_of_utf8 (bs : list N) : jsstring :=
  match bs with
  | [] => []
  | b1 :: r1 =>
    if (b1 <? 128)%N then b1 :: utf16_of_utf8 r1
    else
      match r1 with
      | [] => [65533%N]
      | b2 :: r2 =>
        if (b1 <? 224)%N then
          N.lor (N.shiftl (N.land b1 31) 6) (cont b2) :: utf16_of_utf8 r2
        else
          match r2 with
          | [] => [65533%N]
          | b3 :: r3 =>
            if (b1 <? 240)%N then
              N.lor (N.shiftl (N.land b1 15) 12)
                    (N.lor (N.shiftl (cont b2) 6) (cont b3))
                :: utf16_of_utf8 r3
            else
              match r3 with
              | [] => [65533%N]
              | b4 :: r4 =>
                let cp := N.lor (N.shiftl (N.land b1 7) 18)
                            (N.lor (N.shiftl (cont b2) 12)
                               (N.lor (N.shiftl (cont b3) 6) (cont b4))) in
                let v := (cp - 65536)%N in
                (55296 + N.shiftr v 10)%N :: (56320 + N.land v 1023)%N
                  :: utf16_of_utf8 r4
              end
          end
      end
  end.

Definition js (s : string) : jsstring :=
  utf16_of_utf8 (map N_of_ascii (list_ascii_of_string s)).

(** [a === b] on strings. *)
Fixpoint eqb (a b : jsstring) : bool :=
  match a, b with
  | [], [] => true
  | x :: a', y :: b' => (x =? y)%N && eqb a' b'
  | _, _ => false
  end.

(** [s.startsWith(p)] *)
Fixpoint startsWith (s p : jsstring) {struct p} : bool :=
  match p, s with
  | [], _ => true
  | _ :: _, [] => false
  | y :: p', x :: s' => (x =? y)%N && startsWith s' p'
  end.

(** [s.endsWith(p)] *)
Definition endsWith (s p : jsstring) : bool :=
  startsWith (rev s) (rev p).

(** [s.includes(k)]: [k] occurs in [s] as a contiguous run of code units. *)
Fixpoint includes (s k : jsstring) : bool :=
  match s with
  | [] => startsWith [] k
  | _ :: s' => startsWith s k || includes s' k
  end.

(** The order of the default [Array.prototype.sort] comparator and of
    [<] on strings: lexicographic on code units. *)
Fixpoint compare (a b : jsstring) : comparison :=
  match a, b with
  | [], [] => Eq
  | [], _ :: _ => Lt
  | _ :: _, [] => Gt
  | x :: a', y :: b' =>
    match (x ?= y)%N with
    | Eq => compare a' b'
    | c => c
    end
  end.

Definition leb (a b : jsstring) : bool :=
  match compare a b with Gt => false | _ => true end.

(** [String(n)] for a non-negative integer: its decimal digits. *)
Definition of_nat (n : nat) : jsstring :=
  map N_of_ascii (list_ascii_of_string (NilEmpty.string_of_uint (Nat.to_uint n))).

(** [parts.join(sep)] *)
Fixpoint join (sep : jsstring) (parts : list jsstring) : jsstring :=
  match parts with
  | [] => []
  | [p] => p
  | p :: rest => p ++ sep ++ join sep rest
  end.

(** [s.split(sep)] for a one-code-unit separator. *)
Fixpoint split_on (sep : N) (s : jsstring) : list jsstring :=
  match s with
  | [] => [[]]
  | c :: s' =>
    if (c =? sep)%N then [] :: split_on sep s'
    else
      match split_on sep s' with
      | [] => [[c]]
      | w :: ws => (c :: w) :: ws
      end
  end.

End JsString.
Import JsString.

(* ================================================================== *)
(** * JavaScript objects used as string-keyed records *)
(* ================================================================== *)

(** An object with string keys, as the list of its own entries in insertion
    order (the order of [Object.entries] and [Object.keys]; none of the keys
    used in the sources is an array index). *)
Module JsObject.
Local Open Scope string_scope.
Local Open Scope list_scope.

(** The property names a plain object inherits from [Object.prototype].
    Their values are functions, and the prototype itself for [__proto__]:
    all truthy, and none has one of the properties the program reads from a
    record. *)
Definition inheritedNames : list jsstring := map js [
  "constructor"; "__defineGetter__"; "__defineSetter__"; "hasOwnProperty";
  "__lookupGetter__"; "__lookupSetter__"; "isPrototypeOf";
  "propertyIsEnumerable"; "toString"; "valueOf"; "__proto__"; "toLocaleString"
].

Definition inherited (k : jsstring) : bool := existsb (eqb k) inheritedNames.

(** What [o[k]] finds when the key is any string: an own property, or a
    property of the prototype. *)
Inductive Property (V : Type) : Type :=
| Own (v : V)
| Inherited.
Arguments Own {V} v.
Arguments Inherited {V}.

Section Obj.
Variable V : Type.

Definition obj : Type := list (jsstring * V).

(** [o[k]] among the own properties *)
Fixpoint get (o : obj) (k : jsstring) : option V :=
  match o with
  | [] => None
  | (k', v) :: o' => if eqb k' k then Some v else get o' k
  end.

(** [o[k] = v]: an existing key keeps its position, a new key goes last. *)
Fixpoint set (o : obj) (k : jsstring) (v : V) : obj :=
  match o with
  | [] => [(k, v)]
  | (k', v') :: o' =>
    if eqb k' k then (k', v) :: o' else (k', v') :: set o' k v
  end.

(** [o[k] = f(o[k])] for a key that is present. *)
Fixpoint modify (o : obj) (k : jsstring) (f : V -> V) : obj :=
  match o with
  | [] => []
  | (k', v') :: o' =>
    if eqb k' k then (k', f v') :: o' else (k', v') :: modify o' k f
  end.

(** [Object.keys(o)] *)
Definition keys (o : obj) : list jsstring := map fst o.

(** [o[k]] for a key that need not be an own property; [None] is
    [undefined]. *)
Definition lookup (o : obj) (k : jsstring) : option (Property V) :=
  match get o k with
  | Some v => Some (Own v)
  | None => if inherited k then Some Inherited else None
  end.
End Obj.
End JsObject.

(* ================================================================== *)
(** * Scene classifier *)
(* ================================================================== *)

Module Classifier.
Import JsObject.

Record DetectOutput : Type := mkDetectOutput {
  scene : jsstring;
  confidence : Q;
  keywords : list jsstring;
  allScores : obj nat
}.

Definition Qltb (x y : Q) : bool := negb (Qle_bool y x).

(** [score > maxScore] and [score >= maxScore] *)
Definition scoreGt (score maxScore : nat) : bool := Nat.ltb maxScore score.
Definition scoreGe (score maxScore : nat) : bool := Nat.leb maxScore score.

(** [foundKeywords[scene]] *)
Definition foundAt (foundKeywords : obj (list jsstring)) (scene : jsstring)
  : list jsstring :=
  match get foundKeywords scene with Some l => l | None => [] end.

(** The two classifiers have the same text except for the keyword table and
    the comparison of the selection loop; both are parameters here. *)
Section Detect.
Variable SCENE_KEYWORDS : obj (list jsstring).
(** [beats score maxScore] is [score > maxScore] in [detectScene] and
    [score >= maxScore] in the engine's [detect]. *)
Variable beats : nat -> nat -> bool.

Definition Tally : Type := (obj nat * obj (list jsstring))%type.

(** Inner loop: [for (const keyword of keywords) if (content.includes(keyword)) ...] *)
Definition matchStep (content scene : jsstring) (t : Tally) (keyword : jsstring) : Tally :=
  if includes content keyword
  then (modify (fst t) scene (fun n => n + 1),
        modify (snd t) scene (fun l => l ++ [keyword]))
  else t.

Definition matchKeywords (content scene : jsstring) (t : Tally)
           (kws : list jsstring) : Tally :=
  fold_left (matchStep content scene) kws t.

(** Step 1: the outer loop over [Object.entries(SCENE_KEYWORDS)]. *)
Definition sceneStep (content : jsstring) (t : Tally)
           (e : jsstring * list jsstring) : Tally :=
  let (scene, kws) := e in
  matchKeywords content scene
    (set (fst t) scene 0, set (snd t) scene []) kws.

Definition keywordPass (content : jsstring) : Tally :=
  fold_left (sceneStep content) SCENE_KEYWORDS ([], []).

Definition Best : Type := (nat * jsstring * list jsstring)%type.

(** Step 2: the loop over [Object.entries(scores)]; [selectStep] is its body. *)
Definition selectStep (foundKeywords : obj (list jsstring))
           (b : Best) (e : jsstring * nat) : Best :=
  let '(maxScore, _, _) := b in
  let (scene, score) := e in
  if beats score maxScore
  then (score, scene, foundAt foundKeywords scene)
  else b.

Definition selectBest (scores : obj nat) (foundKeywords : obj (list jsstring)) : Best :=
  fold_left (selectStep foundKeywords) scores (0, js "other/finance", []).

(** Step 3: [maxScore > 0 ? Math.min(maxScore / 3, 1) : 0.3] *)
Definition confidenceOf (maxScore : nat) : Q :=
  (if 0 <? maxScore
  then Qmin (inject_Z (Z.of_nat maxScore) / 3) 1
  else (3 # 10))%Q.

Definition classify (content : jsstring) : DetectOutput :=
  let (scores, foundKeywords) := keywordPass content in
  let '(maxScore, bestScene, bestKeywords) := selectBest scores foundKeywords in
  let confidence := confidenceOf maxScore in
  (* Step 4 *)
  let (bestScene, bestKeywords) :=
    if Qltb confidence (3 # 10)%Q
    then (js "product/weekly", [js "会议"])
    else (bestScene, bestKeywords) in
  {| scene := bestScene;
     confidence := confidence;
     keywords := firstn 5 bestKeywords;
     allScores := scores |}.

(** [getAllScenes] *)
Definition allScenes : list jsstring := keys SCENE_KEYWORDS.
End Detect.

Definition entry (scene : string) (kws : list string) : jsstring * list jsstring :=
  (js scene, map js kws).

(** *** Reference notions used to state the properties *)

(** The keywords of a list that occur in the content, in list order, and
    their number. *)
Definition hits (content : jsstring) (kws : list jsstring) : list jsstring :=
  filter (includes content) kws.

Definition scoreOf (content : jsstring) (kws : list jsstring) : nat :=
  List.length (hits content kws).

(** What the keyword pass leaves in [scores] and [foundKeywords]. *)
Definition scoresOf (T : obj (list jsstring)) (content : jsstring) : obj nat :=
  map (fun e => (fst e, scoreOf content (snd e))) T.

Definition foundOf (T : obj (list jsstring)) (content : jsstring)
  : obj (list jsstring) :=
  map (fun e => (fst e, hits content (snd e))) T.

(** The largest score of a score table, and the first and the last scene
    that attain it, in the order of the table. *)
Definition maxScoreOf (scores : obj nat) : nat := list_max (map snd scores).

Definition attains (scores : obj nat) (e : jsstring * nat) : bool :=
  snd e =? maxScoreOf scores.

Definition firstAttaining (scores : obj nat) : option jsstring :=
  option_map fst (find (attains scores) scores).

Definition lastAttaining (scores : obj nat) : option jsstring :=
  option_map fst (find (attains scores) (rev scores)).

(** [subseq a b]: [a] is obtained from [b] by dropping elements. *)
Fixpoint subseq (a b : list jsstring) : bool :=
  match b with
  | [] => match a with [] => true | _ => false end
  | y :: b' =>
    match a with
    | [] => true
    | x :: a' => if eqb x y then subseq a' b' else subseq a b'
    end
  end.

(** Decidable absence of duplicates. *)
Fixpoint nodupb (l : list jsstring) : bool :=
  match l with
  | [] => true
  | x :: l' => negb (existsb (eqb x) l') && nodupb l'
  end.

(** No keyword of the table occurs in the content. *)
Definition unmatched (T : obj (list jsstring)) (content : jsstring) : Prop :=
  forall scene kws k, In (scene, kws) T -> In k kws -> includes content k = false.

Definition unmatchedb (T : obj (list jsstring)) (content : jsstring) : bool :=
  forallb (fun e => forallb (fun k => negb (includes content k)) (snd e)) T.

(** The result carries the confidence of its own maximal score, which is
    never below the threshold of step 4, and its keywords are not the
    synthetic list of that step. *)
Definition notOverridden (r : DetectOutput) : Prop :=
  confidence r = confidenceOf (maxScoreOf (allScores r)) /\
  Qltb (confidence r) (3 # 10) = false /\
  keywords r <> [js "会议"].

(** The same keywords of the list occur in both contents. *)
Definition sameMatches (kws : list jsstring) (c c' : jsstring) : Prop :=
  forall k, In k kws -> includes c' k = includes c k.

(** Every keyword of every scene of the table. *)
Definition declared (T : obj (list jsstring)) : list jsstring :=
  List.concat (map snd T).

End Classifier.

(** [src/lib/sceneDetector.ts] *)
Module SceneDetector.
Import JsObject Classifier.
Local Open Scope string_scope.

Definition SCENE_KEYWORDS : obj (list jsstring) := [
  entry "product/weekly" ["产品周会"; "上周"; "本周"; "需求"; "排期"; "上线"; "迭代"; "sprint"; "feature"; "roadmap"];
  entry "product/review" ["需求评审"; "PRD"; "评审"; "Story"; "用户故事"; "验收标准"; "优先级"];
  entry "product/launch" ["产品发布"; "发布会"; "新功能"; "亮点"; "演示"; "release"; "launch"];
  entry "marketing/weekly" ["营销周会"; "投放"; "转化"; "曝光"; "活动"; "GMV"; "业绩"];
  entry "marketing/campaign" ["策划"; "方案"; "创意"; "目标人群"; "营销活动"; "campaign"];
  entry "marketing/brand" ["品牌"; "定位"; "差异化"; "价值观"; "品牌策略"; "brand"];
  entry "marketing/partnership" ["合作"; "洽谈"; "伙伴"; "渠道"; "partnership"];
  entry "sales/meeting" ["销售会议"; "业绩"; "目标"; "客户"; "签约"; "跟进"];
  entry "sales/negotiation" ["谈判"; "报价"; "合同"; "让步"; "签约"; "价格"];
  entry "sales/channel" ["渠道"; "经销商"; "代理"; "分销"; "channel"];
  entry "strategy/meeting" ["战略"; "三年规划"; "愿景"; "竞争"; "格局"; "strategy"];
  entry "strategy/management" ["管理层"; "例会"; "经营"; "CEO"; "总裁"; "高管"];
  entry "strategy/review" ["复盘"; "总结"; "经验"; "教训"; "回顾"; "review"];
  entry "hr/interview" ["面试"; "自我介绍"; "项目经历"; "离职原因"; "优势"; "面试官"];
  entry "hr/performance" ["绩效"; "考核"; "KPI"; "面谈"; "评分"];
  entry "hr/exit" ["离职"; "辞职"; "退出"; "面谈"; "交接"];
  entry "hr/team" ["团建"; "团队建设"; "活动"; "聚餐"; "team building"];
  entry "rd/tech-review" ["技术评审"; "架构"; "技术方案"; "可行性"; "风险"; "review"];
  entry "rd/planning" ["排期"; "计划"; "工期"; "里程碑"; "排期会"];
  entry "rd/incident" ["故障"; "问题"; "incident"; "bug"; "紧急"; "P0"; "P1"];
  entry "other/finance" ["财务"; "预算"; "成本"; "利润"; "营收"; "finance"];
  entry "other/legal" ["法务"; "合规"; "合同"; "法律"; "legal"; "compliance"]
].

(** [if (score > maxScore)] *)
Definition detectScene (content : jsstring) : DetectOutput :=
  classify SCENE_KEYWORDS scoreGt content.

Definition getAllScenes : list jsstring := allScenes SCENE_KEYWORDS.
End SceneDetector.

(** The engine package's detector. *)
Module Engine.
Import JsObject Classifier.
Local Open Scope string_scope.

Definition SCENE_KEYWORDS : obj (list jsstring) := [
  entry "product/weekly" ["产品周会"; "上周"; "本周"; "需求"; "排期"; "上线"; "迭代"; "sprint"; "feature"; "roadmap"];
  entry "product/review" ["需求评审"; "PRD"; "评审"; "Story"; "用户故事"; "验收标准"; "优先级"];
  entry "product/launch" ["产品发布"; "发布会"; "新功能"; "亮点"; "演示"; "release"; "launch"];
  entry "marketing/weekly" ["营销周会"; "投放"; "转化"; "曝光"; "活动"; "GMV"; "业绩"];
  entry "marketing/campaign" ["策划"; "方案"; "创意"; "目标人群"; "营销活动"; "campaign"];
  entry "marketing/brand" ["品牌"; "定位"; "差异化"; "价值观"; "品牌策略"; "brand"];
  entry "marketing/partnership" ["合作"; "洽谈"; "伙伴"; "渠道"; "partnership"];
  entry "sales/meeting" ["销售会议"; "业绩"; "目标"; "客户"; "签约"; "跟进"];
  entry "sales/negotiation" ["谈判"; "报价"; "合同"; "让步"; "签约"; "价格"];
  entry "sales/channel" ["渠道"; "经销商"; "代理"; "分销"; "channel"];
  entry "strategy/meeting" ["战略"; "三年规划"; "愿景"; "竞争"; "格局"; "strategy"];
  entry "strategy/management" ["管理层"; "例会"; "经营"; "CEO"; "总裁"; "高管"];
  entry "strategy/review" ["复盘"; "总结"; "经验"; "教训"; "回顾"; "review"];
  entry "hr/interview" ["面试"; "自我介绍"; "项目经历"; "离职"; "优势"; "面试官"; "薪资"; "到岗"; "薪酬"; "工资"; "期望"; "岗位"; "入职"; "offer"; "录用"; "招聘"; "求职者"; "工作经验"; "技能特长"; "职业规划"; "待遇"; "薪水"; "奖金"; "福利"; "级别"; "应聘"; "职位"; "复试"; "终面"; "笔试"; "初试"; "人力"; "沟通"; "加班"; "双休"; "十三薪"; "股票"; "期权"];
  entry "hr/performance" ["绩效"; "考核"; "KPI"; "面谈"; "评分"];
  entry "hr/exit" ["离职"; "辞职"; "退出"; "面谈"; "交接"];
  entry "hr/team" ["团建"; "团队建设"; "活动"; "聚餐"; "team building"];
  entry "rd/tech-review" ["技术评审"; "架构"; "技术方案"; "可行性"; "风险"; "review"];
  entry "rd/planning" ["排期"; "计划"; "工期"; "里程碑"; "排期会"];
  entry "rd/incident" ["故障"; "问题"; "incident"; "bug"; "紧急"; "P0"; "P1"];
  entry "other/finance" ["财务"; "预算"; "成本"; "利润"; "营收"; "finance"];
  entry "other/legal" ["法务"; "合规"; "合同"; "法律"; "legal"; "compliance"]
].

(** [if (score >= maxScore)] *)
Definition detect (content : jsstring) : DetectOutput :=
  classify SCENE_KEYWORDS scoreGe content.

Definition getAllScenes : list jsstring := allScenes SCENE_KEYWORDS.
End Engine.

(* ================================================================== *)
(** * Prompt version store ([src/lib/storage.ts]) *)
(* ================================================================== *)

(** [Array.prototype.sort]: a stable sort; [le a b] says that [a] may stay
    before [b] (the comparator does not return a positive number). *)
Module JsArray.
Section Sort.
Variable A : Type.
Variable le : A -> A -> bool.

Fixpoint insert (x : A) (l : list A) : list A :=
  match l with
  | [] => [x]
  | y :: l' => if le x y then x :: l else y :: insert x l'
  end.

Definition sortBy (l : list A) : list A := fold_right insert [] l.
End Sort.

(** [arr.sort()] on strings. *)
Definition sort (l : list jsstring) : list jsstring := sortBy JsString.leb l.

(** [arr.slice(start)] *)
Definition sliceFrom (A : Type) (start : Z) (l : list A) : list A :=
  let len := Z.of_nat (List.length l) in
  let k := if (start <? 0)%Z then Z.max (len + start) 0 else Z.min start len in
  skipn (Z.to_nat k) l.
End JsArray.

Module Storage.
Import JsObject JsArray.

(** A directory maps file names to contents, in the order [readdirSync]
    lists them. *)
Record File : Type := mkFile { content : jsstring; mtime : N }.
Definition Directory : Type := obj File.

Record VersionEntry : Type := mkVersionEntry {
  id : jsstring; created_at : jsstring; note : jsstring
}.
Record SceneRecord : Type := mkSceneRecord {
  versions : list VersionEntry;
  current_version : option jsstring
}.
Record Index : Type := mkIndex { scenes : obj SceneRecord }.

(** The part of the file system below [DIRS.prompts]: one directory per
    scene, [join(DIRS.prompts, scene)], holding files, and the parsed
    content of [prompts/_meta/index.json] when that file exists
    ([JSON.parse] of what [JSON.stringify] wrote gives the same record
    back).  Scene names are taken as [join] leaves them, and a directory is
    listed by its files: the directories that lie on the way to a scene
    directory, and [_meta], are not part of the listing. *)
Record FS : Type := mkFS {
  prompts : obj Directory;
  indexFile : option Index
}.

(** [join(DIRS.prompts, scene, file)] *)
Definition Path : Type := (jsstring * jsstring)%type.

Inductive Result (A : Type) : Type :=
| Ok (a : A)
| Throw (message : jsstring).
Arguments Ok {A} a.
Arguments Throw {A} message.

Definition existsFile (d : Directory) (f : jsstring) : bool :=
  match get d f with Some _ => true | None => false end.

(** [f => f.startsWith('v') && f.endsWith('.md')] *)
Definition isVersionFile (f : jsstring) : bool :=
  startsWith f (js "v") && endsWith f (js ".md").

(** [s.replace(pat, rep)] with a string pattern: the first occurrence. *)
Fixpoint replaceFirst (s pat rep : jsstring) : jsstring :=
  match s with
  | [] => if startsWith [] pat then rep else []
  | c :: s' =>
    if startsWith s pat then rep ++ skipn (List.length pat) s
    else c :: replaceFirst s' pat rep
  end.

Definition truthy (s : option jsstring) : bool :=
  match s with Some (_ :: _) => true | _ => false end.

Definition getPromptByScene (fs : FS) (scene : jsstring)
           (version : option jsstring) : Result Path :=
  match get (prompts fs) scene with
  | None => Throw (js "场景目录不存在: " ++ scene)
  | Some dir =>
    if truthy version then
      let v := match version with Some v => v | None => [] end in
      let file := js "v" ++ v ++ js ".md" in
      if existsFile dir file then Ok (scene, file)
      else Throw (js "提示词版本不存在: v" ++ v)
    else if existsFile dir (js "default.md") then Ok (scene, js "default.md")
    else
      let files := rev (sort (filter isVersionFile (keys dir))) in
      match files with
      | f :: _ => Ok (scene, f)
      | [] => Throw (js "场景 " ++ scene ++ js " 没有提示词文件")
      end
  end.

(** [readFileSync(path, 'utf-8')] *)
Definition readFile (fs : FS) (p : Path) : option jsstring :=
  match get (prompts fs) (fst p) with
  | Some dir => option_map content (get dir (snd p))
  | None => None
  end.

(** [writeFileSync(join(DIRS.prompts, scene, file), text, 'utf-8')] in an
    existing directory. *)
Definition writeFile (fs : FS) (scene file text : jsstring) (now : N) : FS :=
  {| prompts := modify (prompts fs) scene (fun d => set d file (mkFile text now));
     indexFile := indexFile fs |}.

(** [if (!existsSync(dir)) mkdirSync(dir, { recursive: true })] *)
Definition ensureDir (fs : FS) (scene : jsstring) : FS :=
  match get (prompts fs) scene with
  | Some _ => fs
  | None => {| prompts := set (prompts fs) scene []; indexFile := indexFile fs |}
  end.

Record VersionInfo : Type := mkVersionInfo {
  version : jsstring; path : Path; modified : N
}.

Record Saved : Type := mkSaved { savedVersion : nat; filepath : Path }.

(** How a call of [savePromptVersion] ends: with the returned record, or
    with the [TypeError] raised in [updatePromptIndex]. *)
Inductive SaveOutcome : Type :=
| Returned (r : Saved)
| ThrewTypeError.

Section Host.
(** [String.prototype.localeCompare] (locale collation) and
    [Date.prototype.toISOString] belong to the host. *)
Variable localeCompare : jsstring -> jsstring -> comparison.
Variable toISOString : N -> jsstring.

Definition listPromptVersions (fs : FS) (scene : jsstring) : list VersionInfo :=
  match get (prompts fs) scene with
  | None => []
  | Some dir =>
    sortBy
      (fun a b => match localeCompare (version b) (version a) with
                  | Gt => false | _ => true end)
      (map (fun e : jsstring * File =>
              {| version := replaceFirst (fst e) (js ".md") [];
                 path := (scene, fst e);
                 modified := mtime (snd e) |})
           (filter (fun e : jsstring * File => isVersionFile (fst e)) dir))
  end.

(** [None]: the call throws a [TypeError] and leaves the index file as it
    is.  That happens when [index.scenes[scene]] is an inherited property:
    it is truthy, so no record is created, and it has no [versions], so
    [.versions.push] fails. *)
Definition updatePromptIndex (fs : FS) (scene : jsstring) (version : nat)
           (note : jsstring) (now : N) : option FS :=
  let index := match indexFile fs with
               | Some i => i
               | None => {| scenes := [] |}
               end in
  match lookup (scenes index) scene with
  | Some Inherited => None
  | found =>
    let index := match found with
                 | Some _ => index
                 | None => {| scenes := set (scenes index) scene
                                          {| versions := []; current_version := None |} |}
                 end in
    let index :=
      {| scenes := modify (scenes index) scene
           (fun r => {| versions := versions r ++
                          [{| id := js "v" ++ JsString.of_nat version;
                              created_at := toISOString now;
                              note := note |}];
                        current_version := Some (js "v" ++ JsString.of_nat version) |}) |} in
    Some {| prompts := prompts fs; indexFile := Some index |}
  end.

(** Returns the file system after the call and how the call ended; [now] is
    the clock reading of the call.  When [updatePromptIndex] throws, the
    version file has been written already. *)
Definition savePromptVersion (fs : FS) (scene text note : jsstring) (now : N)
  : FS * SaveOutcome :=
  let fs := ensureDir fs scene in
  let versions := listPromptVersions fs scene in
  let nextVersion := List.length versions + 1 in
  let file := js "v" ++ JsString.of_nat nextVersion ++ js ".md" in
  let fs := writeFile fs scene file text now in
  match updatePromptIndex fs scene nextVersion note now with
  | Some fs => (fs, Returned {| savedVersion := nextVersion; filepath := (scene, file) |})
  | None => (fs, ThrewTypeError)
  end.

(** [savePromptVersion] called once per element of [saves], in order: the
    file system after the last call and the records of the calls that
    returned. *)
Fixpoint saveAll (fs : FS) (scene : jsstring)
         (saves : list (jsstring * jsstring * N)) : FS * list Saved :=
  match saves with
  | [] => (fs, [])
  | (text, note, now) :: rest =>
    let (fs1, outcome) := savePromptVersion fs scene text note now in
    let (fs2, rs) := saveAll fs1 scene rest in
    (fs2, match outcome with
          | Returned r => r :: rs
          | ThrewTypeError => rs
          end)
  end.
End Host.

(** *** Reference notions used to state the properties *)

(** [v<n>.md] and [v<n>] *)
Definition versionFile (n : nat) : jsstring := js "v" ++ JsString.of_nat n ++ js ".md".
Definition versionId (n : nat) : jsstring := js "v" ++ JsString.of_nat n.

(** The version files of a scene directory, in listing order. *)
Definition versionFiles (fs : FS) (scene : jsstring) : list jsstring :=
  match get (prompts fs) scene with
  | Some dir => filter isVersionFile (keys dir)
  | None => []
  end.

Definition hasDefault (fs : FS) (scene : jsstring) : bool :=
  match get (prompts fs) scene with
  | Some dir => existsFile dir (js "default.md")
  | None => false
  end.

(** The index record of a scene. *)
Definition sceneRecord (fs : FS) (scene : jsstring) : option SceneRecord :=
  match indexFile fs with
  | Some i => get (scenes i) scene
  | None => None
  end.

Definition indexedVersions (fs : FS) (scene : jsstring) : list VersionEntry :=
  match sceneRecord fs scene with Some r => versions r | None => [] end.

Definition currentVersion (fs : FS) (scene : jsstring) : option jsstring :=
  match sceneRecord fs scene with Some r => current_version r | None => None end.

(** The index can take an entry for the scene: the scene has a record of
    its own there, or its name is not an inherited property name. *)
Definition updatable (fs : FS) (scene : jsstring) : bool :=
  match sceneRecord fs scene with
  | Some _ => true
  | None => negb (inherited scene)
  end.

(** A store without directories and without index file. *)
Definition emptyFS : FS := {| prompts := []; indexFile := None |}.

(** Ten saves with the texts [prompt 1] .. [prompt 10]. *)
Definition tenSaves : list (jsstring * jsstring * N) :=
  map (fun n => (js "prompt " ++ JsString.of_nat n, js "", N.of_nat n)) (seq 1 10).
End Storage.

(* ================================================================== *)
(** * LLM gateway *)
(* ================================================================== *)

(** [src/lib/llmClient.ts] *)
Module Llm.
Import JsObject.

Record ModelConfig : Type := mkModelConfig {
  name : jsstring; provider : jsstring; apiKeyEnv : jsstring;
  endpoint : jsstring; modelName : jsstring
}.

Definition MODELS : obj ModelConfig := [
  (js "qwen-max",
   {| name := js "QWEN MAX"; provider := js "aliyun";
      apiKeyEnv := js "DASHSCOPE_API_KEY";
      endpoint := js "https://dashscope.aliyuncs.com/compatible-mode/v1/chat/completions";
      modelName := js "qwen-max" |});
  (js "deepseek-v3",
   {| name := js "DeepSeek V3"; provider := js "deepseek";
      apiKeyEnv := js "DEEPSEEK_API_KEY";
      endpoint := js "https://api.deepseek.com/v1/chat/completions";
      modelName := js "deepseek-chat" |});
  (js "doubao",
   {| name := js "豆包 1.8"; provider := js "douyin";
      apiKeyEnv := js "DOUBAO_API_KEY";
      endpoint := js "https://ark.cn-beijing.volces.com/api/v3/chat/completions";
      modelName := js "doubao-pro-32k" |})
].

Record JsError : Type := mkError { errName : jsstring; message : jsstring }.

(** [new Error(msg)] *)
Definition Error (msg : jsstring) : JsError :=
  {| errName := js "Error"; message := msg |}.

Inductive Outcome (A : Type) : Type :=
| Return (a : A)
| Raise (e : JsError).
Arguments Return {A} a.
Arguments Raise {A} e.

Record Message : Type := mkMessage { role : jsstring; text : jsstring }.

(** [String(v)] for a string or [undefined] ([None]): what a template
    literal, a property key and the first argument of [fetch] make of it. *)
Definition str (v : option jsstring) : jsstring :=
  match v with Some s => s | None => js "undefined" end.

(** A call of [fetch]: [url] is its first argument as [fetch] reads it, a
    string; [model] is [None] when the body carries no model
    ([JSON.stringify] leaves out an [undefined] value). *)
Record Request : Type := mkRequest {
  url : jsstring;
  authorization : jsstring;
  model : option jsstring;
  messages : list Message;
  temperature : Q;
  max_tokens : N;
  json_object : bool
}.

(** What [fetch] and the body readers give back. *)
Record Response : Type := mkResponse {
  ok : bool;
  status : nat;
  bodyText : jsstring;
  (** [response.json()]: [None] when parsing throws; otherwise
      [result.choices], each choice reduced to its [message.content] (the
      choices are taken to carry a message with a string content). *)
  bodyJson : option (option (list jsstring));
  (** the error [response.json()] throws when parsing fails *)
  jsonError : JsError
}.

Inductive Fetched : Type :=
| Responded (r : Response)
| Rejected (e : JsError).

(** A call returns the HTTP requests it issued, in order, and its outcome. *)
Definition IO (A : Type) : Type := (list Request * Outcome A)%type.

Section World.
(** [process.env] and the network. *)
Variable env : jsstring -> option jsstring.
Variable fetch : Request -> Fetched.

(** [process.env[name]] when it is truthy *)
Definition apiKeyAt (name : jsstring) : option jsstring :=
  match env name with
  | Some (c0 :: k) => Some (c0 :: k)
  | _ => None
  end.

(** [process.env[c.apiKeyEnv]] when it is truthy *)
Definition apiKeyOf (c : ModelConfig) : option jsstring := apiKeyAt (apiKeyEnv c).

(** [config.f] for what [MODELS[modelKey]] gave: an inherited value has
    none of the fields of a configuration, so the read gives [undefined]. *)
Definition field (f : ModelConfig -> jsstring) (config : Property ModelConfig)
  : option jsstring :=
  match config with
  | Own c => Some (f c)
  | Inherited => None
  end.

(** [MODELS[modelKey]] is truthy for a registered key and also for an
    inherited property name. *)
Definition getModelConfig (modelKey : jsstring) : Outcome (Property ModelConfig) :=
  match lookup MODELS modelKey with
  | Some config => Return config
  | None =>
    Raise (Error (js "不支持的模型: " ++ modelKey ++ js ". 支持的模型: "
                    ++ join (js ", ") (keys MODELS)))
  end.

Definition generateSummary (data prompt model : jsstring) : IO jsstring :=
  match getModelConfig model with
  | Raise e => ([], Raise e)
  | Return config =>
    match apiKeyAt (str (field apiKeyEnv config)) with
    | None => ([], Raise (Error (js "未设置 API Key: " ++ str (field apiKeyEnv config))))
    | Some apiKey =>
      let req :=
        {| url := str (field endpoint config);
           authorization := js "Bearer " ++ apiKey;
           model := field modelName config;
           messages := [ {| role := js "system"; text := prompt |};
                         {| role := js "user"; text := data |} ];
           temperature := (7 # 10)%Q;
           max_tokens := 8192%N;
           json_object := false |} in
      (* the body of [try], then [catch] *)
      let attempt : Outcome jsstring :=
        match fetch req with
        | Rejected e => Raise e
        | Responded r =>
          if negb (ok r) then
            Raise (Error (js "API 错误: " ++ JsString.of_nat (status r)
                            ++ js " - " ++ bodyText r))
          else
            match bodyJson r with
            | None => Raise (jsonError r)
            | Some (Some (c :: _)) => Return c
            | Some _ => Raise (Error (js "LLM 返回格式错误"))
            end
        end in
      (cons req nil,
       match attempt with
       | Return c => Return c
       | Raise e =>
         if eqb (errName e) (js "AbortError")
         then Raise (Error (js "请求超时"))
         else Raise (Error (js "调用失败: " ++ message e))
       end)
    end
  end.

End World.
End Llm.

(** [packages/engine/src/llmClient.js] *)
Module EngineLlm.
Import JsObject.
Import Llm.

Definition MODELS : obj ModelConfig := [
  (js "qwen-max",
   {| name := js "QWEN MAX"; provider := js "aliyun";
      apiKeyEnv := js "DASHSCOPE_API_KEY";
      endpoint := js "https://dashscope.aliyuncs.com/compatible-mode/v1/chat/completions";
      modelName := js "qwen-max" |});
  (js "deepseek-v3",
   {| name := js "DeepSeek V3"; provider := js "deepseek";
      apiKeyEnv := js "DEEPSEEK_API_KEY";
      endpoint := js "https://api.deepseek.com/v1/chat/completions";
      modelName := js "deepseek-chat" |});
  (js "doubao",
   {| name := js "豆包 1.8"; provider := js "douyin";
      apiKeyEnv := js "DOUBAO_API_KEY";
      endpoint := js "https://ark.cn-beijing.volces.com/api/v3/chat/completions";
      modelName := js "doubao-pro-32k" |})
].

Record Options : Type := mkOptions {
  optTemperature : option Q;
  maxTokens : option N;
  responseFormat : bool
}.

Record Generated : Type := mkGenerated { genContent : jsstring; genModel : jsstring }.

Section World.
Variable env : jsstring -> option jsstring.
Variable fetch : Request -> Fetched.

Definition getModelConfig (modelKey : jsstring) : Outcome (Property ModelConfig) :=
  match lookup MODELS modelKey with
  | Some config => Return config
  | None =>
    Raise (Error (js "Unsupported model: " ++ modelKey ++ js ". Supported: "
                    ++ join (js ", ") (keys MODELS)))
  end.

Definition callLLM (messages : list Message) (model : jsstring)
           (options : Options) : IO jsstring :=
  match getModelConfig model with
  | Raise e => ([], Raise e)
  | Return config =>
    match apiKeyAt env (str (field apiKeyEnv config)) with
    | None => ([], Raise (Error (js "API Key not set: " ++ str (field apiKeyEnv config))))
    | Some apiKey =>
      let req :=
        {| url := str (field endpoint config);
           authorization := js "Bearer " ++ apiKey;
           Llm.model := field modelName config;
           Llm.messages := messages;
           temperature := match optTemperature options with
                          | Some t => t | None => (7 # 10)%Q end;
           max_tokens := match maxTokens options with
                         | Some n => n | None => 8192%N end;
           json_object := responseFormat options |} in
      let attempt : Outcome jsstring :=
        match fetch req with
        | Rejected e => Raise e
        | Responded r =>
          if negb (ok r) then
            Raise (Error (js "API Error: " ++ JsString.of_nat (status r)
                            ++ js " - " ++ bodyText r))
          else
            match bodyJson r with
            | None => Raise (jsonError r)
            | Some (Some (c :: _)) => Return c
            | Some _ => Raise (Error (js "Invalid LLM response format"))
            end
        end in
      (cons req nil,
       match attempt with
       | Return c => Return c
       | Raise e =>
         if eqb (errName e) (js "AbortError")
         then Raise (Error (js "Request timeout"))
         else Raise e
       end)
    end
  end.

(** [generate({ data, prompt, model = 'qwen-max' })] *)
Definition generate (data prompt : jsstring) (model : option jsstring)
  : IO Generated :=
  let model := match model with Some m => m | None => js "qwen-max" end in
  let messages := [ {| role := js "system"; text := prompt |};
                    {| role := js "user"; text := data |} ] in
  let (reqs, out) :=
    callLLM messages model
      {| optTemperature := Some (7 # 10)%Q; maxTokens := Some 8192%N;
         responseFormat := false |} in
  (reqs,
   match out with
   | Return c => Return {| genContent := c; genModel := model |}
   | Raise e => Raise e
   end).
End World.
End EngineLlm.

(* ================================================================== *)
(** * Command log statistics ([Logger.getStats]) *)
(* ================================================================== *)

Module Logs.
Import JsObject JsArray.

(** The fields of a parsed log line that [getStats] reads. *)
Record LogEntry : Type := mkLogEntry {
  command : jsstring;
  status : jsstring;
  (** [entry.output?.duration] *)
  duration : option Z
}.

Record LogStats : Type := mkLogStats {
  totalCommands : Z;
  successCount : Z;
  errorCount : Z;
  avgDuration : Z
}.

(** [Math.round(a / b)] for integers [a] and [b > 0]: the nearest integer,
    halves rounded up.  The code computes the sum and the quotient on
    doubles; for durations that are not negative that is this value as long
    as the sum stays below 2^52. *)
Definition roundDiv (a b : Z) : Z := ((2 * a + b) / (2 * b))%Z.

Section Logger.
(** [JSON.parse] followed by the field reads of the [try] block; [None]
    when one of them throws (the [catch] is empty). *)
Variable parse : jsstring -> option LogEntry.
(** [path.join(this.logDir, 'commands')]: [None] when it does not exist,
    otherwise its files with their text. *)
Variable commandsDir : option (obj jsstring).

(** The counters while scanning: [stats] and [totalDuration]. *)
Definition Acc : Type := (LogStats * Z)%type.

Definition countLine (commandFilter : option jsstring) (acc : Acc) (line : jsstring) : Acc :=
  match parse line with
  | None => acc
  | Some entry =>
    let skip := match commandFilter with
                | Some (c :: f) => negb (eqb (command entry) (c :: f))
                | _ => false
                end in
    if skip then acc
    else
      let (stats, totalDuration) := acc in
      let stats := {| totalCommands := totalCommands stats + 1;
                      successCount := successCount stats;
                      errorCount := errorCount stats;
                      avgDuration := avgDuration stats |}%Z in
      let stats := if eqb (status entry) (js "success")
                   then {| totalCommands := totalCommands stats;
                           successCount := successCount stats + 1;
                           errorCount := errorCount stats;
                           avgDuration := avgDuration stats |}%Z
                   else stats in
      let stats := if eqb (status entry) (js "error")
                   then {| totalCommands := totalCommands stats;
                           successCount := successCount stats;
                           errorCount := errorCount stats + 1;
                           avgDuration := avgDuration stats |}%Z
                   else stats in
      let totalDuration :=
        match duration entry with
        | Some d => if (d =? 0)%Z then totalDuration else (totalDuration + d)%Z
        | None => totalDuration
        end in
      (stats, totalDuration)
  end.

(** [content.split('\n').filter(Boolean)] *)
Definition linesOf (text : jsstring) : list jsstring :=
  filter (fun l => match l with [] => false | _ => true end) (split_on 10%N text).

Definition getStats (commandFilter : option jsstring) (days : Z) : LogStats :=
  let stats := {| totalCommands := 0; successCount := 0;
                  errorCount := 0; avgDuration := 0 |}%Z in
  match commandsDir with
  | None => stats
  | Some dir =>
    let files :=
      sliceFrom (- days)
        (List.filter (fun f : jsstring * jsstring => endsWith (fst f) (js ".jsonl")) dir) in
    let (stats, totalDuration) :=
      fold_left
        (fun (acc : Acc) (file : jsstring * jsstring) =>
           fold_left (countLine commandFilter) (linesOf (snd file)) acc)
        files (stats, 0%Z) in
    {| totalCommands := totalCommands stats;
       successCount := successCount stats;
       errorCount := errorCount stats;
       avgDuration := if (0 <? totalCommands stats)%Z
                      then roundDiv totalDuration (totalCommands stats)
                      else 0%Z |}
  end.
End Logger.
End Logs.

From Stdlib Require Import Permutation Sorted.

(* ================================================================== *)
(** * The remaining operations of the store *)
(* ================================================================== *)

(** [src/lib/storage.ts]: [SCENES], [initDirs], [downloadPromptVersion] *)
Module StorageOps.
Import JsObject JsArray Storage.
Local Open Scope string_scope.
Local Open Scope list_scope.

Definition SCENES : list jsstring := map js [
  "product/weekly"; "product/review"; "product/launch";
  "marketing/weekly"; "marketing/campaign"; "marketing/brand"; "marketing/partnership";
  "sales/meeting"; "sales/negotiation"; "sales/channel";
  "strategy/meeting"; "strategy/management"; "strategy/review";
  "hr/interview"; "hr/performance"; "hr/exit"; "hr/team";
  "rd/tech-review"; "rd/planning"; "rd/incident";
  "other/finance"; "other/legal"
].

(** The keys of [DIRS]; each names the directory of that name under the
    project root. *)
Definition DIRS : list jsstring :=
  map js ["prompts"; "outputs"; "evaluations"; "dialogue"].

(** [initDirs]: [topExists] tells which of the four directories exist
    already.  Returns the directories of [DIRS] it creates, in order (each
    one is also reported on the console), and the store with the scene
    directories. *)
Definition initDirs (topExists : jsstring -> bool) (fs : FS) : list jsstring * FS :=
  (filter (fun d => negb (topExists d)) DIRS, fold_left ensureDir SCENES fs).

(** [downloadPromptVersion(scene, version, outputPath)]: the returned path
    and the text written to it; [outputPath] lies outside the prompt store. *)
Definition downloadPromptVersion (fs : FS) (scene version outputPath : jsstring)
  : Result (jsstring * jsstring) :=
  let versionFile :=
    if includes version (js ".md") then version
    else js "v" ++ version ++ js ".md" in
  match readFile fs (scene, versionFile) with
  | Some text => Ok (outputPath, text)
  | None => Throw (js "提示词版本不存在: " ++ scene ++ js "/" ++ versionFile)
  end.

(** *** Reference notions *)



Definition lebP (a b : jsstring) : Prop := JsString.leb a b = true.

(** [f] is a version file of the directory and no version file of it comes
    later in code-unit order. *)
Definition latestByName (fs : FS) (scene f : jsstring) : Prop :=
  In f (versionFiles fs scene) /\
  forall g, In g (versionFiles fs scene) -> JsString.leb g f = true.

End StorageOps.

(** What a detection result owes to the table it was computed from: the
    selected scene is declared and attains the maximal score, and the
    keywords are the first five matched keywords of that scene. *)
Module ClassifierNotions.
Import JsObject Classifier.

Definition selectedFacts (T : obj (list jsstring)) (content : jsstring)
           (r : DetectOutput) : Prop :=
  In (scene r) (allScenes T) /\
  get (allScores r) (scene r) = Some (maxScoreOf (allScores r)) /\
  (forall other n, get (allScores r) other = Some n -> n <= maxScoreOf (allScores r)) /\
  keywords r = firstn 5 (hits content (foundAt T (scene r))) /\
  Forall (fun k => includes content k = true /\ In k (foundAt T (scene r))) (keywords r) /\
  List.length (keywords r) = Nat.min 5 (maxScoreOf (allScores r)).

(** The four values the confidence can take, by maximal score. *)
Definition confidenceLevel (r : DetectOutput) : Prop :=
  let m := maxScoreOf (allScores r) in
  (m = 0 /\ confidence r = (3 # 10)%Q) \/
  (m = 1 /\ (confidence r == 1 # 3)%Q) \/
  (m = 2 /\ (confidence r == 2 # 3)%Q) \/
  (3 <= m /\ (confidence r == 1)%Q).

(** Text added around the content lowers no score, nor the maximal score,
    nor the confidence. *)
Definition neverLowers (f : jsstring -> DetectOutput) : Prop :=
  forall pre content post : jsstring,
    let r := f content in
    let r' := f (pre ++ content ++ post) in
    (forall scene n, get (allScores r) scene = Some n ->
                     exists n', get (allScores r') scene = Some n' /\ n <= n') /\
    maxScoreOf (allScores r) <= maxScoreOf (allScores r') /\
    (confidence r <= confidence r')%Q.

(** [covers a b]: the keywords of [a] are matched one by one, in order, by
    keywords of [b] that they contain. *)
Definition covers (a b : list jsstring) : bool :=
  (List.length a <=? List.length b) &&
  forallb (fun p => includes (fst p) (snd p)) (combine a b).

Fixpoint listEqb (a b : list jsstring) : bool :=
  match a, b with
  | [], [] => true
  | x :: a', y :: b' => eqb x y && listEqb a' b'
  | _, _ => false
  end.

(** Every scene of [T1] is a scene of [T2] whose list covers its list, and
    is the same list unless the scene is [except]. *)
Definition refinedBy (except : jsstring) (T1 T2 : obj (list jsstring)) : bool :=
  forallb (fun e =>
             match get T2 (fst e) with
             | Some kws2 => covers (snd e) kws2 && (eqb (fst e) except || listEqb (snd e) kws2)
             | None => false
             end) T1.

End ClassifierNotions.

(** * The request of a generation call *)
Module LlmNotions.
Import JsObject Llm.

(** The chat-completion request [generateSummary] and [generate] build for
    a model configuration and an API key. *)
Definition generationRequest (config : ModelConfig) (apiKey data prompt : jsstring)
  : Request :=
  {| url := endpoint config;
     authorization := js "Bearer " ++ apiKey;
     model := Some (modelName config);
     messages := [ {| role := js "system"; text := prompt |};
                   {| role := js "user"; text := data |} ];
     temperature := (7 # 10)%Q;
     max_tokens := 8192%N;
     json_object := false |}.

(** The request built for a model key that is an inherited property name:
    the configuration read has no field, so the address is [undefined] and
    the body names no model. *)
Definition unconfiguredRequest (apiKey data prompt : jsstring) : Request :=
  {| url := js "undefined";
     authorization := js "Bearer " ++ apiKey;
     model := None;
     messages := [ {| role := js "system"; text := prompt |};
                   {| role := js "user"; text := data |} ];
     temperature := (7 # 10)%Q;
     max_tokens := 8192%N;
     json_object := false |}.

(** The model key is not registered but names an inherited property. *)
Definition unconfigured (modelKey : jsstring) : Prop :=
  get MODELS modelKey = None /\ inherited modelKey = true.

(** The messages a failed [generateSummary] can carry. *)
Definition normalizedMessage (modelKey msg : jsstring) : Prop :=
  msg = js "不支持的模型: " ++ modelKey ++ js ". 支持的模型: " ++ join (js ", ") (keys MODELS) \/
  (exists config, get MODELS modelKey = Some config /\
                  msg = js "未设置 API Key: " ++ apiKeyEnv config) \/
  (unconfigured modelKey /\ msg = js "未设置 API Key: undefined") \/
  msg = js "请求超时" \/
  (exists cause, msg = js "调用失败: " ++ cause).

End LlmNotions.

(* ================================================================== *)
(** * The remaining operations of the logger *)
(* ================================================================== *)

(** [Logger.start], [Logger.end], [Logger.save], [Logger.query] *)
Module LoggerOps.
Import JsObject JsArray Logs.

(** [a < b] on strings *)
Definition ltb (a b : jsstring) : bool :=
  match JsString.compare a b with Lt => true | _ => false end.

(** An option that is present and not the empty string. *)
Definition given (s : option jsstring) : bool :=
  match s with Some (_ :: _) => true | _ => false end.

Definition valueOf (s : option jsstring) : jsstring :=
  match s with Some v => v | None => [] end.

(** ** [query] *)

Record Filters : Type := mkFilters {
  byCommand : option jsstring;
  byStatus : option jsstring;
  startDate : option jsstring;
  endDate : option jsstring;
  limit : option Z
}.

(** A parsed log line as [query] reads it, with the fields the interface
    [LogEntry] declares as strings: its timestamp, its command and status. *)
Record Stamped : Type := mkStamped { timestamp : jsstring; entry : LogEntry }.

(** The four tests of the loop body; an entry is pushed when none of them
    returns. *)
Definition passes (filters : Filters) (e : Stamped) : bool :=
  negb (given (byCommand filters)
        && negb (eqb (command (entry e)) (valueOf (byCommand filters))))
  && negb (given (byStatus filters)
           && negb (eqb (status (entry e)) (valueOf (byStatus filters))))
  && negb (given (startDate filters) && ltb (timestamp e) (valueOf (startDate filters)))
  && negb (given (endDate filters) && ltb (valueOf (endDate filters)) (timestamp e)).

(** [filters.limit || 100] *)
Definition limitOf (filters : Filters) : Z :=
  match limit filters with
  | Some l => if (l =? 0)%Z then 100%Z else l
  | None => 100%Z
  end.

Section Query.
(** [JSON.parse] and the field reads of the [try] block. *)
Variable parse : jsstring -> option Stamped.
Variable commandsDir : option (obj jsstring).

Definition pushLine (filters : Filters) (results : list Stamped) (line : jsstring)
  : list Stamped :=
  match parse line with
  | None => results
  | Some e => if passes filters e then results ++ [e] else results
  end.

(** [results] when the loops are done. *)
Definition matching (filters : Filters) : list Stamped :=
  match commandsDir with
  | None => []
  | Some dir =>
    fold_left
      (fun results (file : jsstring * jsstring) =>
         fold_left (pushLine filters) (linesOf (snd file)) results)
      (List.filter (fun f : jsstring * jsstring => endsWith (fst f) (js ".jsonl")) dir)
      []
  end.

Definition query (filters : Filters) : list Stamped :=
  match commandsDir with
  | None => []
  | Some _ => sliceFrom (- limitOf filters) (matching filters)
  end.
End Query.

(** ** [start], [end], [save] *)

(** A reading of the clock: [Date.now()] and [new Date().toISOString()]. *)
Record Clock : Type := mkClock { nowMs : Z; nowIso : jsstring }.

Section Lifecycle.
(** The JSON values of [options] and [data]. *)
Variable Json : Type.

Record Output : Type := mkOutput {
  success : bool; data : option Json; error : option jsstring; elapsed : Z
}.

Record Entry : Type := mkEntry {
  stamp : jsstring;
  name : jsstring;
  args : list jsstring;
  options : Json;
  output : option Output;
  state : jsstring
}.

(** The logger object: [currentLog], [startTime], and the files of the
    commands directory with their text. *)
Record Logger : Type := mkLogger {
  currentLog : option Entry;
  startTime : Z;
  commandFiles : obj jsstring
}.

Variable stringify : Entry -> jsstring.

Definition start (l : Logger) (clock : Clock) (command : jsstring)
           (arguments : list jsstring) (opts : Json) : Logger :=
  {| currentLog := Some {| stamp := nowIso clock; name := command;
                           args := arguments; options := opts;
                           output := None; state := js "pending" |};
     startTime := nowMs clock;
     commandFiles := commandFiles l |}.

(** [iso.split('T')[0]] *)
Definition dateOf (iso : jsstring) : jsstring :=
  match split_on 84%N iso with
  | d :: _ => d
  | [] => []
  end.

(** [fs.appendFileSync(path, text)] *)
Definition appendFile (files : obj jsstring) (file text : jsstring) : obj jsstring :=
  match get files file with
  | Some old => set files file (old ++ text)
  | None => set files file text
  end.

Definition logFile (command date : jsstring) : jsstring :=
  command ++ js "_" ++ date ++ js ".jsonl".

(** [path.join(this.logDir, 'commands', filename)] names a file of the
    commands directory when [filename] has no path separator. *)
Definition inDirectory (filename : jsstring) : bool :=
  negb (existsb (N.eqb 47%N) filename).

(** [save(entry)].  [None]: the file name has a path separator, the write
    does not go to a file of the commands directory (it fails, or lands in a
    subdirectory); that case is left out of the model. *)
Definition save (files : obj jsstring) (clock : Clock) (e : Entry)
  : option (obj jsstring) :=
  let filename := logFile (name e) (dateOf (nowIso clock)) in
  if inDirectory filename
  then Some (appendFile files filename (stringify e ++ [10%N]))
  else None.

(** [end(success, data, error)], named [finish] here since [end] is a
    keyword; [clock] gives [Date.now()] of [end] and the date read in
    [save]. *)
Definition finish (l : Logger) (clock : Clock) (ok : bool)
           (result : option Json) (failure : option jsstring) : option Logger :=
  match currentLog l with
  | None => Some l
  | Some pending =>
    let duration := (nowMs clock - startTime l)%Z in
    let e := {| stamp := stamp pending; name := name pending;
                args := args pending; options := options pending;
                output := Some {| success := ok; data := result;
                                  error := failure; elapsed := duration |};
                state := if ok then js "success" else js "error" |} in
    match save (commandFiles l) clock e with
    | Some files => Some {| currentLog := None;
                            startTime := startTime l;
                            commandFiles := files |}
    | None => None
    end
  end.

(** The entry [finish] writes for a command started at [begun]. *)
Definition finished (begun ended : Clock) (command : jsstring)
           (arguments : list jsstring) (opts : Json) (ok : bool)
           (result : option Json) (failure : option jsstring) : Entry :=
  {| stamp := nowIso begun; name := command; args := arguments; options := opts;
     output := Some {| success := ok; data := result; error := failure;
                       elapsed := (nowMs ended - nowMs begun)%Z |};
     state := if ok then js "success" else js "error" |}.

(** What [getStats] reads of an entry. *)
Definition summaryOf (e : Entry) : LogEntry :=
  {| command := name e; status := state e;
     duration := option_map elapsed (output e) |}.
End Lifecycle.

(** *** Reference notions *)

(** The [.jsonl] files of the commands directory, in listing order. *)
Definition logFiles (dir : obj jsstring) : obj jsstring :=
  List.filter (fun f : jsstring * jsstring => endsWith (fst f) (js ".jsonl")) dir.

Definition parsed (A : Type) (parse : jsstring -> option A) (line : jsstring) : list A :=
  match parse line with Some e => [e] | None => [] end.

(** The entries of the given files, file by file and line by line; lines
    that do not parse are skipped. *)
Definition entriesOf (A : Type) (parse : jsstring -> option A) (files : obj jsstring)
  : list A :=
  flat_map (fun file : jsstring * jsstring => flat_map (parsed parse) (linesOf (snd file)))
           files.

(** No command is asked for, or it is the entry's command. *)
Definition selects (commandFilter : option jsstring) (e : LogEntry) : bool :=
  negb (given commandFilter) || eqb (command e) (valueOf commandFilter).

Definition hasStatus (s : jsstring) (e : LogEntry) : bool := eqb (status e) s.

Definition durationOf (e : LogEntry) : Z :=
  match duration e with Some d => d | None => 0%Z end.

Definition sumZ (l : list Z) : Z := fold_right Z.add 0%Z l.

Definition countZ (A : Type) (p : A -> bool) (l : list A) : Z :=
  Z.of_nat (List.length (List.filter p l)).

(** The counters after the entries [es] have been counted. *)
Definition tally (acc : Acc) (es : list LogEntry) : Acc :=
  ({| totalCommands := totalCommands (fst acc) + Z.of_nat (List.length es);
      successCount := successCount (fst acc) + countZ (hasStatus (js "success")) es;
      errorCount := errorCount (fst acc) + countZ (hasStatus (js "error")) es;
      avgDuration := avgDuration (fst acc) |}%Z,
   (snd acc + sumZ (map durationOf es))%Z).

(** The sums of [getStats] are exact in doubles for these entries: no
    duration is negative, their total is below 2^52 and there are fewer
    than 2^53 entries. *)
Definition exactInDoubles (es : list LogEntry) : Prop :=
  Forall (fun e => (0 <= durationOf e)%Z) es /\
  (sumZ (map durationOf es) < 2 ^ 52)%Z /\
  (Z.of_nat (List.length es) < 2 ^ 53)%Z.

Definition countersConsistent (s : LogStats) : Prop :=
  (0 <= successCount s)%Z /\ (0 <= errorCount s)%Z /\
  (successCount s + errorCount s <= totalCommands s)%Z /\
  ((totalCommands s = 0)%Z -> avgDuration s = 0%Z).

(** A text that [appendFileSync] can extend by whole lines: empty, or ending
    with a line feed. *)
Definition wholeLines (text : jsstring) : Prop :=
  text = [] \/ exists t, text = t ++ [10%N].

End LoggerOps.

(* ================================================================== *)
(** * Saved outputs and evaluations *)
(* ================================================================== *)

(** [saveOutput] and [saveEvaluation] of the storage module *)
Module Outputs.
Import JsObject Storage.

(** [iso.replace(/[:.]/g, '-').slice(0, 19)] *)
Definition timestampOf (iso : jsstring) : jsstring :=
  firstn 19 (map (fun c => if ((c =? 58) || (c =? 46))%N then 45%N else c) iso).

(** The outputs directory: the scene directories with the text of their
    files. *)
Definition OutputDirs : Type := obj (obj jsstring).

(** [iso] is [new Date().toISOString()]. *)
Definition saveOutput (outputs : OutputDirs) (iso scene text : jsstring)
  : OutputDirs * Path :=
  let filename := timestampOf iso ++ js ".md" in
  let outputs := match get outputs scene with
                 | Some _ => outputs
                 | None => set outputs scene []
                 end in
  (modify outputs scene (fun dir => set dir filename text), (scene, filename)).

Section Evaluations.
(** The evaluation results and [JSON.stringify(result, null, 2)]. *)
Variable Json : Type.
Variable stringify : Json -> jsstring.

(** The evaluations directory is a flat directory of files. *)
Definition saveEvaluation (evaluations : obj jsstring) (iso : jsstring) (result : Json)
  : obj jsstring * jsstring :=
  let filename := js "eval_" ++ timestampOf iso ++ js ".json" in
  (set evaluations filename (stringify result), filename).
End Evaluations.

(** *** Reference notions *)

Definition outputAt (outputs : OutputDirs) (p : Path) : option jsstring :=
  match get outputs (fst p) with
  | Some dir => get dir (snd p)
  | None => None
  end.

(** The part of an ISO timestamp down to the second. *)
Definition toTheSecond (iso : jsstring) : jsstring := firstn 19 iso.

End Outputs.

(* ================================================================== *)
(** * Properties *)
(* ================================================================== *)

Import JsObject Classifier.
Local Open Scope string_scope.
Local Open Scope list_scope.

(** ** Strings *)

Lemma eqb_refl (a : jsstring) : eqb a a = true.
Proof.
  induction a as [|x a IH]; simpl; [reflexivity|].
  now rewrite N.eqb_refl.
Qed.

Lemma eqb_eq (a b : jsstring) : eqb a b = true <-> a = b.
Proof.
  split; [|intros ->; apply eqb_refl].
  revert b; induction a as [|x a IH]; intros [|y b]; simpl; try discriminate; auto.
  intros H. apply andb_true_iff in H as [Hx Hab].
  apply N.eqb_eq in Hx. f_equal; auto.
Qed.

Lemma eqb_neq (a b : jsstring) : eqb a b = false <-> a <> b.
Proof.
  rewrite <- eqb_eq. destruct (eqb a b); split; congruence.
Qed.

Lemma startsWith_iff (s p : jsstring) :
  startsWith s p = true <-> exists t, s = p ++ t.
Proof.
  revert s; induction p as [|y p IH]; intros s; simpl.
  - split; [intros _; now exists s | reflexivity].
  - destruct s as [|x s].
    + split; [discriminate|intros [t Ht]; discriminate].
    + rewrite andb_true_iff, N.eqb_eq, IH. split.
      * intros [-> [t ->]]. now exists t.
      * intros [t Ht]. injection Ht as -> ->. eauto.
Qed.

Lemma startsWith_app (p t : jsstring) : startsWith (p ++ t) p = true.
Proof. apply startsWith_iff. eauto. Qed.

Lemma endsWith_app (t p : jsstring) : endsWith (t ++ p) p = true.
Proof. unfold endsWith. rewrite rev_app_distr. apply startsWith_app. Qed.

Lemma includes_iff (s k : jsstring) :
  includes s k = true <-> exists a b, s = a ++ k ++ b.
Proof.
  induction s as [|c s IH]; simpl.
  - rewrite startsWith_iff. split.
    + intros [t Ht]. exists [], t. exact Ht.
    + intros (a & b & H). symmetry in H.
      apply app_eq_nil in H as [-> H]. apply app_eq_nil in H as [-> ->].
      now exists [].
  - rewrite orb_true_iff, IH, startsWith_iff. split.
    + intros [[t Ht] | (a & b & ->)].
      * exists [], t. exact Ht.
      * exists (c :: a), b. reflexivity.
    + intros (a & b & H). destruct a as [|c' a]; simpl in H.
      * left. eauto.
      * right. injection H as -> ->. eauto.
Qed.

(** A match survives when text is added before or after the content. *)
Lemma includes_extend (pre s post k : jsstring) :
  includes s k = true -> includes (pre ++ s ++ post) k = true.
Proof.
  rewrite !includes_iff. intros (a & b & ->).
  exists (pre ++ a), (b ++ post). now rewrite <- !app_assoc.
Qed.

Lemma includes_self (k : jsstring) : includes k k = true.
Proof. apply includes_iff. exists [], []. now rewrite app_nil_r. Qed.

(** ** Objects *)

Section ObjFacts.
Variable V : Type.
Implicit Types (o : obj V) (k : jsstring).

Lemma set_fresh o k v : ~ In k (keys o) -> set o k v = o ++ [(k, v)].
Proof.
  induction o as [|[k' v'] o IH]; simpl; intros H; [reflexivity|].
  destruct (eqb k' k) eqn:E.
  - apply eqb_eq in E. tauto.
  - f_equal. apply IH. tauto.
Qed.

Lemma modify_last o k v f :
  ~ In k (keys o) -> modify (o ++ [(k, v)]) k f = o ++ [(k, f v)].
Proof.
  induction o as [|[k' v'] o IH]; simpl; intros H.
  - now rewrite eqb_refl.
  - destruct (eqb k' k) eqn:E.
    + apply eqb_eq in E. tauto.
    + f_equal. apply IH. tauto.
Qed.

Lemma get_Some_In o k v : get o k = Some v -> In (k, v) o.
Proof.
  induction o as [|[k' v'] o IH]; simpl; [discriminate|].
  destruct (eqb k' k) eqn:E.
  - apply eqb_eq in E. intros [= ->]. left. now subst.
  - auto.
Qed.

Lemma get_None_notin o k : get o k = None <-> ~ In k (keys o).
Proof.
  induction o as [|[k' v'] o IH]; simpl; [tauto|].
  destruct (eqb k' k) eqn:E.
  - apply eqb_eq in E. split; [discriminate|tauto].
  - apply eqb_neq in E. rewrite IH. tauto.
Qed.

Lemma get_app_fresh o k v : ~ In k (keys o) -> get (o ++ [(k, v)]) k = Some v.
Proof.
  induction o as [|[k' v'] o IH]; simpl; intros H.
  - now rewrite eqb_refl.
  - destruct (eqb k' k) eqn:E.
    + apply eqb_eq in E. tauto.
    + apply IH. tauto.
Qed.

Lemma keys_app o1 o2 : keys (o1 ++ o2) = keys o1 ++ keys o2.
Proof. apply map_app. Qed.

Lemma get_set_same o k v : get (set o k v) k = Some v.
Proof.
  induction o as [|[k' v'] o IH]; simpl.
  - now rewrite eqb_refl.
  - destruct (eqb k' k) eqn:E; simpl; rewrite E; auto.
Qed.

Lemma get_set_other o k k' v : k' <> k -> get (set o k v) k' = get o k'.
Proof.
  intros Hk. induction o as [|[k0 v0] o IH]; simpl.
  - apply eqb_neq in Hk. destruct (eqb k k') eqn:E; [|reflexivity].
    apply eqb_eq in E. subst. now rewrite eqb_refl in Hk.
  - destruct (eqb k0 k) eqn:E; simpl.
    + apply eqb_eq in E. subst k0.
      destruct (eqb k k') eqn:E'; [|reflexivity].
      apply eqb_eq in E'. congruence.
    + now rewrite IH.
Qed.

Lemma get_modify_same o k f :
  get (modify o k f) k = option_map f (get o k).
Proof.
  induction o as [|[k' v'] o IH]; simpl; [reflexivity|].
  destruct (eqb k' k) eqn:E; simpl; rewrite E; auto.
Qed.

Lemma get_modify_other o k k' f : k' <> k -> get (modify o k f) k' = get o k'.
Proof.
  intros Hk. induction o as [|[k0 v0] o IH]; simpl; [reflexivity|].
  destruct (eqb k0 k) eqn:E; simpl.
  - apply eqb_eq in E. subst k0.
    destruct (eqb k k') eqn:E'; [|reflexivity].
    apply eqb_eq in E'. congruence.
  - now rewrite IH.
Qed.
End ObjFacts.

Lemma get_map_values (A B : Type) (h : jsstring * A -> B) (T : obj A) k v :
  get (map (fun e => (fst e, h e)) T) k = Some v ->
  exists e, In e T /\ fst e = k /\ v = h e.
Proof.
  induction T as [|e T IH]; simpl; [discriminate|].
  destruct (eqb (fst e) k) eqn:E.
  - apply eqb_eq in E. intros [= <-]. exists e. auto.
  - intros H. destruct (IH H) as (e' & ? & ? & ?). exists e'. auto.
Qed.

(** ** The keyword pass computes one entry per scene *)

Lemma scoreOf_cons content k kws :
  scoreOf content (k :: kws) =
  (if includes content k then 1 else 0) + scoreOf content kws.
Proof. unfold scoreOf, hits. simpl. now destruct (includes content k). Qed.

Lemma scoreOf_le content kws : scoreOf content kws <= List.length kws.
Proof. apply filter_length_le. Qed.

Lemma matchKeywords_last content scene sc fk kws : forall n l,
  ~ In scene (keys sc) -> ~ In scene (keys fk) ->
  matchKeywords content scene (sc ++ [(scene, n)], fk ++ [(scene, l)]) kws =
  (sc ++ [(scene, n + scoreOf content kws)], fk ++ [(scene, l ++ hits content kws)]).
Proof.
  induction kws as [|k kws IH]; intros n l Hs Hf.
  - unfold matchKeywords, scoreOf, hits. simpl. now rewrite Nat.add_0_r, app_nil_r.
  - unfold matchKeywords in *. simpl fold_left. unfold matchStep at 2.
    rewrite scoreOf_cons. unfold hits. simpl filter.
    destruct (includes content k); simpl fst; simpl snd.
    + rewrite !modify_last by assumption. rewrite IH by assumption.
      rewrite <- app_assoc. simpl.
      replace (n + 1 + scoreOf content kws) with (n + S (scoreOf content kws)) by lia.
      reflexivity.
    + now rewrite IH.
Qed.

Lemma keywordPass_from content T : forall sc fk,
  keys fk = keys sc -> NoDup (keys sc ++ keys T) ->
  fold_left (sceneStep content) T (sc, fk) =
  (sc ++ scoresOf T content, fk ++ foundOf T content).
Proof.
  induction T as [|[scene kws] T IH]; intros sc fk Hk Hnd; simpl.
  - now rewrite !app_nil_r.
  - assert (Hfresh : ~ In scene (keys sc)).
    { simpl in Hnd. apply NoDup_remove_2 in Hnd. intros H. apply Hnd.
      apply in_or_app. now left. }
    rewrite !set_fresh by (rewrite ?Hk; assumption).
    rewrite matchKeywords_last by (rewrite ?Hk; assumption).
    rewrite IH.
    + simpl. now rewrite <- !app_assoc.
    + now rewrite !keys_app, Hk.
    + rewrite keys_app, <- app_assoc. exact Hnd.
Qed.

Lemma keywordPass_spec T content :
  NoDup (keys T) ->
  keywordPass T content = (scoresOf T content, foundOf T content).
Proof.
  intros H. unfold keywordPass. now rewrite keywordPass_from.
Qed.

(** ** Confidence *)

Lemma confidenceOf_zero : confidenceOf 0 = (3 # 10)%Q.
Proof. reflexivity. Qed.

Lemma confidenceOf_pos m :
  0 < m -> confidenceOf m = Qmin (inject_Z (Z.of_nat m) / 3) 1.
Proof.
  intros H. unfold confidenceOf. destruct (Nat.ltb_spec 0 m); [reflexivity|lia].
Qed.

Lemma third_le m : 0 < m -> (1 # 3 <= inject_Z (Z.of_nat m) / 3)%Q.
Proof.
  intros H. unfold Qle, Qdiv, Qmult, Qinv, inject_Z. simpl. lia.
Qed.

Lemma confidenceOf_pos_ge m : 0 < m -> (1 # 3 <= confidenceOf m)%Q.
Proof.
  intros H. rewrite confidenceOf_pos by assumption.
  apply Q.min_glb; [now apply third_le | discriminate].
Qed.

Lemma confidenceOf_ge m : (3 # 10 <= confidenceOf m)%Q.
Proof.
  destruct m as [|m].
  - rewrite confidenceOf_zero. apply Qle_refl.
  - apply Qle_trans with (1 # 3)%Q; [discriminate|].
    apply confidenceOf_pos_ge. lia.
Qed.

Lemma confidenceOf_range m : (0 <= confidenceOf m /\ confidenceOf m <= 1)%Q.
Proof.
  split.
  - apply Qle_trans with (3 # 10)%Q; [discriminate | apply confidenceOf_ge].
  - destruct m as [|m].
    + rewrite confidenceOf_zero. discriminate.
    + rewrite confidenceOf_pos by lia. apply Q.le_min_r.
Qed.

(** The test of step 4 never succeeds. *)
Lemma override_dead m : Qltb (confidenceOf m) (3 # 10) = false.
Proof.
  unfold Qltb. apply negb_false_iff, Qle_bool_iff, confidenceOf_ge.
Qed.

(** ** The classifier in closed form *)

Lemma classify_eq T beats content m s ks :
  NoDup (keys T) ->
  selectBest beats (scoresOf T content) (foundOf T content) = (m, s, ks) ->
  classify T beats content =
  {| scene := s; confidence := confidenceOf m;
     keywords := firstn 5 ks; allScores := scoresOf T content |}.
Proof.
  intros H E. unfold classify. rewrite keywordPass_spec by assumption.
  rewrite E. now rewrite override_dead.
Qed.

(** ** The selection loop *)

Lemma nodupb_sound l : nodupb l = true -> NoDup l.
Proof.
  induction l as [|x l IH]; simpl; intros H; constructor.
  - apply andb_true_iff in H as [H _]. apply negb_true_iff in H.
    intros Hin. assert (E : existsb (eqb x) l = true).
    { apply existsb_exists. exists x. split; [assumption | apply eqb_refl]. }
    congruence.
  - apply andb_true_iff in H as [_ H]. auto.
Qed.

Section Selection.
Variable found : obj (list jsstring).

(** With [>], the incumbent survives every later score that does not
    exceed it. *)
Lemma select_gt_from scores : forall m0 s0 k0 m s ks,
  fold_left (selectStep scoreGt found) scores (m0, s0, k0) = (m, s, ks) ->
  (Forall (fun e => snd e <= m0) scores /\ (m, s, ks) = (m0, s0, k0)) \/
  (exists l1 e l2,
      scores = l1 ++ e :: l2 /\ s = fst e /\ m = snd e /\ ks = foundAt found (fst e) /\
      m0 < m /\
      Forall (fun e' => snd e' < m) l1 /\ Forall (fun e' => snd e' <= m) l2).
Proof.
  induction scores as [|[scene score] scores IH]; intros m0 s0 k0 m s ks H.
  - left. simpl in H. split; [constructor | congruence].
  - simpl in H. unfold scoreGt at 2 in H.
    destruct (Nat.ltb_spec m0 score) as [Hlt | Hle].
    + apply IH in H as [[Hall Heq] | (l1 & e & l2 & -> & -> & -> & -> & Hm & H1 & H2)].
      * injection Heq as -> -> ->. right.
        exists [], (scene, score), scores. simpl. repeat split; auto.
      * right. exists ((scene, score) :: l1), e, l2. simpl.
        repeat split; auto; try lia.
    + apply IH in H as [[Hall Heq] | (l1 & e & l2 & -> & -> & -> & -> & Hm & H1 & H2)].
      * left. split; auto.
      * right. exists ((scene, score) :: l1), e, l2. simpl.
        repeat split; auto. constructor; [simpl; lia | assumption].
Qed.

(** With [>=], a later score that equals the incumbent's replaces it. *)
Lemma select_ge_from scores : forall m0 s0 k0 m s ks,
  fold_left (selectStep scoreGe found) scores (m0, s0, k0) = (m, s, ks) ->
  (Forall (fun e => snd e < m0) scores /\ (m, s, ks) = (m0, s0, k0)) \/
  (exists l1 e l2,
      scores = l1 ++ e :: l2 /\ s = fst e /\ m = snd e /\ ks = foundAt found (fst e) /\
      m0 <= m /\
      Forall (fun e' => snd e' <= m) l1 /\ Forall (fun e' => snd e' < m) l2).
Proof.
  induction scores as [|[scene score] scores IH]; intros m0 s0 k0 m s ks H.
  - left. simpl in H. split; [constructor | congruence].
  - simpl in H. unfold scoreGe at 2 in H.
    destruct (Nat.leb_spec m0 score) as [Hle | Hlt].
    + apply IH in H as [[Hall Heq] | (l1 & e & l2 & -> & -> & -> & -> & Hm & H1 & H2)].
      * injection Heq as -> -> ->. right.
        exists [], (scene, score), scores. simpl. repeat split; auto.
      * right. exists ((scene, score) :: l1), e, l2. simpl.
        repeat split; auto; try lia.
    + apply IH in H as [[Hall Heq] | (l1 & e & l2 & -> & -> & -> & -> & Hm & H1 & H2)].
      * left. split; auto.
      * right. exists ((scene, score) :: l1), e, l2. simpl.
        repeat split; auto. constructor; [simpl; lia | assumption].
Qed.
End Selection.

(** ** First and last scene attaining the maximum *)

Lemma maxScoreOf_split (l1 l2 : obj nat) e :
  Forall (fun e' => snd e' <= snd e) l1 ->
  Forall (fun e' => snd e' <= snd e) l2 ->
  maxScoreOf (l1 ++ e :: l2) = snd e.
Proof.
  intros H1 H2. unfold maxScoreOf. apply Nat.le_antisymm.
  - apply list_max_le. rewrite map_app. simpl. apply Forall_app. split.
    + apply Forall_map. exact H1.
    + constructor; [lia | apply Forall_map; exact H2].
  - assert (H : Forall (fun k => k <= list_max (map snd (l1 ++ e :: l2)))
                       (map snd (l1 ++ e :: l2))) by now apply list_max_le.
    rewrite Forall_forall in H. apply H. apply in_map, in_elt.
Qed.

Lemma find_attains (scores l1 l2 : obj nat) e :
  maxScoreOf scores = snd e ->
  Forall (fun e' => snd e' < snd e) l1 ->
  find (attains scores) (l1 ++ e :: l2) = Some e.
Proof.
  intros Hm H1. induction H1 as [|e' l1 Hlt _ IH]; simpl.
  - unfold attains. rewrite Hm, Nat.eqb_refl. reflexivity.
  - unfold attains at 1. rewrite Hm.
    destruct (Nat.eqb_spec (snd e') (snd e)); [lia | exact IH].
Qed.

Lemma Forall_lt_le (l : obj nat) m :
  Forall (fun e => snd e < m) l -> Forall (fun e => snd e <= m) l.
Proof. apply Forall_impl. intros; lia. Qed.

Lemma firstAttaining_split (l1 l2 : obj nat) e :
  Forall (fun e' => snd e' < snd e) l1 ->
  Forall (fun e' => snd e' <= snd e) l2 ->
  firstAttaining (l1 ++ e :: l2) = Some (fst e).
Proof.
  intros H1 H2. unfold firstAttaining.
  rewrite find_attains; [reflexivity | | assumption].
  apply maxScoreOf_split; [now apply Forall_lt_le | assumption].
Qed.

Lemma lastAttaining_split (l1 l2 : obj nat) e :
  Forall (fun e' => snd e' <= snd e) l1 ->
  Forall (fun e' => snd e' < snd e) l2 ->
  lastAttaining (l1 ++ e :: l2) = Some (fst e).
Proof.
  intros H1 H2. unfold lastAttaining.
  rewrite rev_app_distr. simpl rev. rewrite <- app_assoc. simpl.
  rewrite find_attains; [reflexivity | | now apply Forall_rev].
  apply maxScoreOf_split; [assumption | now apply Forall_lt_le].
Qed.

(** ** What the selection returns *)

Lemma select_keywords_from beats found scores : forall m0 s0 k0 m s ks,
  fold_left (selectStep beats found) scores (m0, s0, k0) = (m, s, ks) ->
  ks = k0 \/ exists scene, ks = foundAt found scene.
Proof.
  induction scores as [|[scene score] scores IH]; intros m0 s0 k0 m s ks H.
  - left. simpl in H. congruence.
  - simpl in H. destruct (beats score m0).
    + apply IH in H as [-> | H]; eauto.
    + apply IH in H. exact H.
Qed.

Lemma foundAt_foundOf T content scene :
  foundAt (foundOf T content) scene = [] \/
  exists kws, In (scene, kws) T /\ foundAt (foundOf T content) scene = hits content kws.
Proof.
  unfold foundAt. destruct (get (foundOf T content) scene) as [l|] eqn:E; [|now left].
  right. apply get_map_values in E as ([scene' kws] & Hin & Hk & ->).
  simpl in Hk. subst scene'. exists kws. auto.
Qed.

Lemma In_firstn (A : Type) n (l : list A) x : In x (firstn n l) -> In x l.
Proof.
  revert l; induction n as [|n IH]; intros [|y l]; simpl; try tauto.
  intros [-> | H]; auto.
Qed.

(** Every returned keyword is a keyword of the table that occurs in the
    content. *)
Lemma classify_keywords_declared T beats content k :
  NoDup (keys T) ->
  In k (keywords (classify T beats content)) ->
  In k (declared T) /\ includes content k = true.
Proof.
  intros Hnd.
  destruct (selectBest beats (scoresOf T content) (foundOf T content))
    as [[m s] ks] eqn:E.
  rewrite classify_eq with (m := m) (s := s) (ks := ks) by assumption.
  cbn [keywords].
  intros Hin. apply In_firstn in Hin.
  apply select_keywords_from in E as [-> | [scene ->]]; [contradiction|].
  destruct (foundAt_foundOf T content scene) as [E0 | (kws & HT & E1)].
  - rewrite E0 in Hin. contradiction.
  - rewrite E1 in Hin. apply filter_In in Hin as [Hk Hinc]. split; [|exact Hinc].
    unfold declared. apply in_concat. exists kws. split; [|exact Hk].
    apply in_map_iff. now exists (scene, kws).
Qed.

Lemma selectBest_gt_cases found scores m s ks :
  selectBest scoreGt scores found = (m, s, ks) ->
  (Forall (fun e => snd e <= 0) scores /\ (m, s, ks) = (0, js "other/finance", [])) \/
  (exists l1 e l2,
      scores = l1 ++ e :: l2 /\ s = fst e /\ m = snd e /\ ks = foundAt found (fst e) /\
      0 < m /\
      Forall (fun e' => snd e' < m) l1 /\ Forall (fun e' => snd e' <= m) l2).
Proof. apply select_gt_from. Qed.

Lemma selectBest_ge_cases found scores m s ks :
  selectBest scoreGe scores found = (m, s, ks) ->
  (Forall (fun e => snd e < 0) scores /\ (m, s, ks) = (0, js "other/finance", [])) \/
  (exists l1 e l2,
      scores = l1 ++ e :: l2 /\ s = fst e /\ m = snd e /\ ks = foundAt found (fst e) /\
      0 <= m /\
      Forall (fun e' => snd e' <= m) l1 /\ Forall (fun e' => snd e' < m) l2).
Proof. apply select_ge_from. Qed.

Lemma selectBest_gt_max found scores m s ks :
  selectBest scoreGt scores found = (m, s, ks) -> m = maxScoreOf scores.
Proof.
  intros H. apply select_gt_from in H
    as [[Hall Heq] | (l1 & e & l2 & -> & -> & -> & -> & Hm & H1 & H2)].
  - injection Heq as -> _ _. symmetry. apply Nat.le_0_r.
    apply list_max_le. apply Forall_map. exact Hall.
  - symmetry. apply maxScoreOf_split; [now apply Forall_lt_le | assumption].
Qed.

Lemma selectBest_ge_max found scores m s ks :
  selectBest scoreGe scores found = (m, s, ks) -> m = maxScoreOf scores.
Proof.
  intros H. apply select_ge_from in H
    as [[Hall Heq] | (l1 & e & l2 & -> & -> & -> & -> & Hm & H1 & H2)].
  - injection Heq as -> _ _. destruct scores as [|e scores]; [reflexivity|].
    inversion Hall; lia.
  - symmetry. apply maxScoreOf_split; [assumption | now apply Forall_lt_le].
Qed.

Lemma detectScene_keys : NoDup (keys SceneDetector.SCENE_KEYWORDS).
Proof. apply nodupb_sound. vm_compute. reflexivity. Qed.

Lemma detect_keys : NoDup (keys Engine.SCENE_KEYWORDS).
Proof. apply nodupb_sound. vm_compute. reflexivity. Qed.

Lemma confidence_cases m :
  (m = 0 /\ confidenceOf m = (3 # 10)%Q) \/
  (0 < m /\ (1 # 3 <= confidenceOf m)%Q).
Proof.
  destruct m as [|m]; [left | right]; split; try lia.
  - reflexivity.
  - apply confidenceOf_pos_ge. lia.
Qed.

Lemma unmatchedb_sound T content : unmatchedb T content = true -> unmatched T content.
Proof.
  unfold unmatchedb, unmatched. rewrite forallb_forall. intros H scene kws k HT Hk.
  specialize (H _ HT). simpl in H. rewrite forallb_forall in H.
  apply negb_true_iff. auto.
Qed.

Lemma hits_none content kws :
  (forall k, In k kws -> includes content k = false) -> hits content kws = [].
Proof.
  unfold hits. induction kws as [|k kws IH]; intros H; [reflexivity|]. simpl.
  rewrite (H k) by now left. apply IH. intros k' Hk'. apply H. now right.
Qed.

Lemma unmatched_scores T content :
  unmatched T content ->
  scoresOf T content = map (fun e => (fst e, 0)) T /\
  foundOf T content = map (fun e => (fst e, [])) T.
Proof.
  intros H. unfold scoresOf, foundOf.
  assert (Hh : forall e, In e T -> hits content (snd e) = []).
  { intros [scene kws] HT. simpl. apply hits_none. intros k Hk.
    exact (H scene kws k HT Hk). }
  split; apply map_ext_in; intros e He; unfold scoreOf; now rewrite Hh.
Qed.

(** ** The two classifiers *)

Lemma classify_gt_shape T content :
  NoDup (keys T) ->
  exists m s ks,
    selectBest scoreGt (scoresOf T content) (foundOf T content) = (m, s, ks) /\
    m = maxScoreOf (scoresOf T content) /\
    classify T scoreGt content =
    {| scene := s; confidence := confidenceOf m;
       keywords := firstn 5 ks; allScores := scoresOf T content |}.
Proof.
  intros Hnd.
  destruct (selectBest scoreGt (scoresOf T content) (foundOf T content))
    as [[m s] ks] eqn:E.
  exists m, s, ks. split; [reflexivity|]. split.
  - eapply selectBest_gt_max; eassumption.
  - now apply classify_eq.
Qed.

Lemma classify_ge_shape T content :
  NoDup (keys T) ->
  exists m s ks,
    selectBest scoreGe (scoresOf T content) (foundOf T content) = (m, s, ks) /\
    m = maxScoreOf (scoresOf T content) /\
    classify T scoreGe content =
    {| scene := s; confidence := confidenceOf m;
       keywords := firstn 5 ks; allScores := scoresOf T content |}.
Proof.
  intros Hnd.
  destruct (selectBest scoreGe (scoresOf T content) (foundOf T content))
    as [[m s] ks] eqn:E.
  exists m, s, ks. split; [reflexivity|]. split.
  - eapply selectBest_ge_max; eassumption.
  - now apply classify_eq.
Qed.

Lemma meeting_not_declared_cli :
  existsb (eqb (js "会议")) (declared SceneDetector.SCENE_KEYWORDS) = false.
Proof. vm_compute. reflexivity. Qed.

Lemma meeting_not_declared_engine :
  existsb (eqb (js "会议")) (declared Engine.SCENE_KEYWORDS) = false.
Proof. vm_compute. reflexivity. Qed.

Lemma classify_keywords_not_synthetic T beats content :
  NoDup (keys T) ->
  existsb (eqb (js "会议")) (declared T) = false ->
  keywords (classify T beats content) <> [js "会议"].
Proof.
  intros Hnd Hno Heq.
  assert (Hin : In (js "会议") (keywords (classify T beats content))).
  { rewrite Heq. now left. }
  apply classify_keywords_declared in Hin as [Hin _]; [|assumption].
  assert (E : existsb (eqb (js "会议")) (declared T) = true).
  { apply existsb_exists. exists (js "会议"). split; [assumption | apply eqb_refl]. }
  congruence.
Qed.

(** *** Content that matches no keyword *)

(** C1, as amended: for content containing none of the declared keywords the
    override of step 4 is not taken.  The confidence is the literal 0.3, the
    keyword list is empty and every score is 0; [detectScene] keeps its
    initial scene other/finance, [detect] ends on the last declared scene,
    other/legal. *)
Theorem unmatched_content_result (content : jsstring) :
  (unmatched SceneDetector.SCENE_KEYWORDS content ->
   SceneDetector.detectScene content =
   {| scene := js "other/finance"; confidence := 3 # 10; keywords := [];
      allScores := map (fun e => (fst e, 0)) SceneDetector.SCENE_KEYWORDS |})
  /\
  (unmatched Engine.SCENE_KEYWORDS content ->
   Engine.detect content =
   {| scene := js "other/legal"; confidence := 3 # 10; keywords := [];
      allScores := map (fun e => (fst e, 0)) Engine.SCENE_KEYWORDS |}).
Proof.
  split; intros H; apply unmatched_scores in H as [Hs Hf].
  - unfold SceneDetector.detectScene.
    rewrite classify_eq with (m := 0) (s := js "other/finance") (ks := []).
    + now rewrite Hs.
    + exact detectScene_keys.
    + rewrite Hs, Hf. vm_compute. reflexivity.
  - unfold Engine.detect.
    rewrite classify_eq with (m := 0) (s := js "other/legal") (ks := []).
    + now rewrite Hs.
    + exact detect_keys.
    + rewrite Hs, Hf. vm_compute. reflexivity.
Qed.

Lemma unmatched_content_result_witness :
  scene (SceneDetector.detectScene (js "hello team")) = js "other/finance" /\
  scene (Engine.detect (js "hello team")) = js "other/legal".
Proof.
  destruct (unmatched_content_result (js "hello team")) as [H1 H2].
  rewrite H1 by (apply unmatchedb_sound; vm_compute; reflexivity).
  rewrite H2 by (apply unmatchedb_sound; vm_compute; reflexivity).
  split; reflexivity.
Defined.

(** C1, as stated, fails: on content without any declared keyword neither
    classifier returns product/weekly, the keyword list 会议 or confidence 0. *)
Lemma fallback_claim_counterexample :
  let content := js "hello team" in
  unmatched SceneDetector.SCENE_KEYWORDS content /\
  unmatched Engine.SCENE_KEYWORDS content /\
  (let r := SceneDetector.detectScene content in
   scene r <> js "product/weekly" /\ keywords r <> [js "会议"] /\
   ~ (confidence r == 0)%Q) /\
  (let r := Engine.detect content in
   scene r <> js "product/weekly" /\ keywords r <> [js "会议"] /\
   ~ (confidence r == 0)%Q).
Proof.
  cbv zeta.
  split; [apply unmatchedb_sound; vm_compute; reflexivity|].
  split; [apply unmatchedb_sound; vm_compute; reflexivity|].
  split; (split; [vm_compute; discriminate|]);
    (split; [vm_compute; discriminate|]); vm_compute; discriminate.
Qed.

(** *** The override of step 4 *)

(** C2: for every input the computed confidence is at least 0.3: exactly 0.3
    when the maximal score is 0 and at least 1/3 otherwise.  The test
    [confidence < 0.3] therefore fails, and neither classifier returns the
    synthetic keyword list 会议. *)
Theorem override_unreachable (content : jsstring) :
  (forall m, (3 # 10 <= confidenceOf m)%Q /\ Qltb (confidenceOf m) (3 # 10) = false
             /\ ((m = 0 /\ confidenceOf m = (3 # 10)%Q) \/
                 (0 < m /\ (1 # 3 <= confidenceOf m)%Q))) /\
  notOverridden (SceneDetector.detectScene content) /\
  notOverridden (Engine.detect content).
Proof.
  split; [|split].
  - intros m. split; [apply confidenceOf_ge|]. split; [apply override_dead|].
    apply confidence_cases.
  - unfold notOverridden. split; [|split].
    + unfold SceneDetector.detectScene.
      destruct (@classify_gt_shape _ content detectScene_keys) as (m & s & ks & _ & -> & ->).
      reflexivity.
    + unfold SceneDetector.detectScene.
      destruct (@classify_gt_shape _ content detectScene_keys) as (m & s & ks & _ & _ & ->).
      apply override_dead.
    + apply classify_keywords_not_synthetic;
        [exact detectScene_keys | exact meeting_not_declared_cli].
  - unfold notOverridden. split; [|split].
    + unfold Engine.detect.
      destruct (@classify_ge_shape _ content detect_keys) as (m & s & ks & _ & -> & ->).
      reflexivity.
    + unfold Engine.detect.
      destruct (@classify_ge_shape _ content detect_keys) as (m & s & ks & _ & _ & ->).
      apply override_dead.
    + apply classify_keywords_not_synthetic;
        [exact detect_keys | exact meeting_not_declared_engine].
Qed.

(** *** Tie-breaking *)

Lemma scoresOf_nonempty T content : T <> [] -> scoresOf T content <> [].
Proof.
  intros H E. apply map_eq_nil in E. contradiction.
Qed.

(** C3, as amended: when some keyword matches, [detectScene] (strict [>])
    returns the first scene attaining the maximal score, and when none does
    it keeps its initial scene other/finance; [detect] ([>=]) returns the
    last scene attaining the maximal score.  On the content 合同 both compute
    the same scores and return different scenes. *)
Theorem tie_breaking :
  (forall content,
      let r := SceneDetector.detectScene content in
      (0 < maxScoreOf (allScores r) /\ firstAttaining (allScores r) = Some (scene r)) \/
      (maxScoreOf (allScores r) = 0 /\ scene r = js "other/finance")) /\
  (forall content,
      let r := Engine.detect content in
      lastAttaining (allScores r) = Some (scene r)) /\
  (exists content,
      allScores (SceneDetector.detectScene content) = allScores (Engine.detect content) /\
      scene (SceneDetector.detectScene content) = js "sales/negotiation" /\
      scene (Engine.detect content) = js "other/legal" /\
      scene (SceneDetector.detectScene content) <> scene (Engine.detect content)).
Proof.
  split; [|split].
  - intros content. cbv zeta. unfold SceneDetector.detectScene.
    destruct (@classify_gt_shape _ content detectScene_keys) as (m & s & ks & E & Hm & ->).
    cbn [allScores scene]. rewrite <- Hm.
    apply selectBest_gt_cases in E
      as [[Hall Heq] | (l1 & e & l2 & Hsc & -> & -> & -> & Hpos & H1 & H2)].
    + right. injection Heq as -> -> _. auto.
    + left. split; [assumption|]. rewrite Hsc. now apply firstAttaining_split.
  - intros content. cbv zeta. unfold Engine.detect.
    destruct (@classify_ge_shape _ content detect_keys) as (m & s & ks & E & Hm & ->).
    cbn [allScores scene].
    apply selectBest_ge_cases in E
      as [[Hall Heq] | (l1 & e & l2 & Hsc & -> & -> & -> & Hpos & H1 & H2)].
    + exfalso.
      destruct (scoresOf Engine.SCENE_KEYWORDS content) as [|e l] eqn:Hsc.
      * revert Hsc. apply scoresOf_nonempty. discriminate.
      * inversion Hall; lia.
    + rewrite Hsc. now apply lastAttaining_split.
  - exists (js "合同"). vm_compute. repeat split; discriminate.
Qed.

(** C3, as stated, fails for [detectScene] on the empty content: every scene
    scores 0, the first scene attaining that maximum is product/weekly, and
    the scene returned is other/finance. *)
Lemma first_maximal_counterexample :
  let r := SceneDetector.detectScene (js "") in
  maxScoreOf (allScores r) = 0 /\
  firstAttaining (allScores r) = Some (js "product/weekly") /\
  scene r = js "other/finance" /\
  firstAttaining (allScores r) <> Some (scene r).
Proof. vm_compute. repeat split; discriminate. Qed.

(** *** Bounds *)

(** C4: for every content the confidence lies in [0, 1] and at most 5
    keywords are returned. *)
Theorem detection_result_bounds (content : jsstring) :
  (let r := SceneDetector.detectScene content in
   (0 <= confidence r)%Q /\ (confidence r <= 1)%Q /\ List.length (keywords r) <= 5) /\
  (let r := Engine.detect content in
   (0 <= confidence r)%Q /\ (confidence r <= 1)%Q /\ List.length (keywords r) <= 5).
Proof.
  split; cbv zeta.
  - unfold SceneDetector.detectScene.
    destruct (@classify_gt_shape _ content detectScene_keys) as (m & s & ks & _ & _ & ->).
    cbn [confidence keywords]. destruct (confidenceOf_range m). repeat split; auto.
    apply firstn_le_length.
  - unfold Engine.detect.
    destruct (@classify_ge_shape _ content detect_keys) as (m & s & ks & _ & _ & ->).
    cbn [confidence keywords]. destruct (confidenceOf_range m). repeat split; auto.
    apply firstn_le_length.
Qed.

(** *** One point per keyword *)

Lemma allScores_classify T beats content :
  NoDup (keys T) -> allScores (classify T beats content) = scoresOf T content.
Proof.
  intros Hnd.
  destruct (selectBest beats (scoresOf T content) (foundOf T content))
    as [[m s] ks] eqn:E.
  now rewrite classify_eq with (m := m) (s := s) (ks := ks).
Qed.

Lemma get_scoresOf T content scene kws :
  NoDup (keys T) -> In (scene, kws) T ->
  get (scoresOf T content) scene = Some (scoreOf content kws).
Proof.
  induction T as [|[scene' kws'] T IH]; simpl; intros Hnd Hin; [contradiction|].
  inversion Hnd as [|? ? Hfresh Hnd']; subst.
  destruct Hin as [[= -> ->] | Hin].
  - now rewrite eqb_refl.
  - destruct (eqb scene' scene) eqn:E.
    + apply eqb_eq in E. subst scene'. exfalso. apply Hfresh.
      change scene with (fst (scene, kws)). now apply in_map.
    + now apply IH.
Qed.

Lemma scoreOf_same kws c c' :
  sameMatches kws c c' -> scoreOf c' kws = scoreOf c kws.
Proof.
  intros H. unfold scoreOf, hits. f_equal. apply filter_ext_in. exact H.
Qed.

Lemma scoreOf_mono kws c c' :
  (forall k, In k kws -> includes c k = true -> includes c' k = true) ->
  scoreOf c kws <= scoreOf c' kws.
Proof.
  induction kws as [|k kws IH]; intros H; [apply Nat.le_refl|].
  rewrite !scoreOf_cons.
  assert (Hk := H k (or_introl eq_refl)).
  assert (IH' : scoreOf c kws <= scoreOf c' kws).
  { apply IH. intros k' Hk'. apply H. now right. }
  destruct (includes c k); [rewrite Hk by reflexivity; lia|].
  destruct (includes c' k); lia.
Qed.

Lemma scoreOf_extend kws pre c post :
  scoreOf c kws <= scoreOf (pre ++ c ++ post) kws.
Proof.
  apply scoreOf_mono. intros k _. apply includes_extend.
Qed.

Lemma table_keywords_nodup (T : obj (list jsstring)) :
  forallb (fun e => nodupb (snd e)) T = true ->
  forall scene kws, In (scene, kws) T -> NoDup kws.
Proof.
  intros H scene kws Hin. rewrite forallb_forall in H.
  apply nodupb_sound. exact (H _ Hin).
Qed.

Lemma classify_counts_keywords T beats scene kws :
  NoDup (keys T) -> In (scene, kws) T ->
  (forall content,
      get (allScores (classify T beats content)) scene = Some (scoreOf content kws) /\
      scoreOf content kws <= List.length kws) /\
  (forall pre post kw,
      In kw kws -> includes (pre ++ post) kw = true ->
      includes (pre ++ kw ++ post) kw = true /\
      (sameMatches kws (pre ++ post) (pre ++ kw ++ post) ->
       get (allScores (classify T beats (pre ++ kw ++ post))) scene =
       get (allScores (classify T beats (pre ++ post))) scene)) /\
  (forall content kw,
      In kw kws -> includes content kw = true ->
      scoreOf content kws <= scoreOf (content ++ kw) kws /\
      scoreOf content kws <= scoreOf (kw ++ content) kws).
Proof.
  intros Hnd Hin. split; [|split].
  - intros content. rewrite allScores_classify by assumption.
    split; [now apply get_scoresOf | apply scoreOf_le].
  - intros pre post kw Hkw Hinc. split.
    + apply includes_extend with (s := kw). apply includes_self.
    + intros Hsame. rewrite !allScores_classify by assumption.
      rewrite !get_scoresOf with (kws := kws) by assumption.
      f_equal. now apply scoreOf_same.
  - intros content kw _ _. split.
    + apply (scoreOf_extend kws [] content kw).
    + generalize (scoreOf_extend kws kw content []). now rewrite app_nil_r.
Qed.

(** C5, as amended: a scene's score is the number of keywords of its list
    that occur at least once in the content, each listed once.  Inserting
    another occurrence of an already-matched keyword keeps that keyword
    matched and leaves the scene's score unchanged whenever the insertion
    does not change which keywords of the scene occur; adding it at the end
    or at the start never lowers the score. *)
Theorem keyword_counted_once (scene : jsstring) (kws : list jsstring) :
  (In (scene, kws) SceneDetector.SCENE_KEYWORDS ->
   NoDup kws /\
   (forall content,
       get (allScores (SceneDetector.detectScene content)) scene
       = Some (scoreOf content kws) /\
       scoreOf content kws <= List.length kws) /\
   (forall pre post kw,
       In kw kws -> includes (pre ++ post) kw = true ->
       includes (pre ++ kw ++ post) kw = true /\
       (sameMatches kws (pre ++ post) (pre ++ kw ++ post) ->
        get (allScores (SceneDetector.detectScene (pre ++ kw ++ post))) scene =
        get (allScores (SceneDetector.detectScene (pre ++ post))) scene)) /\
   (forall content kw,
       In kw kws -> includes content kw = true ->
       scoreOf content kws <= scoreOf (content ++ kw) kws /\
       scoreOf content kws <= scoreOf (kw ++ content) kws))
  /\
  (In (scene, kws) Engine.SCENE_KEYWORDS ->
   NoDup kws /\
   (forall content,
       get (allScores (Engine.detect content)) scene = Some (scoreOf content kws) /\
       scoreOf content kws <= List.length kws) /\
   (forall pre post kw,
       In kw kws -> includes (pre ++ post) kw = true ->
       includes (pre ++ kw ++ post) kw = true /\
       (sameMatches kws (pre ++ post) (pre ++ kw ++ post) ->
        get (allScores (Engine.detect (pre ++ kw ++ post))) scene =
        get (allScores (Engine.detect (pre ++ post))) scene)) /\
   (forall content kw,
       In kw kws -> includes content kw = true ->
       scoreOf content kws <= scoreOf (content ++ kw) kws /\
       scoreOf content kws <= scoreOf (kw ++ content) kws)).
Proof.
  split; intros Hin; (split; [eapply table_keywords_nodup; [|exact Hin]; vm_compute; reflexivity|]).
  - exact (@classify_counts_keywords _ scoreGt _ _ detectScene_keys Hin).
  - exact (@classify_counts_keywords _ scoreGe _ _ detect_keys Hin).
Qed.

Lemma keyword_counted_once_witness :
  let kws := foundAt SceneDetector.SCENE_KEYWORDS (js "product/weekly") in
  get (allScores (SceneDetector.detectScene (js "本周本周"))) (js "product/weekly") =
  get (allScores (SceneDetector.detectScene (js "本周"))) (js "product/weekly").
Proof.
  cbv zeta.
  destruct (keyword_counted_once (js "product/weekly")
              (foundAt SceneDetector.SCENE_KEYWORDS (js "product/weekly")))
    as [H _].
  destruct H as (_ & _ & H & _); [vm_compute; left; reflexivity|].
  destruct (H (js "") (js "本周") (js "本周")) as [_ Hsame].
  - vm_compute. right; right; left; reflexivity.
  - vm_compute. reflexivity.
  - apply Hsame. intros k Hk. vm_compute in Hk.
    repeat (destruct Hk as [<- | Hk]; [vm_compute; reflexivity|]).
    contradiction.
Defined.

(** C5, as stated, fails: 评审 is matched in the content 评审 需求, and adding
    one more occurrence of it at the end completes the keyword 需求评审 of the
    same scene, so the score of product/review goes from 1 to 2. *)
Lemma repeated_keyword_counterexample :
  let content := js "评审 需求" in
  let kw := js "评审" in
  let scene := js "product/review" in
  In kw (foundAt SceneDetector.SCENE_KEYWORDS scene) /\
  In kw (foundAt Engine.SCENE_KEYWORDS scene) /\
  includes content kw = true /\
  get (allScores (SceneDetector.detectScene content)) scene = Some 1 /\
  get (allScores (SceneDetector.detectScene (content ++ kw))) scene = Some 2 /\
  get (allScores (Engine.detect content)) scene = Some 1 /\
  get (allScores (Engine.detect (content ++ kw))) scene = Some 2.
Proof.
  cbv zeta.
  split; [vm_compute; right; right; left; reflexivity|].
  split; [vm_compute; right; right; left; reflexivity|].
  vm_compute. repeat split; reflexivity.
Qed.

(** *** A worked classification *)

(** C6: on the content 产品周会 本周 需求 排期 both classifiers return the scene
    product/weekly with confidence min(4/3, 1) = 1, the four keywords
    产品周会, 本周, 需求, 排期 in the order of the scene's list, and the score 4
    for product/weekly. *)
Theorem weekly_meeting_scenario :
  let content := js "产品周会 本周 需求 排期" in
  let weekly := js "product/weekly" in
  (let r := SceneDetector.detectScene content in
   scene r = weekly /\
   confidence r = Qmin (4 # 3) 1 /\ confidence r = 1%Q /\
   keywords r = map js ["产品周会"; "本周"; "需求"; "排期"] /\
   List.length (keywords r) = 4 /\
   subseq (keywords r) (foundAt SceneDetector.SCENE_KEYWORDS weekly) = true /\
   get (allScores r) weekly = Some 4) /\
  (let r := Engine.detect content in
   scene r = weekly /\
   confidence r = Qmin (4 # 3) 1 /\ confidence r = 1%Q /\
   keywords r = map js ["产品周会"; "本周"; "需求"; "排期"] /\
   List.length (keywords r) = 4 /\
   subseq (keywords r) (foundAt Engine.SCENE_KEYWORDS weekly) = true /\
   get (allScores r) weekly = Some 4).
Proof. vm_compute. repeat split; reflexivity. Qed.

(* ================================================================== *)
(** ** Prompt version store *)
(* ================================================================== *)

Import JsArray Storage.

Lemma of_nat_inj n m : JsString.of_nat n = JsString.of_nat m -> n = m.
Proof.
  unfold JsString.of_nat. intros H.
  apply DecimalNat.Unsigned.to_uint_inj.
  assert (Hs : NilEmpty.string_of_uint (Nat.to_uint n)
               = NilEmpty.string_of_uint (Nat.to_uint m)).
  { rewrite <- (string_of_list_ascii_of_string (NilEmpty.string_of_uint (Nat.to_uint n))).
    rewrite <- (string_of_list_ascii_of_string (NilEmpty.string_of_uint (Nat.to_uint m))).
    f_equal.
    assert (Hm : forall l l', map N_of_ascii l = map N_of_ascii l' -> l = l').
    { induction l as [|a l IH]; intros [|a' l']; simpl; try discriminate; auto.
      intros [= Ha Hl]. f_equal; auto.
      rewrite <- (ascii_N_embedding a), <- (ascii_N_embedding a'). now rewrite Ha. }
    now apply Hm. }
  assert (Hu : Some (Nat.to_uint n) = Some (Nat.to_uint m)).
  { rewrite <- !NilEmpty.usu. now rewrite Hs. }
  now injection Hu.
Qed.

Lemma versionFile_inj n m : versionFile n = versionFile m -> n = m.
Proof.
  unfold versionFile. intros H. apply app_inv_head in H.
  apply app_inv_tail in H. now apply of_nat_inj.
Qed.

Lemma versionFile_isVersionFile n : isVersionFile (versionFile n) = true.
Proof.
  unfold isVersionFile, versionFile. apply andb_true_iff. split.
  - apply startsWith_app.
  - rewrite app_assoc. apply endsWith_app.
Qed.

Lemma insert_length (A : Type) (le : A -> A -> bool) x l :
  List.length (insert le x l) = S (List.length l).
Proof.
  induction l as [|y l IH]; simpl; [reflexivity|].
  destruct (le x y); simpl; auto.
Qed.

Lemma sortBy_length (A : Type) (le : A -> A -> bool) l :
  List.length (sortBy le l) = List.length l.
Proof.
  induction l as [|x l IH]; simpl; [reflexivity|].
  now rewrite insert_length, IH.
Qed.

Lemma filter_keys_length (V : Type) (p : jsstring -> bool) (d : obj V) :
  List.length (filter (fun e => p (fst e)) d) = List.length (filter p (keys d)).
Proof.
  induction d as [|[k v] d IH]; simpl; [reflexivity|].
  destruct (p k); simpl; auto.
Qed.

(** [listPromptVersions] returns one entry per version file. *)
Lemma listPromptVersions_length lc fs scene :
  List.length (listPromptVersions lc fs scene) = List.length (versionFiles fs scene).
Proof.
  unfold listPromptVersions, versionFiles.
  destruct (get (prompts fs) scene) as [dir|]; [|reflexivity].
  now rewrite sortBy_length, length_map, filter_keys_length.
Qed.

(** The collation only orders the list, and [savePromptVersion] only counts it. *)
Lemma savePromptVersion_collation lc lc' iso fs scene text note now :
  savePromptVersion lc iso fs scene text note now =
  savePromptVersion lc' iso fs scene text note now.
Proof.
  unfold savePromptVersion.
  now rewrite (listPromptVersions_length lc), (listPromptVersions_length lc').
Qed.

Lemma saveAll_cons lc iso fs scene text note now rest :
  saveAll lc iso fs scene ((text, note, now) :: rest) =
  let (fs1, outcome) := savePromptVersion lc iso fs scene text note now in
  let (fs2, rs) := saveAll lc iso fs1 scene rest in
  (fs2, match outcome with
        | Returned r => r :: rs
        | ThrewTypeError => rs
        end).
Proof. reflexivity. Qed.

Lemma saveAll_collation lc lc' iso scene saves : forall fs,
  saveAll lc iso fs scene saves = saveAll lc' iso fs scene saves.
Proof.
  induction saves as [|[[text note] now] saves IH]; intros fs; [reflexivity|].
  rewrite !saveAll_cons.
  rewrite (savePromptVersion_collation lc lc').
  destruct (savePromptVersion lc' iso fs scene text note now) as [fs1 r].
  now rewrite IH.
Qed.

Lemma versionFiles_ensureDir fs scene :
  versionFiles (ensureDir fs scene) scene = versionFiles fs scene.
Proof.
  unfold ensureDir, versionFiles.
  destruct (get (prompts fs) scene) as [d|] eqn:E; simpl.
  - now rewrite E.
  - now rewrite get_set_same.
Qed.

Lemma readFile_ensureDir fs scene f :
  readFile (ensureDir fs scene) (scene, f) = readFile fs (scene, f).
Proof.
  unfold ensureDir, readFile. simpl.
  destruct (get (prompts fs) scene) as [d|] eqn:E; simpl.
  - now rewrite E.
  - now rewrite get_set_same.
Qed.

Lemma hasDefault_ensureDir fs scene :
  hasDefault (ensureDir fs scene) scene = hasDefault fs scene.
Proof.
  unfold ensureDir, hasDefault.
  destruct (get (prompts fs) scene) as [d|] eqn:E; simpl.
  - now rewrite E.
  - now rewrite get_set_same.
Qed.

Lemma ensureDir_exists fs scene :
  exists d, get (prompts (ensureDir fs scene)) scene = Some d.
Proof.
  unfold ensureDir. destruct (get (prompts fs) scene) as [d|] eqn:E; simpl.
  - eauto.
  - rewrite get_set_same. eauto.
Qed.

Lemma indexFile_ensureDir fs scene : indexFile (ensureDir fs scene) = indexFile fs.
Proof. unfold ensureDir. now destruct (get (prompts fs) scene). Qed.

(** Writing a version file that is not listed yet adds it at the end of the
    listing. *)
Lemma versionFiles_writeFile fs scene n text now k :
  (exists d, get (prompts fs) scene = Some d) ->
  versionFiles fs scene = map versionFile (seq 1 k) ->
  k < n ->
  versionFiles (writeFile fs scene (versionFile n) text now) scene =
  map versionFile (seq 1 k) ++ [versionFile n].
Proof.
  intros [d Hd] Hfiles Hn. unfold versionFiles in *. unfold writeFile. simpl.
  rewrite get_modify_same, Hd in *. simpl.
  assert (Hfresh : ~ In (versionFile n) (keys d)).
  { intros Hin.
    assert (Hv : In (versionFile n) (filter isVersionFile (keys d))).
    { apply filter_In. split; [assumption | apply versionFile_isVersionFile]. }
    rewrite Hfiles in Hv. apply in_map_iff in Hv as (j & Hj & Hseq).
    apply versionFile_inj in Hj. apply in_seq in Hseq. lia. }
  rewrite set_fresh by assumption.
  rewrite keys_app, filter_app, Hfiles. simpl.
  now rewrite versionFile_isVersionFile.
Qed.

Lemma readFile_writeFile_same fs scene f text now :
  (exists d, get (prompts fs) scene = Some d) ->
  readFile (writeFile fs scene f text now) (scene, f) = Some text.
Proof.
  intros [d Hd]. unfold readFile, writeFile. simpl.
  now rewrite get_modify_same, Hd; simpl; rewrite get_set_same.
Qed.

Lemma readFile_writeFile_other fs scene f f' text now :
  f' <> f ->
  readFile (writeFile fs scene f text now) (scene, f') = readFile fs (scene, f').
Proof.
  intros Hf. unfold readFile, writeFile. simpl. rewrite get_modify_same.
  destruct (get (prompts fs) scene) as [d|]; simpl; [|reflexivity].
  now rewrite get_set_other.
Qed.

Lemma hasDefault_writeFile fs scene n text now :
  hasDefault (writeFile fs scene (versionFile n) text now) scene = hasDefault fs scene.
Proof.
  unfold hasDefault, writeFile, existsFile. simpl. rewrite get_modify_same.
  destruct (get (prompts fs) scene) as [d|]; simpl; [|reflexivity].
  rewrite get_set_other; [reflexivity|].
  intros H. assert (Hv := versionFile_isVersionFile n). rewrite <- H in Hv.
  vm_compute in Hv. discriminate.
Qed.

(** What [updatePromptIndex] looks up in the index. *)
Lemma lookup_scene fs scene :
  lookup (scenes match indexFile fs with
                 | Some i => i
                 | None => {| scenes := [] |}
                 end) scene =
  match sceneRecord fs scene with
  | Some r => Some (Own r)
  | None => if inherited scene then Some Inherited else None
  end.
Proof.
  unfold lookup, sceneRecord. destruct (indexFile fs) as [i|]; reflexivity.
Qed.

(** [updatePromptIndex] only rewrites the index file. *)
Lemma updatePromptIndex_prompts iso fs scene n note now fs1 :
  updatePromptIndex iso fs scene n note now = Some fs1 -> prompts fs1 = prompts fs.
Proof.
  unfold updatePromptIndex. rewrite lookup_scene.
  destruct (sceneRecord fs scene) as [r|]; [|destruct (inherited scene)];
    try discriminate; intros [= <-]; reflexivity.
Qed.

(** The index after [updatePromptIndex], when the scene can be indexed. *)
Lemma updatePromptIndex_updatable iso fs scene n note now :
  updatable fs scene = true ->
  exists fs1,
    updatePromptIndex iso fs scene n note now = Some fs1 /\
    sceneRecord fs1 scene =
      Some {| versions := indexedVersions fs scene ++
                            [{| id := versionId n; created_at := iso now; note := note |}];
              current_version := Some (versionId n) |} /\
    (forall scene', scene' <> scene -> sceneRecord fs1 scene' = sceneRecord fs scene').
Proof.
  unfold updatable, updatePromptIndex, indexedVersions. rewrite lookup_scene.
  unfold sceneRecord.
  destruct (indexFile fs) as [i|]; cbn [scenes].
  - destruct (get (scenes i) scene) as [r|] eqn:E.
    + intros _. eexists. split; [reflexivity|]. cbn [indexFile scenes]. split.
      * now rewrite get_modify_same, E.
      * intros scene' Hs. now rewrite get_modify_other.
    + destruct (inherited scene); [discriminate|]. intros _.
      eexists. split; [reflexivity|]. cbn [indexFile scenes]. split.
      * now rewrite get_modify_same, get_set_same.
      * intros scene' Hs. rewrite get_modify_other by assumption.
        now rewrite get_set_other.
  - cbn [get]. destruct (inherited scene); [discriminate|]. intros _.
    eexists. split; [reflexivity|]. cbn [indexFile scenes]. split.
    + now rewrite get_modify_same, get_set_same.
    + intros scene' Hs. rewrite get_modify_other by assumption.
      now rewrite get_set_other.
Qed.

(** [updatePromptIndex] throws when the scene name is an inherited property
    name without a record of its own. *)
Lemma updatePromptIndex_throws iso fs scene n note now :
  updatable fs scene = false -> updatePromptIndex iso fs scene n note now = None.
Proof.
  unfold updatable, updatePromptIndex. rewrite lookup_scene.
  destruct (sceneRecord fs scene) as [r|]; [discriminate|].
  destruct (inherited scene); [reflexivity | discriminate].
Qed.

Lemma versionFiles_prompts fs1 fs2 scene :
  prompts fs1 = prompts fs2 -> versionFiles fs1 scene = versionFiles fs2 scene.
Proof. unfold versionFiles. now intros ->. Qed.

Lemma readFile_prompts fs1 fs2 p :
  prompts fs1 = prompts fs2 -> readFile fs1 p = readFile fs2 p.
Proof. unfold readFile. now intros ->. Qed.

Lemma hasDefault_prompts fs1 fs2 scene :
  prompts fs1 = prompts fs2 -> hasDefault fs1 scene = hasDefault fs2 scene.
Proof. unfold hasDefault. now intros ->. Qed.

Lemma updatable_written fs scene scene' f text now :
  updatable (writeFile (ensureDir fs scene) scene f text now) scene' = updatable fs scene'.
Proof.
  unfold updatable, sceneRecord, writeFile. cbn [indexFile].
  now rewrite indexFile_ensureDir.
Qed.

Lemma sceneRecord_written fs scene scene' f text now :
  sceneRecord (writeFile (ensureDir fs scene) scene f text now) scene' = sceneRecord fs scene'.
Proof.
  unfold sceneRecord, writeFile. cbn [indexFile]. now rewrite indexFile_ensureDir.
Qed.

(** One call of [savePromptVersion], in a directory with [n - 1] version
    files: the file [v<n>.md] is written in any case; the index takes the
    entry and the call returns when the scene can be indexed, and otherwise
    the call throws and the index is as before. *)
Lemma savePromptVersion_step lc iso fs scene text note now :
  let n := List.length (versionFiles fs scene) + 1 in
  let written := writeFile (ensureDir fs scene) scene (versionFile n) text now in
  let fs' := fst (savePromptVersion lc iso fs scene text note now) in
  let outcome := snd (savePromptVersion lc iso fs scene text note now) in
  prompts fs' = prompts written /\
  (updatable fs scene = true ->
   outcome = Returned {| savedVersion := n; filepath := (scene, versionFile n) |} /\
   sceneRecord fs' scene =
     Some {| versions := indexedVersions fs scene ++
                           [{| id := versionId n; created_at := iso now; note := note |}];
             current_version := Some (versionId n) |} /\
   (forall scene', scene' <> scene -> sceneRecord fs' scene' = sceneRecord fs scene')) /\
  (updatable fs scene = false ->
   outcome = ThrewTypeError /\ indexFile fs' = indexFile fs).
Proof.
  intros n written fs' outcome. subst fs' outcome.
  unfold savePromptVersion.
  rewrite listPromptVersions_length, versionFiles_ensureDir.
  fold n. change (js "v" ++ JsString.of_nat n ++ js ".md") with (versionFile n).
  fold written.
  split; [|split].
  - destruct (updatePromptIndex iso written scene n note now) as [fs1|] eqn:E;
      [apply (@updatePromptIndex_prompts _ _ _ _ _ _ _ E) | reflexivity].
  - intros Hu.
    destruct (@updatePromptIndex_updatable iso written scene n note now)
      as (fs1 & E & Hrec & Hother).
    { subst written. now rewrite updatable_written. }
    rewrite E. cbn [fst snd]. split; [reflexivity|]. split.
    + rewrite Hrec. unfold indexedVersions. subst written.
      now rewrite sceneRecord_written.
    + intros scene' Hs. rewrite (Hother scene' Hs). subst written.
      apply sceneRecord_written.
  - intros Hu.
    rewrite (@updatePromptIndex_throws iso written scene n note now)
      by (subst written; now rewrite updatable_written).
    cbn [fst snd]. split; [reflexivity|]. subst written.
    unfold writeFile. cbn [indexFile]. apply indexFile_ensureDir.
Qed.

Section SaveStep.
Variable localeCompare : jsstring -> jsstring -> comparison.
Variable toISOString : N -> jsstring.
Variables (fs : FS) (scene text remark : jsstring) (now : N) (k : nat).
Hypothesis Hfiles : versionFiles fs scene = map versionFile (seq 1 k).

Let fs' := fst (savePromptVersion localeCompare toISOString fs scene text remark now).

Lemma save_prompts :
  prompts fs' =
  prompts (writeFile (ensureDir fs scene) scene (versionFile (k + 1)) text now).
Proof.
  unfold fs'.
  destruct (@savePromptVersion_step localeCompare toISOString fs scene text remark now)
    as (H & _).
  rewrite H, Hfiles, length_map, length_seq. reflexivity.
Qed.

Lemma save_versionFiles : versionFiles fs' scene = map versionFile (seq 1 (k + 1)).
Proof.
  rewrite (@versionFiles_prompts _ _ scene save_prompts).
  rewrite versionFiles_writeFile with (k := k).
  - now rewrite Nat.add_1_r, seq_S, map_app.
  - apply ensureDir_exists.
  - now rewrite versionFiles_ensureDir.
  - lia.
Qed.

Lemma save_readFile_new : readFile fs' (scene, versionFile (k + 1)) = Some text.
Proof.
  rewrite (@readFile_prompts _ _ _ save_prompts).
  apply readFile_writeFile_same, ensureDir_exists.
Qed.

Lemma save_readFile_old f :
  f <> versionFile (k + 1) -> readFile fs' (scene, f) = readFile fs (scene, f).
Proof.
  intros Hf. rewrite (@readFile_prompts _ _ _ save_prompts).
  rewrite readFile_writeFile_other by assumption. apply readFile_ensureDir.
Qed.

Lemma save_hasDefault : hasDefault fs' scene = hasDefault fs scene.
Proof.
  rewrite (@hasDefault_prompts _ _ scene save_prompts).
  rewrite hasDefault_writeFile. apply hasDefault_ensureDir.
Qed.

Lemma save_returns :
  updatable fs scene = true ->
  snd (savePromptVersion localeCompare toISOString fs scene text remark now) =
    Returned {| savedVersion := k + 1; filepath := (scene, versionFile (k + 1)) |} /\
  sceneRecord fs' scene =
    Some {| versions := indexedVersions fs scene ++
                          [{| id := versionId (k + 1); created_at := toISOString now;
                              note := remark |}];
            current_version := Some (versionId (k + 1)) |}.
Proof.
  intros Hu. unfold fs'.
  destruct (@savePromptVersion_step localeCompare toISOString fs scene text remark now)
    as (_ & H & _).
  destruct (H Hu) as (Ho & Hrec & _).
  rewrite Hfiles, length_map, length_seq in Ho, Hrec. split; assumption.
Qed.

Lemma save_throws :
  updatable fs scene = false ->
  snd (savePromptVersion localeCompare toISOString fs scene text remark now) =
    ThrewTypeError /\
  indexFile fs' = indexFile fs.
Proof.
  intros Hu. unfold fs'.
  destruct (@savePromptVersion_step localeCompare toISOString fs scene text remark now)
    as (_ & _ & H).
  exact (H Hu).
Qed.
End SaveStep.

Lemma updatable_indexFile fs1 fs2 scene :
  indexFile fs1 = indexFile fs2 -> updatable fs1 scene = updatable fs2 scene.
Proof. unfold updatable, sceneRecord. now intros ->. Qed.

Lemma save_step lc iso fs scene text note now k fs1 o :
  versionFiles fs scene = map versionFile (seq 1 k) ->
  savePromptVersion lc iso fs scene text note now = (fs1, o) ->
  versionFiles fs1 scene = map versionFile (seq 1 (k + 1)) /\
  readFile fs1 (scene, versionFile (k + 1)) = Some text /\
  (forall f, f <> versionFile (k + 1) -> readFile fs1 (scene, f) = readFile fs (scene, f)) /\
  hasDefault fs1 scene = hasDefault fs scene /\
  (updatable fs scene = true ->
   o = Returned {| savedVersion := k + 1; filepath := (scene, versionFile (k + 1)) |} /\
   updatable fs1 scene = true /\
   indexedVersions fs1 scene =
     indexedVersions fs scene ++
       [{| id := versionId (k + 1); created_at := iso now; note := note |}] /\
   currentVersion fs1 scene = Some (versionId (k + 1))) /\
  (updatable fs scene = false ->
   o = ThrewTypeError /\ indexFile fs1 = indexFile fs).
Proof.
  intros Hfiles E.
  assert (E1 : fs1 = fst (savePromptVersion lc iso fs scene text note now)) by now rewrite E.
  assert (Er : o = snd (savePromptVersion lc iso fs scene text note now)) by now rewrite E.
  rewrite E1, Er.
  split; [now apply save_versionFiles|].
  split; [now apply save_readFile_new|].
  split; [intros f Hf; now apply save_readFile_old with (k := k)|].
  split; [now apply save_hasDefault with (k := k)|].
  split.
  - intros Hu.
    destruct (@save_returns lc iso fs scene text note now k Hfiles Hu) as (Ho & Hrec).
    split; [exact Ho|].
    unfold updatable, indexedVersions at 1, currentVersion. rewrite Hrec.
    repeat split; reflexivity.
  - intros Hu. now apply save_throws.
Qed.

(** [N] saves on top of the version files [v1.md .. vk.md]. *)
Lemma saveAll_from lc iso scene saves : forall fs k fs' rs,
  versionFiles fs scene = map versionFile (seq 1 k) ->
  saveAll lc iso fs scene saves = (fs', rs) ->
  versionFiles fs' scene = map versionFile (seq 1 (k + List.length saves)) /\
  (forall i text note now,
      nth_error saves i = Some (text, note, now) ->
      readFile fs' (scene, versionFile (k + 1 + i)) = Some text) /\
  (forall f, (forall n, k < n -> f <> versionFile n) ->
             readFile fs' (scene, f) = readFile fs (scene, f)) /\
  hasDefault fs' scene = hasDefault fs scene /\
  (updatable fs scene = true ->
   map savedVersion rs = seq (k + 1) (List.length saves) /\
   map filepath rs =
     map (fun n => (scene, versionFile n)) (seq (k + 1) (List.length saves)) /\
   map Storage.id (indexedVersions fs' scene) =
     map Storage.id (indexedVersions fs scene) ++
       map versionId (seq (k + 1) (List.length saves)) /\
   (saves <> [] -> currentVersion fs' scene = Some (versionId (k + List.length saves)))) /\
  (updatable fs scene = false -> rs = [] /\ indexFile fs' = indexFile fs).
Proof.
  induction saves as [|[[text note] now] saves IH]; intros fs k fs' rs Hfiles E.
  - simpl in E. inversion E; subst fs' rs. simpl. rewrite Nat.add_0_r, app_nil_r.
    repeat split; auto.
    + intros [|i] ? ? ?; discriminate.
    + congruence.
  - rewrite saveAll_cons in E.
    destruct (savePromptVersion lc iso fs scene text note now) as [fs1 o] eqn:E1.
    destruct (saveAll lc iso fs1 scene saves) as [fs2 rs2] eqn:E2.
    injection E as <- <-.
    destruct (@save_step lc iso fs scene text note now k fs1 o Hfiles E1)
      as (Hf1 & Hnew & Hold & Hdef & Hret & Hthrow).
    destruct (IH _ _ _ _ Hf1 E2) as (If & Iread & Ikeep & Idef & Iret & Ithrow).
    cbn [List.length].
    replace (k + S (List.length saves)) with (k + 1 + List.length saves) by lia.
    split; [exact If|].
    split.
    { intros [|i] t n w Hi.
      - cbn [nth_error] in Hi. inversion Hi; subst t n w. rewrite Nat.add_0_r.
        rewrite Ikeep; [exact Hnew|].
        intros n' Hn' Heq. apply versionFile_inj in Heq. lia.
      - cbn [nth_error] in Hi. rewrite <- (Iread i t n w Hi). do 3 f_equal. lia. }
    split.
    { intros f Hf. rewrite Ikeep; [apply Hold|]; intros; apply Hf; lia. }
    split; [now rewrite Idef|].
    split.
    + intros Hu. destruct (Hret Hu) as (Ho & Hu1 & Hidx & Hcur).
      destruct (Iret Hu1) as (Iv & Ip & Iidx & Icur).
      replace (k + 1 + 1) with (S (k + 1)) in Iv, Ip, Iidx by lia.
      rewrite Ho.
      split; [cbn [map seq savedVersion]; rewrite Iv; reflexivity|].
      split; [cbn [map seq filepath]; rewrite Ip; reflexivity|].
      split.
      { rewrite Iidx, Hidx, map_app, <- app_assoc. reflexivity. }
      intros _. destruct saves as [|s0 saves'].
      * cbn [saveAll] in E2. inversion E2; subst fs2 rs2. rewrite Hcur.
        cbn [List.length]. now rewrite Nat.add_0_r.
      * rewrite Icur by discriminate. reflexivity.
    + intros Hu. destruct (Hthrow Hu) as (Ho & Hidx1).
      destruct Ithrow as (Irs & Iidx).
      { rewrite (@updatable_indexFile _ _ scene Hidx1). exact Hu. }
      rewrite Ho, Irs. split; [reflexivity | congruence].
Qed.




(** C8 fails on the code from the tenth version on.  Nine saves leave
    v1.md .. v9.md; the tenth writes v10.md, and [getPromptByScene] without
    version, which takes the last name in code-unit order, still resolves to
    v9.md: the text read back is the ninth, not the one just saved. *)
Theorem tenth_save_not_read_back
        (localeCompare : jsstring -> jsstring -> comparison)
        (toISOString : N -> jsstring) :
  let scene := js "product/weekly" in
  let run := saveAll localeCompare toISOString emptyFS scene tenSaves in
  let fs := fst run in
  hasDefault fs scene = false /\
  last (map filepath (snd run)) (scene, []) = (scene, js "v10.md") /\
  readFile fs (scene, js "v10.md") = Some (js "prompt 10") /\
  getPromptByScene fs scene None = Ok (scene, js "v9.md") /\
  readFile fs (scene, js "v9.md") = Some (js "prompt 9").
Proof.
  cbv zeta. rewrite (saveAll_collation localeCompare (fun _ _ => Eq)).
  vm_compute. repeat split; reflexivity.
Qed.

(** While at most nine versions exist the newest file is the one resolved. *)
Lemma first_nine_saves_read_back
      (localeCompare : jsstring -> jsstring -> comparison)
      (toISOString : N -> jsstring)
      (saves : list (jsstring * jsstring * N)) (text note : jsstring) (now : N) :
  List.length saves < 9 ->
  let scene := js "product/weekly" in
  let fs := fst (saveAll localeCompare toISOString emptyFS scene
                         (saves ++ [(text, note, now)])) in
  getPromptByScene fs scene None = Ok (scene, versionFile (List.length saves + 1)) /\
  readFile fs (scene, versionFile (List.length saves + 1)) = Some text.
Proof.
  intros Hlen. cbv zeta. rewrite (saveAll_collation localeCompare (fun _ _ => Eq)).
  do 9 (destruct saves as [|[[? ?] ?] saves];
        [vm_compute; split; reflexivity|]).
  simpl in Hlen. lia.
Qed.

(* ================================================================== *)
(** ** LLM gateway *)
(* ================================================================== *)

(** C9: whatever the environment and the network, generating with the
    unregistered model key gpt-9 fails in [getModelConfig] with the message
    that lists the supported keys qwen-max, deepseek-v3, doubao, and no HTTP
    request has been issued. *)
Theorem unknown_model_rejected
        (env : jsstring -> option jsstring) (fetch : Llm.Request -> Llm.Fetched)
        (data prompt : jsstring) :
  let supported := join (js ", ") (keys Llm.MODELS) in
  supported = js "qwen-max, deepseek-v3, doubao" /\
  keys EngineLlm.MODELS = keys Llm.MODELS /\
  (let msg := js "不支持的模型: gpt-9. 支持的模型: qwen-max, deepseek-v3, doubao" in
   Llm.getModelConfig (js "gpt-9") = Llm.Raise (Llm.Error msg) /\
   Llm.generateSummary env fetch data prompt (js "gpt-9") = ([], Llm.Raise (Llm.Error msg)) /\
   includes msg supported = true) /\
  (let msg := js "Unsupported model: gpt-9. Supported: qwen-max, deepseek-v3, doubao" in
   EngineLlm.getModelConfig (js "gpt-9") = Llm.Raise (Llm.Error msg) /\
   EngineLlm.generate env fetch data prompt (Some (js "gpt-9"))
     = ([], Llm.Raise (Llm.Error msg)) /\
   includes msg supported = true).
Proof. vm_compute. repeat split; reflexivity. Qed.

(* ================================================================== *)
(** ** Log statistics *)
(* ================================================================== *)

Lemma filter_none (A : Type) (p : A -> bool) (l : list A) :
  Forall (fun x => p x = false) l -> filter p l = [].
Proof.
  induction 1 as [|x l Hx _ IH]; simpl; [reflexivity|]. now rewrite Hx.
Qed.

Lemma sliceFrom_nil (A : Type) start : sliceFrom start (@nil A) = [].
Proof. unfold sliceFrom. apply skipn_nil. Qed.

(** C10: when the commands directory does not exist, or holds no file whose
    name ends in .jsonl, [getStats] returns the four counters at 0, for every
    command filter and every [days]. *)
Theorem getStats_without_logs
        (parse : jsstring -> option Logs.LogEntry)
        (commandsDir : option (obj jsstring))
        (commandFilter : option jsstring) (days : Z) :
  (commandsDir = None \/
   exists dir, commandsDir = Some dir /\
               Forall (fun f => endsWith f (js ".jsonl") = false) (keys dir)) ->
  Logs.getStats parse commandsDir commandFilter days =
  {| Logs.totalCommands := 0; Logs.successCount := 0;
     Logs.errorCount := 0; Logs.avgDuration := 0 |}.
Proof.
  intros [-> | (dir & -> & Hnone)]; [reflexivity|].
  unfold Logs.getStats. rewrite filter_none.
  - rewrite sliceFrom_nil. reflexivity.
  - unfold keys in Hnone. rewrite Forall_map in Hnone. exact Hnone.
Qed.

Lemma getStats_without_logs_witness :
  Logs.getStats (fun _ => None) (Some [(js "README.md", js "logs")]) (Some (js "detect")) 7 =
  {| Logs.totalCommands := 0; Logs.successCount := 0;
     Logs.errorCount := 0; Logs.avgDuration := 0 |}.
Proof.
  apply getStats_without_logs. right. eexists. split; [reflexivity|].
  repeat constructor.
Defined.

(* ================================================================== *)
(** * Further properties of the classifier *)
(* ================================================================== *)

Unset Implicit Arguments.
Import ClassifierNotions.

Lemma get_map_snd (A B : Type) (h : A -> B) (T : obj A) k :
  get (map (fun e => (fst e, h (snd e))) T) k = option_map h (get T k).
Proof.
  induction T as [|[k' v] T IH]; simpl; [reflexivity|].
  now destruct (eqb k' k).
Qed.

Lemma keys_scoresOf T content : keys (scoresOf T content) = keys T.
Proof. unfold scoresOf, keys. rewrite map_map. reflexivity. Qed.

Lemma get_scoresOf_eq T content scene :
  get (scoresOf T content) scene = option_map (scoreOf content) (get T scene).
Proof. apply (get_map_snd _ _ (scoreOf content)). Qed.

Lemma foundAt_foundOf_eq T content scene :
  foundAt (foundOf T content) scene = hits content (foundAt T scene).
Proof.
  unfold foundAt, foundOf. rewrite (get_map_snd _ _ (hits content)).
  now destruct (get T scene).
Qed.

Lemma get_In_keys (V : Type) (o : obj V) k v : get o k = Some v -> In k (keys o).
Proof.
  intros H. apply get_Some_In in H. change k with (fst (k, v)). now apply in_map.
Qed.

Lemma get_split (V : Type) (l1 l2 : obj V) e :
  NoDup (keys (l1 ++ e :: l2)) -> get (l1 ++ e :: l2) (fst e) = Some (snd e).
Proof.
  induction l1 as [|[k v] l1 IH]; simpl; intros Hnd.
  - destruct e as [k v]. simpl. now rewrite eqb_refl.
  - inversion Hnd as [|? ? Hfresh Hnd']; subst.
    destruct (eqb k (fst e)) eqn:E; [|now apply IH].
    apply eqb_eq in E. subst k. exfalso. apply Hfresh.
    unfold keys. rewrite map_app. apply in_or_app. right. now left.
Qed.

Lemma hits_of_zero content kws : scoreOf content kws = 0 -> hits content kws = [].
Proof. unfold scoreOf. now destruct (hits content kws). Qed.

Lemma maxScoreOf_ge (scores : obj nat) k n :
  In (k, n) scores -> n <= maxScoreOf scores.
Proof.
  intros Hin. unfold maxScoreOf.
  assert (H : Forall (fun x => x <= list_max (map snd scores)) (map snd scores))
    by now apply list_max_le.
  rewrite Forall_forall in H. apply H.
  change n with (snd (k, n)). now apply in_map.
Qed.

Lemma score_of_selected T content scene m :
  get (scoresOf T content) scene = Some m ->
  List.length (hits content (foundAt T scene)) = m.
Proof.
  rewrite get_scoresOf_eq. unfold foundAt. fold (scoreOf content).
  destruct (get T scene) as [kws|]; simpl; [|discriminate]. now intros [= <-].
Qed.

Lemma selectedFacts_intro T content s ks :
  get (scoresOf T content) s = Some (maxScoreOf (scoresOf T content)) ->
  ks = hits content (foundAt T s) ->
  selectedFacts T content
    {| scene := s; confidence := confidenceOf (maxScoreOf (scoresOf T content));
       keywords := firstn 5 ks; allScores := scoresOf T content |}.
Proof.
  intros Hget ->. unfold selectedFacts. cbn [scene keywords allScores].
  split; [|split; [exact Hget|split; [|split; [reflexivity|split]]]].
  - apply get_In_keys in Hget. now rewrite keys_scoresOf in Hget.
  - intros other n Hn. apply get_Some_In in Hn. eapply maxScoreOf_ge; eassumption.
  - apply Forall_forall. intros k Hin. apply In_firstn in Hin.
    apply filter_In in Hin. tauto.
  - rewrite length_firstn. f_equal. now apply score_of_selected.
Qed.

Lemma classify_gt_selected T content :
  NoDup (keys T) -> In (js "other/finance") (keys T) ->
  selectedFacts T content (classify T scoreGt content).
Proof.
  intros Hnd Hdef.
  destruct (@classify_gt_shape T content Hnd) as (m & s & ks & E & Hm & ->).
  subst m.
  apply selectBest_gt_cases in E
    as [[Hall Heq] | (l1 & e & l2 & Hsc & -> & Hm & -> & Hpos & H1 & H2)].
  - injection Heq as Hm Hs Hks. subst s ks.
    destruct (get (scoresOf T content) (js "other/finance")) as [v|] eqn:G.
    + assert (Hv : v = 0).
      { apply get_Some_In in G. rewrite Forall_forall in Hall.
        specialize (Hall _ G). simpl in Hall. lia. }
      subst v. apply selectedFacts_intro.
      * now rewrite Hm.
      * symmetry. apply length_zero_iff_nil. eapply score_of_selected. exact G.
    + exfalso. apply get_None_notin in G. apply G. now rewrite keys_scoresOf.
  - apply selectedFacts_intro.
    + rewrite Hm. rewrite Hsc at 1. apply get_split.
      rewrite <- Hsc, keys_scoresOf. exact Hnd.
    + apply foundAt_foundOf_eq.
Qed.

Lemma classify_ge_selected T content :
  NoDup (keys T) -> T <> [] ->
  selectedFacts T content (classify T scoreGe content).
Proof.
  intros Hnd Hne.
  destruct (@classify_ge_shape T content Hnd) as (m & s & ks & E & Hm & ->).
  subst m.
  apply selectBest_ge_cases in E
    as [[Hall Heq] | (l1 & e & l2 & Hsc & -> & Hm & -> & Hpos & H1 & H2)].
  - exfalso. destruct (scoresOf T content) as [|e l] eqn:Hsc.
    + revert Hsc. now apply scoresOf_nonempty.
    + inversion Hall; lia.
  - apply selectedFacts_intro.
    + rewrite Hm. rewrite Hsc at 1. apply get_split.
      rewrite <- Hsc, keys_scoresOf. exact Hnd.
    + apply foundAt_foundOf_eq.
Qed.

Lemma memb_In (k : jsstring) l : existsb (eqb k) l = true -> In k l.
Proof.
  intros H. apply existsb_exists in H as (x & Hin & Hx).
  apply eqb_eq in Hx. now subst.
Qed.

Lemma finance_declared_cli : In (js "other/finance") (keys SceneDetector.SCENE_KEYWORDS).
Proof. apply memb_In. vm_compute. reflexivity. Qed.

Lemma engine_table_nonempty : Engine.SCENE_KEYWORDS <> [].
Proof. discriminate. Qed.

(** The selected scene is one of [getAllScenes()], its score is the largest
    of [allScores], and no scene scores more. *)
Theorem selected_scene_is_maximal (content : jsstring) :
  (let r := SceneDetector.detectScene content in
   In (scene r) SceneDetector.getAllScenes /\
   get (allScores r) (scene r) = Some (maxScoreOf (allScores r)) /\
   forall other n, get (allScores r) other = Some n -> n <= maxScoreOf (allScores r)) /\
  (let r := Engine.detect content in
   In (scene r) Engine.getAllScenes /\
   get (allScores r) (scene r) = Some (maxScoreOf (allScores r)) /\
   forall other n, get (allScores r) other = Some n -> n <= maxScoreOf (allScores r)).
Proof.
  split.
  - destruct (classify_gt_selected _ content detectScene_keys finance_declared_cli)
      as (H1 & H2 & H3 & _).
    exact (conj H1 (conj H2 H3)).
  - destruct (classify_ge_selected _ content detect_keys engine_table_nonempty)
      as (H1 & H2 & H3 & _).
    exact (conj H1 (conj H2 H3)).
Qed.

(** The returned keywords are the first five keywords of the selected
    scene's list that occur in the content, in the order of that list; their
    number is the smaller of 5 and the maximal score. *)
Theorem returned_keywords (content : jsstring) :
  (let r := SceneDetector.detectScene content in
   keywords r = firstn 5 (hits content (foundAt SceneDetector.SCENE_KEYWORDS (scene r))) /\
   Forall (fun k => includes content k = true /\
                    In k (foundAt SceneDetector.SCENE_KEYWORDS (scene r))) (keywords r) /\
   List.length (keywords r) = Nat.min 5 (maxScoreOf (allScores r))) /\
  (let r := Engine.detect content in
   keywords r = firstn 5 (hits content (foundAt Engine.SCENE_KEYWORDS (scene r))) /\
   Forall (fun k => includes content k = true /\
                    In k (foundAt Engine.SCENE_KEYWORDS (scene r))) (keywords r) /\
   List.length (keywords r) = Nat.min 5 (maxScoreOf (allScores r))).
Proof.
  split.
  - destruct (classify_gt_selected _ content detectScene_keys finance_declared_cli)
      as (_ & _ & _ & H4).
    exact H4.
  - destruct (classify_ge_selected _ content detect_keys engine_table_nonempty)
      as (_ & _ & _ & H4).
    exact H4.
Qed.

(** The classifier's scene list is the store's [SCENES]: 22 distinct scenes,
    the same for both classifiers, and [allScores] has exactly these keys, in
    this order, for every content. *)
Theorem scene_list :
  SceneDetector.getAllScenes = StorageOps.SCENES /\
  Engine.getAllScenes = StorageOps.SCENES /\
  List.length StorageOps.SCENES = 22 /\
  NoDup StorageOps.SCENES /\
  forall content,
    keys (allScores (SceneDetector.detectScene content)) = StorageOps.SCENES /\
    keys (allScores (Engine.detect content)) = StorageOps.SCENES.
Proof.
  assert (H1 : SceneDetector.getAllScenes = StorageOps.SCENES) by (vm_compute; reflexivity).
  assert (H2 : Engine.getAllScenes = StorageOps.SCENES) by (vm_compute; reflexivity).
  split; [exact H1|]. split; [exact H2|]. split; [reflexivity|]. split.
  - rewrite <- H1. exact detectScene_keys.
  - intros content. split.
    + rewrite <- H1. unfold SceneDetector.detectScene.
      rewrite allScores_classify by exact detectScene_keys. apply keys_scoresOf.
    + rewrite <- H2. unfold Engine.detect.
      rewrite allScores_classify by exact detect_keys. apply keys_scoresOf.
Qed.

Lemma confidenceOf_levels m :
  (m = 0 /\ confidenceOf m = (3 # 10)%Q) \/
  (m = 1 /\ (confidenceOf m == 1 # 3)%Q) \/
  (m = 2 /\ (confidenceOf m == 2 # 3)%Q) \/
  (3 <= m /\ (confidenceOf m == 1)%Q).
Proof.
  destruct m as [|[|[|m]]].
  - left. split; reflexivity.
  - right; left. split; reflexivity.
  - right; right; left. split; reflexivity.
  - right; right; right. split; [lia|].
    rewrite confidenceOf_pos by lia. apply Q.min_r.
    unfold Qle, Qdiv, Qmult, Qinv, inject_Z. simpl. lia.
Qed.

Lemma confidenceLevel_intro s ks scores :
  confidenceLevel {| scene := s; confidence := confidenceOf (maxScoreOf scores);
                     keywords := ks; allScores := scores |}.
Proof. unfold confidenceLevel. cbn [confidence allScores]. apply confidenceOf_levels. Qed.

Lemma classify_gt_level T content :
  NoDup (keys T) -> confidenceLevel (classify T scoreGt content).
Proof.
  intros Hnd.
  destruct (@classify_gt_shape T content Hnd) as (m & s & ks & _ & -> & ->).
  apply confidenceLevel_intro.
Qed.

Lemma classify_ge_level T content :
  NoDup (keys T) -> confidenceLevel (classify T scoreGe content).
Proof.
  intros Hnd.
  destruct (@classify_ge_shape T content Hnd) as (m & s & ks & _ & -> & ->).
  apply confidenceLevel_intro.
Qed.

(** The confidence takes four values only: 0.3 when nothing matches, 1/3 and
    2/3 for a maximal score of 1 and 2, and 1 from three matched keywords of
    one scene on. *)
Theorem confidence_levels (content : jsstring) :
  confidenceLevel (SceneDetector.detectScene content) /\
  confidenceLevel (Engine.detect content).
Proof.
  split.
  - exact (classify_gt_level _ content detectScene_keys).
  - exact (classify_ge_level _ content detect_keys).
Qed.

(** ** Adding text *)

Lemma list_max_map_mono (A : Type) (g g' : A -> nat) (l : list A) :
  (forall x, In x l -> g x <= g' x) -> list_max (map g l) <= list_max (map g' l).
Proof.
  intros H. apply list_max_le. apply Forall_map. apply Forall_forall. intros x Hx.
  apply Nat.le_trans with (g' x); [now apply H|].
  assert (Hall : Forall (fun k => k <= list_max (map g' l)) (map g' l))
    by now apply list_max_le.
  rewrite Forall_forall in Hall. apply Hall. now apply in_map.
Qed.

Lemma maxScoreOf_extend T pre content post :
  maxScoreOf (scoresOf T content) <= maxScoreOf (scoresOf T (pre ++ content ++ post)).
Proof.
  unfold maxScoreOf, scoresOf. rewrite !map_map. cbn [snd].
  apply list_max_map_mono. intros e _. apply scoreOf_extend.
Qed.

Lemma confidenceOf_mono m m' : m <= m' -> (confidenceOf m <= confidenceOf m')%Q.
Proof.
  intros H. destruct m as [|m].
  - rewrite confidenceOf_zero. apply confidenceOf_ge.
  - rewrite !confidenceOf_pos by lia. apply Q.min_le_compat_r.
    unfold Qle, Qdiv, Qmult, Qinv, inject_Z. simpl. lia.
Qed.

Lemma scores_extend T pre content post scene n :
  get (scoresOf T content) scene = Some n ->
  exists n', get (scoresOf T (pre ++ content ++ post)) scene = Some n' /\ n <= n'.
Proof.
  rewrite !get_scoresOf_eq. destruct (get T scene) as [kws|]; simpl; [|discriminate].
  intros [= <-]. eexists. split; [reflexivity | apply scoreOf_extend].
Qed.

Lemma neverLowers_intro (f : jsstring -> DetectOutput) T :
  (forall c, exists s ks,
      f c = {| scene := s; confidence := confidenceOf (maxScoreOf (scoresOf T c));
               keywords := ks; allScores := scoresOf T c |}) ->
  neverLowers f.
Proof.
  intros Hf pre content post. cbv zeta.
  destruct (Hf content) as (s & ks & ->).
  destruct (Hf (pre ++ content ++ post)) as (s' & ks' & ->).
  cbn [allScores confidence]. split; [|split].
  - intros scene n. apply scores_extend.
  - apply maxScoreOf_extend.
  - apply confidenceOf_mono, maxScoreOf_extend.
Qed.

Lemma classify_gt_neverLowers T : NoDup (keys T) -> neverLowers (classify T scoreGt).
Proof.
  intros Hnd. apply neverLowers_intro with (T := T). intros c.
  destruct (@classify_gt_shape T c Hnd) as (m & s & ks & _ & -> & ->). eauto.
Qed.

Lemma classify_ge_neverLowers T : NoDup (keys T) -> neverLowers (classify T scoreGe).
Proof.
  intros Hnd. apply neverLowers_intro with (T := T). intros c.
  destruct (@classify_ge_shape T c Hnd) as (m & s & ks & _ & -> & ->). eauto.
Qed.

(** Text added before or after the content never lowers the score of any
    scene, the maximal score or the confidence. *)
Theorem longer_content_never_lowers :
  neverLowers SceneDetector.detectScene /\ neverLowers Engine.detect.
Proof.
  split.
  - exact (classify_gt_neverLowers _ detectScene_keys).
  - exact (classify_ge_neverLowers _ detect_keys).
Qed.

(** ** The two keyword tables *)

Lemma includes_trans a b c :
  includes a b = true -> includes b c = true -> includes a c = true.
Proof.
  rewrite !includes_iff. intros (p & q & ->) (p' & q' & ->).
  exists (p ++ p'), (q' ++ q). now rewrite <- !app_assoc.
Qed.

Lemma listEqb_eq a b : listEqb a b = true -> a = b.
Proof.
  revert b; induction a as [|x a IH]; intros [|y b]; simpl; try discriminate; auto.
  intros H. apply andb_true_iff in H as [Hx Hab]. apply eqb_eq in Hx.
  f_equal; auto.
Qed.

Lemma covers_scoreOf content : forall a b,
  covers a b = true -> scoreOf content a <= scoreOf content b.
Proof.
  unfold covers. induction a as [|x a IH]; intros b H.
  - unfold scoreOf at 1. simpl. lia.
  - destruct b as [|y b]; [discriminate|]. simpl in H.
    apply andb_true_iff in H as [Hlen H]. apply andb_true_iff in H as [Hxy Hrest].
    rewrite !scoreOf_cons.
    assert (IH' : scoreOf content a <= scoreOf content b).
    { apply IH. apply andb_true_iff. split; assumption. }
    destruct (includes content x) eqn:Hx.
    + rewrite (includes_trans _ _ _ Hx Hxy). lia.
    + destruct (includes content y); lia.
Qed.

Lemma refinedBy_scores except T1 T2 content scene n :
  refinedBy except T1 T2 = true ->
  get (scoresOf T1 content) scene = Some n ->
  exists n', get (scoresOf T2 content) scene = Some n' /\ n <= n' /\
             (scene <> except -> n' = n).
Proof.
  unfold refinedBy. rewrite forallb_forall. intros Href.
  rewrite !get_scoresOf_eq.
  destruct (get T1 scene) as [kws1|] eqn:G1; simpl; [|discriminate].
  intros [= <-]. apply get_Some_In in G1. specialize (Href _ G1). simpl in Href.
  destruct (get T2 scene) as [kws2|]; [|discriminate]. simpl.
  apply andb_true_iff in Href as [Hcov Hsame].
  eexists. split; [reflexivity|]. split; [now apply covers_scoreOf|].
  intros Hne. apply orb_true_iff in Hsame as [He | He].
  - apply eqb_eq in He. contradiction.
  - apply listEqb_eq in He. now subst.
Qed.

Lemma tables_refined :
  refinedBy (js "hr/interview") SceneDetector.SCENE_KEYWORDS Engine.SCENE_KEYWORDS = true.
Proof. vm_compute. reflexivity. Qed.

Lemma classify_scores_refined except T1 T2 b1 b2 content scene n :
  NoDup (keys T1) -> NoDup (keys T2) -> refinedBy except T1 T2 = true ->
  get (allScores (classify T1 b1 content)) scene = Some n ->
  exists n', get (allScores (classify T2 b2 content)) scene = Some n' /\ n <= n' /\
             (scene <> except -> n' = n).
Proof.
  intros H1 H2 Href. rewrite !allScores_classify by assumption.
  now apply refinedBy_scores.
Qed.

(** The engine's table extends the CLI's: on every content the engine's
    [detect] gives each scene at least the score [detectScene] gives it, and
    exactly the same score for every scene but hr/interview. *)
Theorem engine_scores_dominate (content scene : jsstring) (n : nat) :
  get (allScores (SceneDetector.detectScene content)) scene = Some n ->
  exists n', get (allScores (Engine.detect content)) scene = Some n' /\ n <= n' /\
             (scene <> js "hr/interview" -> n' = n).
Proof.
  exact (classify_scores_refined _ _ _ _ _ content scene n
           detectScene_keys detect_keys tables_refined).
Qed.

Lemma engine_scores_dominate_witness :
  exists n', get (allScores (Engine.detect (js "离职原因 面谈"))) (js "hr/interview") = Some n'
             /\ 1 <= n'.
Proof.
  destruct (engine_scores_dominate (js "离职原因 面谈") (js "hr/interview") 1)
    as (n' & H1 & H2 & _).
  - vm_compute. reflexivity.
  - exists n'. split; assumption.
Defined.

(* ================================================================== *)
(** * Further properties of the prompt version store *)
(* ================================================================== *)

Import StorageOps.

Lemma string_of_uint_digits d :
  Forall (fun c => (48 <= c <= 57)%N)
         (map N_of_ascii (list_ascii_of_string (NilEmpty.string_of_uint d))).
Proof.
  induction d; simpl; constructor; try assumption; split; vm_compute; discriminate.
Qed.

Lemma of_nat_digits n : Forall (fun c => (48 <= c <= 57)%N) (JsString.of_nat n).
Proof. apply string_of_uint_digits. Qed.




Lemma readFile_other_scene_ensureDir fs scene scene' f' :
  scene' <> scene ->
  readFile (ensureDir fs scene) (scene', f') = readFile fs (scene', f').
Proof.
  intros H. unfold readFile, ensureDir. simpl.
  destruct (get (prompts fs) scene); [reflexivity|]. simpl. now rewrite get_set_other.
Qed.

Lemma jsstring_eq_dec (a b : jsstring) : {a = b} + {a <> b}.
Proof. apply list_eq_dec, N.eq_dec. Qed.






(** ** The default sort *)

Lemma compare_antisym a : forall b,
  JsString.compare b a = CompOpp (JsString.compare a b).
Proof.
  induction a as [|x a IH]; intros [|y b]; simpl; try reflexivity.
  rewrite (N.compare_antisym x y).
  destruct (x ?= y)%N; simpl; auto.
Qed.

Lemma leb_total a b : JsString.leb a b = true \/ JsString.leb b a = true.
Proof.
  unfold JsString.leb. rewrite (compare_antisym a b).
  destruct (JsString.compare a b); simpl; auto.
Qed.

Lemma leb_trans a : forall b c,
  JsString.leb a b = true -> JsString.leb b c = true -> JsString.leb a c = true.
Proof.
  unfold JsString.leb.
  induction a as [|x a IH]; intros [|y b] [|z c]; simpl; try reflexivity; try discriminate.
  destruct (N.compare_spec x y) as [-> | Hxy | Hxy]; try discriminate.
  - destruct (N.compare_spec y z) as [-> | Hyz | Hyz]; try discriminate.
    + apply IH.
    + reflexivity.
  - intros _. destruct (N.compare_spec y z) as [-> | Hyz | Hyz]; try discriminate.
    + intros _. destruct (N.compare_spec x z) as [-> | Hxz | Hxz]; try reflexivity; lia.
    + intros _. destruct (N.compare_spec x z) as [-> | Hxz | Hxz]; try reflexivity; lia.
Qed.

Lemma In_insert (A : Type) (le : A -> A -> bool) x y l :
  In x (insert le y l) <-> x = y \/ In x l.
Proof.
  induction l as [|z l IH]; simpl.
  - intuition.
  - destruct (le y z); simpl; rewrite ?IH; intuition.
Qed.

Lemma In_sortBy (A : Type) (le : A -> A -> bool) x l :
  In x (sortBy le l) <-> In x l.
Proof.
  induction l as [|y l IH]; simpl; [tauto|].
  rewrite In_insert, IH. intuition.
Qed.

Lemma insert_sorted x l :
  StronglySorted lebP l -> StronglySorted lebP (insert JsString.leb x l).
Proof.
  induction 1 as [|y l Hs IH Hall]; simpl.
  - repeat constructor.
  - destruct (JsString.leb x y) eqn:E.
    + constructor; [now constructor|]. constructor; [exact E|].
      eapply Forall_impl; [|exact Hall]. intros z Hz. eapply leb_trans; eassumption.
    + constructor; [exact IH|].
      apply Forall_forall. intros z Hz. apply In_insert in Hz as [-> | Hz].
      * destruct (leb_total x y) as [H | H]; [congruence | exact H].
      * rewrite Forall_forall in Hall. now apply Hall.
Qed.

Lemma sort_sorted l : StronglySorted lebP (sort l).
Proof.
  unfold sort. induction l as [|x l IH]; simpl; [constructor|].
  now apply insert_sorted.
Qed.

Lemma sorted_last l : forall f,
  StronglySorted lebP (l ++ [f]) -> Forall (fun g => lebP g f) l.
Proof.
  induction l as [|x l IH]; intros f H; [constructor|].
  simpl in H. inversion H as [|? ? Hs Hall]; subst. constructor.
  - apply Forall_app in Hall as [_ Hf]. now inversion Hf.
  - now apply IH.
Qed.

(** The first name after sorting and reversing is a name of the list and
    none of the list comes after it. *)
Lemma last_sorted_is_greatest l f rest :
  rev (sort l) = f :: rest ->
  In f l /\ forall g, In g l -> JsString.leb g f = true.
Proof.
  intros H.
  assert (Hs : sort l = rev rest ++ [f]).
  { rewrite <- (rev_involutive (sort l)), H. reflexivity. }
  assert (Hsorted := sort_sorted l). rewrite Hs in Hsorted.
  apply sorted_last in Hsorted. rewrite Forall_forall in Hsorted.
  split.
  - apply (proj1 (In_sortBy _ JsString.leb f l)). fold (sort l). rewrite Hs.
    apply in_or_app. right. now left.
  - intros g Hg. apply (proj2 (In_sortBy _ JsString.leb g l)) in Hg. fold (sort l) in Hg.
    rewrite Hs in Hg. apply in_app_or in Hg as [Hg | [<- | []]].
    + now apply Hsorted.
    + destruct (leb_total f f); assumption.
Qed.

Lemma sort_nil l : rev (sort l) = [] -> l = [].
Proof.
  intros H. apply (f_equal (@List.length jsstring)) in H.
  rewrite length_rev in H. unfold sort in H. rewrite sortBy_length in H.
  now destruct l.
Qed.

Lemma get_existsFile (d : Directory) f :
  existsFile d f = true -> exists file, get d f = Some file.
Proof. unfold existsFile. destruct (get d f); [eauto | discriminate]. Qed.

Lemma In_keys_get (V : Type) (o : obj V) k : In k (keys o) -> exists v, get o k = Some v.
Proof.
  intros H. destruct (get o k) as [v|] eqn:E; [eauto|].
  apply get_None_notin in E. contradiction.
Qed.

(** What [getPromptByScene] resolves to: always a file that exists in the
    scene's directory.  With a version argument it is [v<version>.md],
    whether or not [default.md] exists; without one it is [default.md] when
    that file exists, and otherwise the version file that comes last in
    code-unit order. *)
Theorem get_resolves_existing_file
        (fs : FS) (scene : jsstring) (version : option jsstring) (p : Path) :
  getPromptByScene fs scene version = Ok p ->
  fst p = scene /\
  (exists text, readFile fs p = Some text) /\
  (forall v, version = Some v -> v <> [] -> snd p = js "v" ++ v ++ js ".md") /\
  (truthy version = false ->
   if hasDefault fs scene then snd p = js "default.md"
   else latestByName fs scene (snd p)).
Proof.
  unfold getPromptByScene, hasDefault, latestByName, versionFiles, readFile.
  destruct (get (prompts fs) scene) as [dir|] eqn:Hdir; [|discriminate].
  destruct (truthy version) eqn:Htr.
  - destruct version as [[|c v]|]; try discriminate.
    destruct (existsFile dir (js "v" ++ (c :: v) ++ js ".md")) eqn:Hex; [|discriminate].
    intros [= <-]. cbn [fst snd]. rewrite Hdir.
    split; [reflexivity|]. split.
    + apply get_existsFile in Hex as [file Hfile]. exists (content file).
      change (option_map content (get dir (js "v" ++ (c :: v) ++ js ".md"))
              = Some (content file)).
      now rewrite Hfile.
    + split; [|discriminate]. intros v' [= <-] _. reflexivity.
  - destruct (existsFile dir (js "default.md")) eqn:Hdef.
    + intros [= <-]. cbn [fst snd]. rewrite Hdir.
      split; [reflexivity|]. split.
      * apply get_existsFile in Hdef as [file ->]. simpl. eauto.
      * split; [|reflexivity].
        intros v -> Hv. destruct v; [contradiction | discriminate].
    + destruct (rev (sort (filter isVersionFile (keys dir)))) as [|f rest] eqn:Hsort;
        [discriminate|].
      intros [= <-]. cbn [fst snd]. rewrite Hdir.
      apply last_sorted_is_greatest in Hsort as [Hin Hmax].
      split; [reflexivity|]. split.
      * apply filter_In in Hin as [Hin _].
        apply In_keys_get in Hin as [file ->]. simpl. eauto.
      * split; [|intros _; split; assumption].
        intros v -> Hv. destruct v; [contradiction | discriminate].
Qed.

Lemma get_resolves_existing_file_witness :
  let fs := fst (saveAll (fun _ _ => Eq) (fun _ => js "2024-01-01T00:00:00.000Z")
                         emptyFS (js "hr/exit")
                         [(js "first", js "", 1%N); (js "second", js "", 2%N)]) in
  exists text, readFile fs (js "hr/exit", js "v2.md") = Some text.
Proof.
  cbv zeta.
  destruct (get_resolves_existing_file
              (fst (saveAll (fun _ _ => Eq) (fun _ => js "2024-01-01T00:00:00.000Z")
                            emptyFS (js "hr/exit")
                            [(js "first", js "", 1%N); (js "second", js "", 2%N)]))
              (js "hr/exit") None (js "hr/exit", js "v2.md"))
    as (_ & H & _).
  - vm_compute. reflexivity.
  - exact H.
Defined.

(** When [getPromptByScene] fails: the scene directory is missing, the
    requested version file is missing, or there is neither [default.md] nor
    any version file; each case has its own message. *)
Theorem get_failure_cases
        (fs : FS) (scene : jsstring) (version : option jsstring) (msg : jsstring) :
  getPromptByScene fs scene version = Throw msg <->
  (get (prompts fs) scene = None /\ msg = js "场景目录不存在: " ++ scene) \/
  (exists dir v,
      get (prompts fs) scene = Some dir /\ version = Some v /\ v <> [] /\
      get dir (js "v" ++ v ++ js ".md") = None /\
      msg = js "提示词版本不存在: v" ++ v) \/
  (exists dir,
      get (prompts fs) scene = Some dir /\ truthy version = false /\
      hasDefault fs scene = false /\ versionFiles fs scene = [] /\
      msg = js "场景 " ++ scene ++ js " 没有提示词文件").
Proof.
  unfold getPromptByScene, hasDefault, versionFiles.
  destruct (get (prompts fs) scene) as [dir|] eqn:Hdir.
  - destruct (truthy version) eqn:Htr.
    + destruct version as [[|c v]|]; try discriminate. unfold existsFile.
      destruct (get dir (js "v" ++ (c :: v) ++ js ".md")) as [file|] eqn:Hf.
      * split; [discriminate|].
        intros [[? _] | [(d & v' & [= <-] & [= <-] & _ & Hn & _) | (d & _ & ? & _)]];
          try discriminate.
        unfold jsstring in *. congruence.
      * split.
        -- intros [= <-]. right; left. exists dir, (c :: v).
           repeat split; auto. discriminate.
        -- intros [[? _] | [(d & v' & _ & [= <-] & _ & _ & ->) | (d & _ & ? & _)]];
             try discriminate. reflexivity.
    + destruct (existsFile dir (js "default.md")) eqn:Hdef.
      * split; [discriminate|].
        intros [[? _] | [(d & v & _ & -> & Hv & _) | (d & _ & _ & ? & _)]];
          try discriminate.
        destruct v; [contradiction | discriminate].
      * destruct (rev (sort (filter isVersionFile (keys dir)))) as [|f rest] eqn:Hsort.
        -- apply sort_nil in Hsort. split.
           ++ intros [= <-]. right; right. exists dir. repeat split; auto.
           ++ intros [[? _] | [(d & v & _ & -> & Hv & _) | (d & _ & _ & _ & _ & ->)]];
                try discriminate; [|reflexivity].
              destruct v; [contradiction | discriminate].
        -- split; [discriminate|].
           intros [[? _] | [(d & v & _ & -> & Hv & _) | (d & _ & _ & _ & Hnil & _)]];
             try discriminate.
           ++ destruct v; [contradiction | discriminate].
           ++ rewrite Hnil in Hsort. discriminate.
  - split.
    + intros [= <-]. left. split; reflexivity.
    + intros [[_ ->] | [(d & v & ? & _) | (d & ? & _)]]; try discriminate. reflexivity.
Qed.

Lemma get_failure_cases_witness :
  getPromptByScene emptyFS (js "hr/exit") None = Throw (js "场景目录不存在: hr/exit").
Proof.
  apply (proj2 (get_failure_cases emptyFS (js "hr/exit") None (js "场景目录不存在: hr/exit"))).
  left. split; reflexivity.
Defined.

(** ** [initDirs] *)

Lemma ensureDir_keeps fs scene s d :
  get (prompts fs) s = Some d -> get (prompts (ensureDir fs scene)) s = Some d.
Proof.
  intros H. unfold ensureDir.
  destruct (get (prompts fs) scene) as [d0|] eqn:E; [exact H|]. simpl.
  rewrite get_set_other; [exact H|]. intros ->. congruence.
Qed.

Lemma ensureDir_present fs scene d :
  get (prompts fs) scene = Some d -> ensureDir fs scene = fs.
Proof. intros H. unfold ensureDir. now rewrite H. Qed.

Lemma readFile_ensureDir_any fs scene q :
  readFile (ensureDir fs scene) q = readFile fs q.
Proof.
  destruct q as [s f]. destruct (jsstring_eq_dec s scene) as [-> | Hs].
  - apply readFile_ensureDir.
  - now apply readFile_other_scene_ensureDir.
Qed.

Lemma ensureAll_facts (l : list jsstring) : forall fs,
  let fs' := fold_left ensureDir l fs in
  (forall s, In s l -> exists d, get (prompts fs') s = Some d) /\
  (forall s d, get (prompts fs) s = Some d -> get (prompts fs') s = Some d) /\
  (forall q, readFile fs' q = readFile fs q) /\
  indexFile fs' = indexFile fs.
Proof.
  induction l as [|x l IH]; intros fs; cbv zeta; simpl.
  - repeat split; auto. intros s [].
  - destruct (IH (ensureDir fs x)) as (H1 & H2 & H3 & H4). repeat split.
    + intros s [<- | Hs]; [|now apply H1].
      destruct (ensureDir_exists fs x) as [d Hd]. exists d. now apply H2.
    + intros s d Hd. apply H2. now apply ensureDir_keeps.
    + intros q. rewrite H3. apply readFile_ensureDir_any.
    + rewrite H4. apply indexFile_ensureDir.
Qed.

Lemma ensureAll_fixed (l : list jsstring) : forall fs,
  (forall s, In s l -> exists d, get (prompts fs) s = Some d) ->
  fold_left ensureDir l fs = fs.
Proof.
  induction l as [|x l IH]; intros fs H; simpl; [reflexivity|].
  destruct (H x (or_introl eq_refl)) as [d Hd].
  rewrite (ensureDir_present _ _ _ Hd). apply IH. intros s Hs. apply H. now right.
Qed.

(** [initDirs] gives every scene of [SCENES] a directory, so also every
    scene a classifier can return; it keeps the existing directories, every
    file and the index as they are, creates exactly the missing ones of the
    four top-level directories, and running it again changes nothing. *)
Theorem initDirs_prepares_every_scene (topExists : jsstring -> bool) (fs : FS) :
  let created := fst (initDirs topExists fs) in
  let fs' := snd (initDirs topExists fs) in
  (forall d, In d created <-> In d DIRS /\ topExists d = false) /\
  (forall s, In s SCENES -> exists d, get (prompts fs') s = Some d) /\
  (forall content,
      (exists d, get (prompts fs') (scene (SceneDetector.detectScene content)) = Some d) /\
      (exists d, get (prompts fs') (scene (Engine.detect content)) = Some d)) /\
  (forall s d, get (prompts fs) s = Some d -> get (prompts fs') s = Some d) /\
  (forall q, readFile fs' q = readFile fs q) /\
  indexFile fs' = indexFile fs /\
  (forall again, snd (initDirs again fs') = fs').
Proof.
  cbv zeta. unfold initDirs. cbn [fst snd].
  destruct (ensureAll_facts SCENES fs) as (H1 & H2 & H3 & H4).
  split.
  { intros d. rewrite filter_In. rewrite negb_true_iff. tauto. }
  split; [exact H1|]. split.
  { intros content. split; apply H1.
    - assert (E : StorageOps.SCENES = SceneDetector.getAllScenes) by (vm_compute; reflexivity).
      rewrite E.
      exact (proj1 (classify_gt_selected _ content detectScene_keys finance_declared_cli)).
    - assert (E : StorageOps.SCENES = Engine.getAllScenes) by (vm_compute; reflexivity).
      rewrite E.
      exact (proj1 (classify_ge_selected _ content detect_keys engine_table_nonempty)). }
  split; [exact H2|]. split; [exact H3|]. split; [exact H4|].
  intros _. apply ensureAll_fixed. exact H1.
Qed.

(** ** Version names *)

Lemma startsWith_md_head c (t : jsstring) :
  c <> 46%N -> startsWith (c :: t) (js ".md") = false.
Proof.
  intros Hc. change (js ".md") with (46%N :: js "md"). cbn [startsWith].
  apply N.eqb_neq in Hc. now rewrite Hc.
Qed.

Lemma no_dot_no_md (s : jsstring) :
  Forall (fun c => c <> 46%N) s -> includes s (js ".md") = false.
Proof.
  induction 1 as [|c s Hc _ IH]; [reflexivity|].
  cbn [includes]. now rewrite IH, orb_false_r, startsWith_md_head.
Qed.

Lemma digits_no_dot n : Forall (fun c => c <> 46%N) (JsString.of_nat n).
Proof.
  eapply Forall_impl; [|apply of_nat_digits]. intros c [H _] ->.
  vm_compute in H. now apply H.
Qed.

Lemma versionId_no_dot n : Forall (fun c => c <> 46%N) (versionId n).
Proof.
  unfold versionId. apply Forall_app. split; [|apply digits_no_dot].
  repeat constructor. discriminate.
Qed.



(** [vv<n>.md] is not the name of a numbered version. *)
Lemma doubled_prefix_not_version n j :
  js "v" ++ versionId n ++ js ".md" <> versionFile j.
Proof.
  unfold versionFile, versionId. intros H.
  apply app_inv_head in H. apply app_inv_tail in H.
  assert (Hd := of_nat_digits j). rewrite <- H in Hd.
  inversion Hd as [|? ? [_ Hc] _]. vm_compute in Hc. now apply Hc.
Qed.

Lemma doubled_prefix_missing fs scene n k :
  versionFiles fs scene = map versionFile (seq 1 k) ->
  readFile fs (scene, js "v" ++ versionId n ++ js ".md") = None.
Proof.
  intros Hfiles. unfold readFile, versionFiles in *. cbn [fst snd].
  destruct (get (prompts fs) scene) as [dir|]; [|reflexivity].
  destruct (get dir (js "v" ++ versionId n ++ js ".md")) as [file|] eqn:E; [|reflexivity].
  exfalso. apply get_In_keys in E.
  assert (Hv : In (js "v" ++ versionId n ++ js ".md") (filter isVersionFile (keys dir))).
  { apply filter_In. split; [exact E|]. unfold isVersionFile.
    rewrite startsWith_app. rewrite app_assoc. now rewrite endsWith_app. }
  rewrite Hfiles in Hv. apply in_map_iff in Hv as (j & Hj & _).
  symmetry in Hj. now apply doubled_prefix_not_version in Hj.
Qed.

Lemma download_number fs scene n out text :
  readFile fs (scene, versionFile n) = Some text ->
  downloadPromptVersion fs scene (JsString.of_nat n) out = Ok (out, text).
Proof.
  intros H. unfold downloadPromptVersion. cbv zeta.
  rewrite (no_dot_no_md _ (digits_no_dot n)).
  change (js "v" ++ JsString.of_nat n ++ js ".md") with (versionFile n).
  now rewrite H.
Qed.

Lemma download_file_name fs scene n out text :
  readFile fs (scene, versionFile n) = Some text ->
  downloadPromptVersion fs scene (versionFile n) out = Ok (out, text).
Proof.
  intros H. unfold downloadPromptVersion. cbv zeta.
  assert (Hinc : includes (versionFile n) (js ".md") = true).
  { apply includes_iff. exists (versionId n), [].
    unfold versionFile, versionId. now rewrite app_nil_r, app_assoc. }
  now rewrite Hinc, H.
Qed.

Lemma download_id fs scene n out :
  readFile fs (scene, js "v" ++ versionId n ++ js ".md") = None ->
  downloadPromptVersion fs scene (versionId n) out =
  Throw (js "提示词版本不存在: " ++ scene ++ js "/" ++ js "v" ++ versionId n ++ js ".md").
Proof.
  intros H. unfold downloadPromptVersion. cbv zeta.
  rewrite (no_dot_no_md _ (versionId_no_dot n)).
  unfold jsstring in *. now rewrite H.
Qed.

Lemma get_by_id fs scene n dir :
  get (prompts fs) scene = Some dir ->
  readFile fs (scene, js "v" ++ versionId n ++ js ".md") = None ->
  getPromptByScene fs scene (Some (versionId n)) =
  Throw (js "提示词版本不存在: v" ++ versionId n).
Proof.
  intros Hdir H. unfold getPromptByScene. rewrite Hdir.
  assert (Htr : truthy (Some (versionId n)) = true) by reflexivity.
  rewrite Htr. unfold readFile in H. cbn [fst snd] in H. rewrite Hdir in H.
  unfold existsFile.
  destruct (get dir (js "v" ++ versionId n ++ js ".md")); [discriminate | reflexivity].
Qed.

(** Downloading what was saved.  After saves into a scene directory that
    had no version files, the text of the i-th save is downloaded under its
    number and under its file name [v<i>.md]; under the id [v<i>], as
    [listPromptVersions] and the index show it, both [downloadPromptVersion]
    and [getPromptByScene] look for [vv<i>.md] and fail. *)
Theorem download_by_number_or_file_name
        (localeCompare : jsstring -> jsstring -> comparison)
        (toISOString : N -> jsstring)
        (fs : FS) (scene outputPath : jsstring)
        (saves : list (jsstring * jsstring * N))
        (i : nat) (text remark : jsstring) (now : N) :
  versionFiles fs scene = [] ->
  nth_error saves i = Some (text, remark, now) ->
  let fs' := fst (saveAll localeCompare toISOString fs scene saves) in
  downloadPromptVersion fs' scene (JsString.of_nat (i + 1)) outputPath
    = Ok (outputPath, text) /\
  downloadPromptVersion fs' scene (versionFile (i + 1)) outputPath
    = Ok (outputPath, text) /\
  downloadPromptVersion fs' scene (versionId (i + 1)) outputPath
    = Throw (js "提示词版本不存在: " ++ scene ++ js "/" ++
             js "v" ++ versionId (i + 1) ++ js ".md") /\
  getPromptByScene fs' scene (Some (versionId (i + 1)))
    = Throw (js "提示词版本不存在: v" ++ versionId (i + 1)).
Proof.
  intros Hfiles Hi. cbv zeta.
  destruct (saveAll localeCompare toISOString fs scene saves) as [fs' rs] eqn:E.
  destruct (@saveAll_from localeCompare toISOString scene saves fs 0 fs' rs Hfiles E)
    as (Hf & Hread & _).
  specialize (Hread i text remark now Hi). cbn [fst].
  replace (0 + 1 + i) with (i + 1) in Hread by lia.
  assert (Hmiss := doubled_prefix_missing fs' scene (i + 1) _ Hf).
  split; [now apply download_number|].
  split; [now apply download_file_name|].
  split; [now apply download_id|].
  assert (Hdir : exists dir, get (prompts fs') scene = Some dir).
  { unfold readFile in Hread. cbn [fst] in Hread.
    destruct (get (prompts fs') scene) as [dir|]; [eauto | discriminate]. }
  destruct Hdir as [dir Hdir]. now apply get_by_id with (dir := dir).
Qed.

Lemma download_by_number_or_file_name_witness :
  downloadPromptVersion
    (fst (saveAll (fun _ _ => Eq) (fun _ => js "2024-01-01T00:00:00.000Z")
                  emptyFS (js "hr/exit")
                  [(js "first", js "", 1%N); (js "second", js "", 2%N)]))
    (js "hr/exit") (js "2") (js "out.md") = Ok (js "out.md", js "second").
Proof.
  destruct (download_by_number_or_file_name
              (fun _ _ => Eq) (fun _ => js "2024-01-01T00:00:00.000Z")
              emptyFS (js "hr/exit") (js "out.md")
              [(js "first", js "", 1%N); (js "second", js "", 2%N)]
              1 (js "second") (js "") 2%N) as (H & _).
  - reflexivity.
  - reflexivity.
  - exact H.
Defined.

(** ** [listPromptVersions] *)

Lemma insert_perm (A : Type) (le : A -> A -> bool) x l :
  Permutation (insert le x l) (x :: l).
Proof.
  induction l as [|y l IH]; simpl; [reflexivity|].
  destruct (le x y); [reflexivity|].
  rewrite IH. apply perm_swap.
Qed.

Lemma sortBy_perm (A : Type) (le : A -> A -> bool) l : Permutation (sortBy le l) l.
Proof.
  induction l as [|x l IH]; simpl; [reflexivity|].
  rewrite insert_perm. now constructor.
Qed.

Lemma map_fst_filter (V : Type) (p : jsstring -> bool) (d : obj V) :
  map fst (filter (fun e => p (fst e)) d) = filter p (keys d).
Proof.
  induction d as [|[k v] d IH]; simpl; [reflexivity|].
  destruct (p k); simpl; now rewrite IH.
Qed.

(** [listPromptVersions] lists the version files of the scene directory,
    each once, in an order the host's collation decides: every entry's path
    is a version file of the scene and its version is the file name without
    its first [.md]; a missing directory gives the empty list. *)
Theorem listing_is_the_version_files
        (localeCompare : jsstring -> jsstring -> comparison)
        (fs : FS) (scene : jsstring) :
  let listing := listPromptVersions localeCompare fs scene in
  Permutation (map path listing) (map (fun f => (scene, f)) (versionFiles fs scene)) /\
  Forall (fun v => fst (path v) = scene /\
                   version v = replaceFirst (snd (path v)) (js ".md") []) listing /\
  (get (prompts fs) scene = None -> listing = []) /\
  (listing = [] <-> versionFiles fs scene = []).
Proof.
  cbv zeta. unfold listPromptVersions, versionFiles.
  destruct (get (prompts fs) scene) as [dir|].
  - set (entries := map _ (filter _ dir)).
    assert (Hp : Permutation (sortBy
                   (fun a b => match localeCompare (version b) (version a) with
                               | Gt => false | _ => true end) entries) entries)
      by apply sortBy_perm.
    split; [|split; [|split]].
    + rewrite Hp. unfold entries. rewrite map_map. cbn [path].
      rewrite <- (map_fst_filter _ isVersionFile dir), map_map. reflexivity.
    + eapply Permutation_Forall; [symmetry; exact Hp|].
      unfold entries. apply Forall_map. apply Forall_forall. intros e _.
      cbn [path version fst snd]. split; reflexivity.
    + discriminate.
    + rewrite <- (map_fst_filter _ isVersionFile dir). split.
      * intros H. rewrite H in Hp. apply Permutation_nil in Hp.
        unfold entries in Hp. apply map_eq_nil in Hp. now rewrite Hp.
      * intros H. apply map_eq_nil in H. unfold entries. now rewrite H.
  - repeat split; auto.
Qed.



(* ================================================================== *)
(** * Further properties of the LLM gateway *)
(* ================================================================== *)

Lemma engine_models_same : EngineLlm.MODELS = Llm.MODELS.
Proof. reflexivity. Qed.

Lemma apiKeyOf_unset env config :
  env (Llm.apiKeyEnv config) = None \/ env (Llm.apiKeyEnv config) = Some [] ->
  Llm.apiKeyOf env config = None.
Proof. unfold Llm.apiKeyOf, Llm.apiKeyAt. now intros [-> | ->]. Qed.

Lemma apiKeyAt_set env name key :
  Llm.apiKeyAt env name = Some key -> env name = Some key /\ key <> [].
Proof.
  unfold Llm.apiKeyAt. destruct (env name) as [[|c k]|]; try discriminate.
  intros [= <-]. split; [reflexivity | discriminate].
Qed.

Lemma apiKeyOf_set env config key :
  Llm.apiKeyOf env config = Some key ->
  env (Llm.apiKeyEnv config) = Some key /\ key <> [].
Proof.
  unfold Llm.apiKeyOf. apply apiKeyAt_set.
Qed.

(** What [MODELS[modelKey]] gives. *)
Lemma lookup_registered modelKey config :
  get Llm.MODELS modelKey = Some config -> lookup Llm.MODELS modelKey = Some (Own config).
Proof. unfold lookup. now intros ->. Qed.

Lemma lookup_cases modelKey :
  (exists config, get Llm.MODELS modelKey = Some config /\
                  lookup Llm.MODELS modelKey = Some (Own config)) \/
  (get Llm.MODELS modelKey = None /\ inherited modelKey = true /\
   lookup Llm.MODELS modelKey = Some Inherited) \/
  (get Llm.MODELS modelKey = None /\ inherited modelKey = false /\
   lookup Llm.MODELS modelKey = None).
Proof.
  unfold lookup. destruct (get Llm.MODELS modelKey) as [config|]; [left; eauto|].
  right. destruct (inherited modelKey); [left | right]; auto.
Qed.

(** A registered model whose API-key variable is unset or empty: the call
    fails with the message naming that variable, and no HTTP request is
    issued. *)
Theorem missing_api_key
        (env : jsstring -> option jsstring) (fetch : Llm.Request -> Llm.Fetched)
        (data prompt modelKey : jsstring) (config : Llm.ModelConfig) :
  get Llm.MODELS modelKey = Some config ->
  env (Llm.apiKeyEnv config) = None \/ env (Llm.apiKeyEnv config) = Some [] ->
  Llm.generateSummary env fetch data prompt modelKey =
    ([], Llm.Raise (Llm.Error (js "未设置 API Key: " ++ Llm.apiKeyEnv config))) /\
  EngineLlm.generate env fetch data prompt (Some modelKey) =
    ([], Llm.Raise (Llm.Error (js "API Key not set: " ++ Llm.apiKeyEnv config))).
Proof.
  intros Hm Hk. apply apiKeyOf_unset in Hk. apply lookup_registered in Hm. split.
  - unfold Llm.generateSummary, Llm.getModelConfig. rewrite Hm.
    cbn [Llm.field Llm.str].
    change (Llm.apiKeyAt env (Llm.apiKeyEnv config)) with (Llm.apiKeyOf env config).
    now rewrite Hk.
  - unfold EngineLlm.generate, EngineLlm.callLLM, EngineLlm.getModelConfig.
    rewrite engine_models_same, Hm. cbn [Llm.field Llm.str].
    change (Llm.apiKeyAt env (Llm.apiKeyEnv config)) with (Llm.apiKeyOf env config).
    now rewrite Hk.
Qed.

Lemma missing_api_key_witness :
  Llm.generateSummary (fun _ => None) (fun _ => Llm.Rejected (Llm.Error (js "offline")))
                      (js "dialogue") (js "prompt") (js "doubao") =
  ([], Llm.Raise (Llm.Error (js "未设置 API Key: DOUBAO_API_KEY"))).
Proof.
  destruct (missing_api_key (fun _ => None)
              (fun _ => Llm.Rejected (Llm.Error (js "offline")))
              (js "dialogue") (js "prompt") (js "doubao")
              {| Llm.name := js "豆包 1.8"; Llm.provider := js "douyin";
                 Llm.apiKeyEnv := js "DOUBAO_API_KEY";
                 Llm.endpoint := js "https://ark.cn-beijing.volces.com/api/v3/chat/completions";
                 Llm.modelName := js "doubao-pro-32k" |}) as [H _].
  - reflexivity.
  - left. reflexivity.
  - exact H.
Defined.

Import LlmNotions.

(** When [fetch] is called: at most once per call, the same request in both
    clients, and only with a key read from the environment.  For a
    registered model that is the model's API-key variable, set and not
    empty; the request then goes to the model's endpoint, names the model
    and carries the key as bearer token.  A model key that is not
    registered but names an inherited property (constructor, toString, ...)
    passes [getModelConfig] without a configuration: the variable read is
    the one named undefined, and when it is set [fetch] is called with the
    address undefined and a body without model.  For every other key no
    request is made.  The messages are always the prompt (system) and the
    data (user). *)
Theorem requests_need_credentials
        (env : jsstring -> option jsstring) (fetch : Llm.Request -> Llm.Fetched)
        (data prompt modelKey : jsstring) :
  let cli := fst (Llm.generateSummary env fetch data prompt modelKey) in
  let engine := fst (EngineLlm.generate env fetch data prompt (Some modelKey)) in
  cli = engine /\ List.length cli <= 1 /\
  forall req, In req cli ->
    (exists config key,
        get Llm.MODELS modelKey = Some config /\
        env (Llm.apiKeyEnv config) = Some key /\ key <> [] /\
        req = generationRequest config key data prompt) \/
    (exists key,
        unconfigured modelKey /\
        env (js "undefined") = Some key /\ key <> [] /\
        req = unconfiguredRequest key data prompt).
Proof.
  cbv zeta.
  unfold Llm.generateSummary, EngineLlm.generate, EngineLlm.callLLM,
    Llm.getModelConfig, EngineLlm.getModelConfig.
  rewrite engine_models_same.
  destruct (lookup_cases modelKey)
    as [(config & Hm & ->) | [(Hm & Hi & ->) | (Hm & Hi & ->)]];
    cbn [Llm.field Llm.str].
  - destruct (Llm.apiKeyAt env (Llm.apiKeyEnv config)) as [key|] eqn:Hk.
    + cbn [fst]. split; [reflexivity|]. split; [simpl; lia|].
      intros req [<- | []]. apply apiKeyAt_set in Hk as [Hk Hne].
      left. exists config, key. repeat split; auto.
    + cbn [fst]. split; [reflexivity|]. split; [simpl; lia|]. intros req [].
  - destruct (Llm.apiKeyAt env (js "undefined")) as [key|] eqn:Hk.
    + cbn [fst]. split; [reflexivity|]. split; [simpl; lia|].
      intros req [<- | []]. apply apiKeyAt_set in Hk as [Hk Hne].
      right. exists key. repeat split; auto.
    + cbn [fst]. split; [reflexivity|]. split; [simpl; lia|]. intros req [].
  - cbn [fst]. split; [reflexivity|]. split; [simpl; lia|]. intros req [].
Qed.

Lemma requests_need_credentials_witness :
  (exists config key,
      get Llm.MODELS (js "qwen-max") = Some config /\
      (fun v => if eqb v (js "DASHSCOPE_API_KEY") then Some (js "sk-1") else None)
        (Llm.apiKeyEnv config) = Some key) /\
  (exists key,
      unconfigured (js "constructor") /\
      (fun v => if eqb v (js "undefined") then Some (js "sk-0") else None)
        (js "undefined") = Some key).
Proof.
  split.
  - destruct (requests_need_credentials
                (fun v => if eqb v (js "DASHSCOPE_API_KEY") then Some (js "sk-1") else None)
                (fun _ => Llm.Rejected (Llm.Error (js "offline")))
                (js "dialogue") (js "prompt") (js "qwen-max")) as (_ & _ & H).
    destruct (H {| Llm.url := js "https://dashscope.aliyuncs.com/compatible-mode/v1/chat/completions";
                   Llm.authorization := js "Bearer sk-1";
                   Llm.model := Some (js "qwen-max");
                   Llm.messages := [ {| Llm.role := js "system"; Llm.text := js "prompt" |};
                                     {| Llm.role := js "user"; Llm.text := js "dialogue" |} ];
                   Llm.temperature := (7 # 10)%Q;
                   Llm.max_tokens := 8192%N;
                   Llm.json_object := false |})
      as [(config & key & H1 & H2 & _) | (key & (H1 & _) & _)].
    + vm_compute. left. reflexivity.
    + exists config, key. split; assumption.
    + vm_compute in H1. discriminate H1.
  - destruct (requests_need_credentials
                (fun v => if eqb v (js "undefined") then Some (js "sk-0") else None)
                (fun _ => Llm.Rejected (Llm.Error (js "offline")))
                (js "dialogue") (js "prompt") (js "constructor")) as (_ & _ & H).
    destruct (H {| Llm.url := js "undefined";
                   Llm.authorization := js "Bearer sk-0";
                   Llm.model := None;
                   Llm.messages := [ {| Llm.role := js "system"; Llm.text := js "prompt" |};
                                     {| Llm.role := js "user"; Llm.text := js "dialogue" |} ];
                   Llm.temperature := (7 # 10)%Q;
                   Llm.max_tokens := 8192%N;
                   Llm.json_object := false |})
      as [(config & key & H1 & _) | (key & H1 & H2 & _)].
    + vm_compute. left. reflexivity.
    + vm_compute in H1. discriminate H1.
    + exists key. split; assumption.
Defined.

(** Literals are compared as they are written. *)
Opaque JsString.js.

Lemma Error_not_abort msg :
  eqb (Llm.errName (Llm.Error msg)) (js "AbortError") = false.
Proof. unfold Llm.Error. cbn [Llm.errName]. vm_compute. reflexivity. Qed.

Lemma wrapped_is_normalized modelKey cause :
  Llm.errName (Llm.Error (js "调用失败: " ++ cause)) = js "Error" /\
  normalizedMessage modelKey (Llm.message (Llm.Error (js "调用失败: " ++ cause))).
Proof.
  split; [reflexivity|]. unfold normalizedMessage. right; right; right; right.
  exists cause. reflexivity.
Qed.

Lemma timeout_is_normalized modelKey :
  Llm.errName (Llm.Error (js "请求超时")) = js "Error" /\
  normalizedMessage modelKey (Llm.message (Llm.Error (js "请求超时"))).
Proof.
  split; [reflexivity|]. unfold normalizedMessage. right; right; right; left. reflexivity.
Qed.

Lemma error_name_not_abort : js "Error" <> js "AbortError".
Proof. apply eqb_neq. vm_compute. reflexivity. Qed.

(** The [catch] of [generateSummary] turns every failure of the attempt
    into a timeout or a wrapped message. *)
Lemma caught_is_normalized modelKey (attempt : Llm.Outcome jsstring) e :
  match attempt with
  | Llm.Return c => Llm.Return c
  | Llm.Raise e0 =>
    if eqb (Llm.errName e0) (js "AbortError")
    then Llm.Raise (Llm.Error (js "请求超时"))
    else Llm.Raise (Llm.Error (js "调用失败: " ++ Llm.message e0))
  end = Llm.Raise e ->
  Llm.errName e = js "Error" /\ normalizedMessage modelKey (Llm.message e).
Proof.
  destruct attempt as [c | e0]; [discriminate|].
  destruct (eqb (Llm.errName e0) (js "AbortError")); intros [= <-].
  - apply timeout_is_normalized.
  - apply wrapped_is_normalized.
Qed.

(** The [catch] of [callLLM] lets no [AbortError] through. *)
Lemma caught_is_not_abort (A : Type) (h : jsstring -> A)
      (attempt : Llm.Outcome jsstring) e :
  match
    match attempt with
    | Llm.Return c => Llm.Return c
    | Llm.Raise e0 =>
      if eqb (Llm.errName e0) (js "AbortError")
      then Llm.Raise (Llm.Error (js "Request timeout"))
      else Llm.Raise e0
    end
  with
  | Llm.Return c => Llm.Return (h c)
  | Llm.Raise e1 => Llm.Raise e1
  end = Llm.Raise e ->
  Llm.errName e <> js "AbortError".
Proof.
  destruct attempt as [c | e0]; [discriminate|].
  destruct (eqb (Llm.errName e0) (js "AbortError")) eqn:Ha; intros [= <-].
  - exact error_name_not_abort.
  - now apply eqb_neq.
Qed.

(** How failures surface.  [generateSummary] only ever fails with a plain
    [Error] whose message is the unsupported-model message, the missing-key
    message (naming the model's variable, or undefined for a model key that
    is an inherited property name), the timeout message or the text
    [调用失败: ] followed by the cause.  The engine's [generate] passes
    upstream errors through, but never an [AbortError]: a timeout is always
    reported as a new [Error]. *)
Theorem failures_are_normalized
        (env : jsstring -> option jsstring) (fetch : Llm.Request -> Llm.Fetched)
        (data prompt modelKey : jsstring) (e : Llm.JsError) :
  (snd (Llm.generateSummary env fetch data prompt modelKey) = Llm.Raise e ->
   Llm.errName e = js "Error" /\ normalizedMessage modelKey (Llm.message e)) /\
  (snd (EngineLlm.generate env fetch data prompt (Some modelKey)) = Llm.Raise e ->
   Llm.errName e <> js "AbortError").
Proof.
  split.
  - unfold Llm.generateSummary, Llm.getModelConfig.
    destruct (lookup_cases modelKey)
      as [(config & Hm & ->) | [(Hm & Hi & ->) | (Hm & Hi & ->)]];
      cbn [Llm.field Llm.str].
    + destruct (Llm.apiKeyAt env (Llm.apiKeyEnv config)) as [key|] eqn:Hk; cbn [snd].
      * apply caught_is_normalized.
      * intros [= <-]. split; [reflexivity|]. right; left. eauto.
    + destruct (Llm.apiKeyAt env (js "undefined")) as [key|] eqn:Hk; cbn [snd].
      * apply caught_is_normalized.
      * intros [= <-]. split; [reflexivity|]. right; right; left.
        split; [split; assumption | reflexivity].
    + cbn [snd]. intros [= <-]. split; [reflexivity|]. left. reflexivity.
  - unfold EngineLlm.generate, EngineLlm.callLLM, EngineLlm.getModelConfig.
    rewrite engine_models_same.
    destruct (lookup_cases modelKey)
      as [(config & Hm & ->) | [(Hm & Hi & ->) | (Hm & Hi & ->)]];
      cbn [Llm.field Llm.str].
    + destruct (Llm.apiKeyAt env (Llm.apiKeyEnv config)) as [key|] eqn:Hk; cbn [snd].
      * apply caught_is_not_abort.
      * intros [= <-]. exact error_name_not_abort.
    + destruct (Llm.apiKeyAt env (js "undefined")) as [key|] eqn:Hk; cbn [snd].
      * apply caught_is_not_abort.
      * intros [= <-]. exact error_name_not_abort.
    + cbn [snd]. intros [= <-]. exact error_name_not_abort.
Qed.

Lemma failures_are_normalized_witness :
  normalizedMessage (js "constructor") (js "未设置 API Key: undefined").
Proof.
  destruct (failures_are_normalized (fun _ => None)
              (fun _ => Llm.Rejected (Llm.Error (js "offline")))
              (js "dialogue") (js "prompt") (js "constructor")
              (Llm.Error (js "未设置 API Key: undefined")))
    as [H _].
  assert (Hfail : snd (Llm.generateSummary (fun _ => None)
                         (fun _ => Llm.Rejected (Llm.Error (js "offline")))
                         (js "dialogue") (js "prompt") (js "constructor")) =
                  Llm.Raise (Llm.Error (js "未设置 API Key: undefined")))
    by (vm_compute; reflexivity).
  exact (proj2 (H Hfail)).
Defined.

(** What an upstream response becomes, for a registered model with its key
    set.  A non-2xx response fails with the status and the body in the
    message ([generateSummary] wraps it once more in [调用失败: ]); a 2xx
    response with a first choice returns that choice's content, and
    [generate] returns it together with the model key that was asked for. *)
Theorem upstream_response_outcomes
        (env : jsstring -> option jsstring) (fetch : Llm.Request -> Llm.Fetched)
        (data prompt modelKey key : jsstring) (config : Llm.ModelConfig)
        (r : Llm.Response) :
  get Llm.MODELS modelKey = Some config ->
  Llm.apiKeyOf env config = Some key ->
  let req := generationRequest config key data prompt in
  fetch req = Llm.Responded r ->
  (Llm.ok r = false ->
   Llm.generateSummary env fetch data prompt modelKey =
     ([req], Llm.Raise (Llm.Error (js "调用失败: " ++ js "API 错误: " ++
                                     JsString.of_nat (Llm.status r) ++ js " - " ++
                                     Llm.bodyText r))) /\
   EngineLlm.generate env fetch data prompt (Some modelKey) =
     ([req], Llm.Raise (Llm.Error (js "API Error: " ++
                                     JsString.of_nat (Llm.status r) ++ js " - " ++
                                     Llm.bodyText r)))) /\
  (forall c rest,
      Llm.ok r = true -> Llm.bodyJson r = Some (Some (c :: rest)) ->
      Llm.generateSummary env fetch data prompt modelKey = ([req], Llm.Return c) /\
      EngineLlm.generate env fetch data prompt (Some modelKey) =
        ([req], Llm.Return {| EngineLlm.genContent := c; EngineLlm.genModel := modelKey |})).
Proof.
  intros Hm Hk req Hf. subst req. apply lookup_registered in Hm.
  unfold Llm.generateSummary, EngineLlm.generate, EngineLlm.callLLM,
    Llm.getModelConfig, EngineLlm.getModelConfig.
  rewrite engine_models_same, Hm. cbn [Llm.field Llm.str].
  change (Llm.apiKeyAt env (Llm.apiKeyEnv config)) with (Llm.apiKeyOf env config).
  rewrite Hk. cbn [EngineLlm.optTemperature EngineLlm.maxTokens
                   EngineLlm.responseFormat].
  fold (generationRequest config key data prompt). rewrite Hf.
  split.
  - intros Hok. rewrite Hok. cbn [negb]. rewrite !Error_not_abort. split; reflexivity.
  - intros c rest Hok Hb. rewrite Hok, Hb. cbn [negb]. split; reflexivity.
Qed.

Lemma upstream_response_outcomes_witness :
  let env := fun v => if eqb v (js "DEEPSEEK_API_KEY") then Some (js "sk-2") else None in
  let fetch := fun _ : Llm.Request =>
                 Llm.Responded {| Llm.ok := true; Llm.status := 200; Llm.bodyText := js "{}";
                                  Llm.bodyJson := Some (Some [js "summary"]);
                                  Llm.jsonError := Llm.Error (js "") |} in
  snd (Llm.generateSummary env fetch (js "dialogue") (js "prompt") (js "deepseek-v3"))
  = Llm.Return (js "summary").
Proof.
  cbv zeta.
  destruct (upstream_response_outcomes
              (fun v => if eqb v (js "DEEPSEEK_API_KEY") then Some (js "sk-2") else None)
              (fun _ : Llm.Request =>
                 Llm.Responded {| Llm.ok := true; Llm.status := 200; Llm.bodyText := js "{}";
                                  Llm.bodyJson := Some (Some [js "summary"]);
                                  Llm.jsonError := Llm.Error (js "") |})
              (js "dialogue") (js "prompt") (js "deepseek-v3") (js "sk-2")
              {| Llm.name := js "DeepSeek V3"; Llm.provider := js "deepseek";
                 Llm.apiKeyEnv := js "DEEPSEEK_API_KEY";
                 Llm.endpoint := js "https://api.deepseek.com/v1/chat/completions";
                 Llm.modelName := js "deepseek-chat" |}
              {| Llm.ok := true; Llm.status := 200; Llm.bodyText := js "{}";
                 Llm.bodyJson := Some (Some [js "summary"]);
                 Llm.jsonError := Llm.Error (js "") |}) as [_ H].
  - reflexivity.
  - reflexivity.
  - reflexivity.
  - destruct (H (js "summary") []) as [H1 _]; [reflexivity | reflexivity |].
    rewrite H1. reflexivity.
Defined.

(* ================================================================== *)
(** * Properties of the logger *)
(* ================================================================== *)

Section LoggerFacts.
Import Logs LoggerOps.

Lemma sliceFrom_zero (A : Type) (l : list A) : sliceFrom 0 l = l.
Proof.
  unfold sliceFrom. simpl.
  replace (Z.to_nat (Z.min 0 (Z.of_nat (List.length l)))) with 0 by lia.
  reflexivity.
Qed.

Lemma sliceFrom_last (A : Type) (n : Z) (l : list A) :
  (0 < n)%Z -> sliceFrom (- n) l = skipn (List.length l - Z.to_nat n) l.
Proof.
  intros Hn. unfold sliceFrom.
  destruct (Z.ltb_spec (- n) 0); [|lia].
  f_equal. lia.
Qed.

Lemma sliceFrom_drop (A : Type) (n : Z) (l : list A) :
  (n < 0)%Z -> sliceFrom (- n) l = skipn (Z.to_nat (- n)) l.
Proof.
  intros Hn. unfold sliceFrom.
  destruct (Z.ltb_spec (- n) 0); [lia|].
  destruct (Z.le_gt_cases (- n) (Z.of_nat (List.length l))).
  - f_equal. lia.
  - rewrite !skipn_all2 by lia. reflexivity.
Qed.

Lemma tally_nil acc : tally acc [] = acc.
Proof.
  destruct acc as [[t s e a] d]. unfold tally, countZ, sumZ. simpl.
  rewrite !Z.add_0_r. reflexivity.
Qed.

Lemma sumZ_app a b : sumZ (a ++ b) = (sumZ a + sumZ b)%Z.
Proof. induction a as [|x a IH]; simpl; [reflexivity | rewrite IH; lia]. Qed.

Lemma countZ_app (A : Type) (p : A -> bool) a b :
  countZ p (a ++ b) = (countZ p a + countZ p b)%Z.
Proof. unfold countZ. rewrite filter_app, length_app. lia. Qed.

Lemma tally_app acc a b : tally (tally acc a) b = tally acc (a ++ b).
Proof.
  unfold tally. cbn [fst snd totalCommands successCount errorCount avgDuration].
  rewrite !countZ_app, map_app, sumZ_app, length_app.
  f_equal; [f_equal|]; lia.
Qed.

Lemma countLine_tally parse commandFilter acc line :
  countLine parse commandFilter acc line =
  tally acc (List.filter (selects commandFilter) (parsed parse line)).
Proof.
  unfold countLine, parsed.
  destruct (parse line) as [e|]; [|now rewrite tally_nil].
  cbn [List.filter].
  assert (Hsel : selects commandFilter e =
                 negb match commandFilter with
                      | Some (c :: f) => negb (eqb (command e) (c :: f))
                      | _ => false
                      end).
  { unfold selects, given, valueOf. destruct commandFilter as [[|c f]|]; simpl;
      try reflexivity. now rewrite negb_involutive. }
  rewrite Hsel.
  destruct (match commandFilter with
            | Some (c :: f) => negb (eqb (command e) (c :: f))
            | _ => false
            end); cbn [negb]; [now rewrite tally_nil|].
  destruct acc as [[t s r a] d].
  unfold tally, countZ, sumZ, hasStatus, durationOf.
  cbn [fst snd totalCommands successCount errorCount avgDuration List.filter map fold_right
       List.length].
  destruct (eqb (status e) (js "success")), (eqb (status e) (js "error"));
    cbn [totalCommands successCount errorCount avgDuration List.length];
    (destruct (duration e) as [d0|]; [destruct (Z.eqb_spec d0 0)|]);
    repeat f_equal; lia.
Qed.

Lemma countLines_tally parse commandFilter lines acc :
  fold_left (countLine parse commandFilter) lines acc =
  tally acc (List.filter (selects commandFilter) (flat_map (parsed parse) lines)).
Proof.
  revert acc. induction lines as [|l lines IH]; intros acc; simpl.
  - now rewrite tally_nil.
  - rewrite IH, countLine_tally, tally_app, filter_app. reflexivity.
Qed.

Lemma countFiles_tally parse commandFilter (files : obj jsstring) acc :
  fold_left (fun (a : Acc) (file : jsstring * jsstring) =>
               fold_left (countLine parse commandFilter) (linesOf (snd file)) a)
            files acc =
  tally acc (List.filter (selects commandFilter) (entriesOf parse files)).
Proof.
  revert acc. induction files as [|f files IH]; intros acc; simpl.
  - now rewrite tally_nil.
  - rewrite IH, countLines_tally, tally_app, filter_app. reflexivity.
Qed.

Lemma success_is_not_error : eqb (js "success") (js "error") = false.
Proof. vm_compute. reflexivity. Qed.

Lemma status_counts_disjoint (es : list LogEntry) :
  (countZ (hasStatus (js "success")) es + countZ (hasStatus (js "error")) es
   <= Z.of_nat (List.length es))%Z.
Proof.
  unfold countZ. induction es as [|e es IH]; [simpl; lia|].
  cbn [List.filter List.length].
  change (hasStatus (js "success") e) with (eqb (status e) (js "success")).
  change (hasStatus (js "error") e) with (eqb (status e) (js "error")).
  destruct (eqb (status e) (js "success")) eqn:Es;
    destruct (eqb (status e) (js "error")) eqn:Ee; cbn [List.length]; try lia.
  apply eqb_eq in Es. rewrite Es, success_is_not_error in Ee. discriminate.
Qed.

Lemma getStats_tally parse dir commandFilter days :
  let es := List.filter (selects commandFilter)
                        (entriesOf parse (sliceFrom (- days) (logFiles dir))) in
  getStats parse (Some dir) commandFilter days =
  {| totalCommands := Z.of_nat (List.length es);
     successCount := countZ (hasStatus (js "success")) es;
     errorCount := countZ (hasStatus (js "error")) es;
     avgDuration := match es with
                    | [] => 0%Z
                    | _ => roundDiv (sumZ (map durationOf es)) (Z.of_nat (List.length es))
                    end |}.
Proof.
  intros es. unfold getStats. fold (logFiles dir).
  rewrite countFiles_tally. fold es.
  unfold tally. cbn [fst snd totalCommands successCount errorCount avgDuration].
  rewrite !Z.add_0_l. f_equal.
  destruct es as [|e es']; [reflexivity|].
  cbn [List.length]. destruct (Z.ltb_spec 0 (Z.of_nat (S (List.length es')))); [reflexivity|lia].
Qed.

(** What [getStats] counts.  The files read are the [.jsonl] files of the
    commands directory cut by [slice(-days)]; the entries counted are the
    lines of these files that parse and, when a command is given, carry that
    command.  [totalCommands] is their number, [successCount] and
    [errorCount] the numbers of those with status success and error.  So the
    counters are never negative, success and error together never exceed the
    total, and an empty selection gives 0 for the mean.  When no duration
    is negative and their sum is below 2^52, where the doubles of the code
    are exact, [avgDuration] is the mean of the durations rounded to the
    nearest integer, halves up (a missing duration counting as 0). *)
Theorem getStats_counts
        (parse : jsstring -> option LogEntry) (dir : obj jsstring)
        (commandFilter : option jsstring) (days : Z) :
  let es := List.filter (selects commandFilter)
                        (entriesOf parse (sliceFrom (- days) (logFiles dir))) in
  let s := getStats parse (Some dir) commandFilter days in
  totalCommands s = Z.of_nat (List.length es) /\
  successCount s = countZ (hasStatus (js "success")) es /\
  errorCount s = countZ (hasStatus (js "error")) es /\
  countersConsistent s /\
  (exactInDoubles es ->
   avgDuration s = match es with
                   | [] => 0%Z
                   | _ => roundDiv (sumZ (map durationOf es)) (Z.of_nat (List.length es))
                   end).
Proof.
  intros es s. subst s. rewrite getStats_tally. fold es. clearbody es.
  unfold countersConsistent. simpl.
  repeat split; try reflexivity.
  - unfold countZ. lia.
  - unfold countZ. lia.
  - apply status_counts_disjoint.
  - destruct es; [reflexivity | simpl; lia].
Qed.

Lemma getStats_counts_witness :
  avgDuration
    (getStats (fun line => Some {| command := js "generate"; status := js "success";
                                   duration := Some (Z.of_nat (List.length line)) |})
              (Some [(js "generate_2024-01-01.jsonl", js "ab" ++ [10%N] ++ js "abc")])
              None 7) = 3%Z.
Proof.
  destruct (getStats_counts
              (fun line => Some {| command := js "generate"; status := js "success";
                                   duration := Some (Z.of_nat (List.length line)) |})
              [(js "generate_2024-01-01.jsonl", js "ab" ++ [10%N] ++ js "abc")]
              None 7) as (_ & _ & _ & _ & H).
  etransitivity; [apply H | vm_compute; reflexivity].
  unfold exactInDoubles. vm_compute. repeat split; try discriminate.
  repeat constructor; discriminate.
Defined.

Lemma In_skipn_In (A : Type) (k : nat) (l : list A) x : In x (skipn k l) -> In x l.
Proof.
  intros H. rewrite <- (firstn_skipn k l). apply in_or_app. now right.
Qed.

Lemma filter_all (A : Type) (p : A -> bool) (l : list A) :
  (forall x, In x l -> p x = true) -> List.filter p l = l.
Proof.
  induction l as [|a l IH]; intros H; simpl; [reflexivity|].
  rewrite (H a (or_introl eq_refl)). f_equal. apply IH. intros x Hx. apply H. now right.
Qed.

Lemma logFiles_skipn (dir : obj jsstring) k :
  logFiles (skipn k (logFiles dir)) = skipn k (logFiles dir).
Proof.
  unfold logFiles at 1. apply filter_all. intros x Hx.
  apply In_skipn_In in Hx. unfold logFiles in Hx. apply filter_In in Hx. tauto.
Qed.

Lemma getStats_of_files parse dir commandFilter days files :
  sliceFrom (- days) (logFiles dir) = files ->
  logFiles files = files ->
  getStats parse (Some dir) commandFilter days = getStats parse (Some files) commandFilter 0.
Proof.
  intros Hs Hf. rewrite !getStats_tally. cbv zeta.
  change (- 0)%Z with 0%Z. rewrite sliceFrom_zero, Hf, Hs. reflexivity.
Qed.

(** The [days] argument of [getStats] is a number of files, not of days.  A
    positive value keeps the last [days] log files of the directory listing,
    whatever their dates and commands; 0 keeps every file, and so does any
    value that is at least the number of log files; a negative value drops
    the first [-days] files and keeps the rest. *)
Theorem getStats_window
        (parse : jsstring -> option LogEntry) (dir : obj jsstring)
        (commandFilter : option jsstring) (days : Z) :
  let files := logFiles dir in
  let n := List.length files in
  let reading kept := getStats parse (Some kept) commandFilter 0 in
  totalCommands (reading files) =
    Z.of_nat (List.length (List.filter (selects commandFilter) (entriesOf parse files))) /\
  (days = 0%Z \/ (Z.of_nat n <= days)%Z ->
   getStats parse (Some dir) commandFilter days = reading files) /\
  ((0 < days)%Z ->
   getStats parse (Some dir) commandFilter days = reading (skipn (n - Z.to_nat days) files)) /\
  ((days < 0)%Z ->
   getStats parse (Some dir) commandFilter days = reading (skipn (Z.to_nat (- days)) files)).
Proof.
  intros files n reading. subst reading. cbv beta.
  assert (Hidem : logFiles files = files).
  { apply (logFiles_skipn dir 0). }
  repeat split.
  - rewrite getStats_tally. cbv zeta. cbn [totalCommands].
    change (- 0)%Z with 0%Z. now rewrite sliceFrom_zero, Hidem.
  - intros [-> | Hge].
    + apply getStats_of_files; [apply sliceFrom_zero | exact Hidem].
    + apply getStats_of_files; [|exact Hidem].
      destruct (Z.eq_dec days 0) as [-> | Hnz]; [apply sliceFrom_zero|].
      rewrite sliceFrom_last by lia. fold files. fold n.
      replace (n - Z.to_nat days) with 0 by lia. reflexivity.
  - intros Hpos. apply getStats_of_files.
    + now apply sliceFrom_last.
    + apply logFiles_skipn.
  - intros Hneg. apply getStats_of_files.
    + now apply sliceFrom_drop.
    + apply logFiles_skipn.
Qed.

Lemma getStats_window_witness :
  getStats (fun _ => Some {| command := js "generate"; status := js "success";
                             duration := Some 40%Z |})
           (Some [(js "generate_2024-01-01.jsonl", js "a"); (js "notes.txt", js "b");
                  (js "generate_2024-01-02.jsonl", js "c")])
           None 1 =
  {| totalCommands := 1; successCount := 1; errorCount := 0; avgDuration := 40 |}%Z.
Proof.
  destruct (getStats_window
              (fun _ => Some {| command := js "generate"; status := js "success";
                                duration := Some 40%Z |})
              [(js "generate_2024-01-01.jsonl", js "a"); (js "notes.txt", js "b");
               (js "generate_2024-01-02.jsonl", js "c")]
              None 1) as (_ & _ & H & _).
  etransitivity; [apply H; lia | vm_compute; reflexivity].
Defined.

Lemma pushLine_app parse filters results line :
  pushLine parse filters results line =
  results ++ List.filter (passes filters) (parsed parse line).
Proof.
  unfold pushLine, parsed. destruct (parse line) as [e|]; simpl.
  - destruct (passes filters e); [reflexivity | now rewrite app_nil_r].
  - now rewrite app_nil_r.
Qed.

Lemma pushLines_app parse filters lines results :
  fold_left (pushLine parse filters) lines results =
  results ++ List.filter (passes filters) (flat_map (parsed parse) lines).
Proof.
  revert results. induction lines as [|l lines IH]; intros results; simpl.
  - now rewrite app_nil_r.
  - rewrite IH, pushLine_app, filter_app, app_assoc. reflexivity.
Qed.

Lemma matching_filter parse dir filters :
  matching parse (Some dir) filters =
  List.filter (passes filters) (entriesOf parse (logFiles dir)).
Proof.
  unfold matching. fold (logFiles dir).
  assert (H : forall (files : obj jsstring) results,
             fold_left (fun results (file : jsstring * jsstring) =>
                          fold_left (pushLine parse filters) (linesOf (snd file)) results)
                       files results =
             results ++ List.filter (passes filters) (entriesOf parse files)).
  { induction files as [|f files IH]; intros results; simpl.
    - now rewrite app_nil_r.
    - rewrite IH, pushLines_app, filter_app, app_assoc. reflexivity. }
  now rewrite H.
Qed.

Lemma limitOf_nonzero filters : limitOf filters <> 0%Z.
Proof.
  unfold limitOf. destruct (limit filters) as [l|]; [|discriminate].
  destruct (Z.eqb_spec l 0); [discriminate | assumption].
Qed.

(** What [query] returns.  With [all] the entries of the log files that
    pass the filters, in the order of the files and of their lines: a
    positive limit [n] gives the last [n] of them (all of them when there
    are fewer); no limit, or the limit 0, stands for 100; a negative limit
    [-k] drops the first [k] and returns all the others, however many.  A
    missing directory gives the empty list. *)
Theorem query_returns_latest_matches
        (parse : jsstring -> option Stamped) (dir : obj jsstring) (filters : Filters) :
  let all := List.filter (passes filters) (entriesOf parse (logFiles dir)) in
  let n := limitOf filters in
  query parse None filters = [] /\
  ((0 < n)%Z ->
   query parse (Some dir) filters = skipn (List.length all - Z.to_nat n) all /\
   List.length (query parse (Some dir) filters) = Nat.min (List.length all) (Z.to_nat n)) /\
  ((n < 0)%Z -> query parse (Some dir) filters = skipn (Z.to_nat (- n)) all) /\
  (limit filters = None \/ limit filters = Some 0%Z -> n = 100%Z) /\
  (forall l, limit filters = Some l -> l <> 0%Z -> n = l).
Proof.
  intros all n. unfold query. rewrite matching_filter. fold all. fold n.
  repeat split.
  - now apply sliceFrom_last.
  - rewrite sliceFrom_last by assumption. rewrite length_skipn. lia.
  - intros Hn. now apply sliceFrom_drop.
  - subst n. unfold limitOf. intros [-> | ->]; reflexivity.
  - intros l Hl Hnz. subst n. unfold limitOf. rewrite Hl.
    destruct (Z.eqb_spec l 0); [contradiction | reflexivity].
Qed.

Lemma ltb_false_not_Lt a b : ltb a b = false -> JsString.compare a b <> Lt.
Proof. unfold ltb. destruct (JsString.compare a b); congruence. Qed.

Lemma given_Some (c : jsstring) : c <> [] -> given (Some c) = true.
Proof. destruct c; [congruence | reflexivity]. Qed.

(** Every entry [query] returns was parsed from a line of a [.jsonl] file of
    the commands directory and satisfies each filter that is given and not
    empty: it has the asked command and status, and its timestamp is neither
    before [startDate] nor after [endDate] in code-unit order. *)
Theorem query_results_pass_filters
        (parse : jsstring -> option Stamped) (commandsDir : option (obj jsstring))
        (filters : Filters) (e : Stamped) :
  In e (query parse commandsDir filters) ->
  (exists dir file line,
      commandsDir = Some dir /\ In file dir /\
      endsWith (fst file) (js ".jsonl") = true /\
      In line (linesOf (snd file)) /\ parse line = Some e) /\
  (forall c, byCommand filters = Some c -> c <> [] -> command (entry e) = c) /\
  (forall s, byStatus filters = Some s -> s <> [] -> status (entry e) = s) /\
  (forall d, startDate filters = Some d -> d <> [] ->
             JsString.compare (timestamp e) d <> Lt) /\
  (forall d, endDate filters = Some d -> d <> [] ->
             JsString.compare d (timestamp e) <> Lt).
Proof.
  unfold query. destruct commandsDir as [dir|]; [|contradiction].
  intros Hin.
  assert (Hall : In e (List.filter (passes filters) (entriesOf parse (logFiles dir)))).
  { rewrite <- matching_filter. unfold sliceFrom in Hin. now apply In_skipn_In in Hin. }
  apply filter_In in Hall as [Hent Hpass].
  unfold passes in Hpass.
  apply andb_true_iff in Hpass as [Hpass Hend].
  apply andb_true_iff in Hpass as [Hpass Hstart].
  apply andb_true_iff in Hpass as [Hcmd Hst].
  apply negb_true_iff in Hcmd, Hst, Hstart, Hend.
  split; [|repeat split].
  - unfold entriesOf in Hent. apply in_flat_map in Hent as (file & Hfile & Hent).
    apply in_flat_map in Hent as (line & Hline & Hent).
    unfold parsed in Hent. destruct (parse line) as [e'|] eqn:Hp; [|contradiction].
    destruct Hent as [-> | []].
    unfold logFiles in Hfile. apply filter_In in Hfile as [Hfile Hname].
    exists dir, file, line. auto.
  - intros c Hc Hne. rewrite Hc, (given_Some c Hne) in Hcmd. simpl in Hcmd.
    apply negb_false_iff in Hcmd. now apply eqb_eq in Hcmd.
  - intros s Hs Hne. rewrite Hs, (given_Some s Hne) in Hst. simpl in Hst.
    apply negb_false_iff in Hst. now apply eqb_eq in Hst.
  - intros d Hd Hne. rewrite Hd, (given_Some d Hne) in Hstart. simpl in Hstart.
    now apply ltb_false_not_Lt.
  - intros d Hd Hne. rewrite Hd, (given_Some d Hne) in Hend. simpl in Hend.
    now apply ltb_false_not_Lt.
Qed.

Lemma query_results_pass_filters_witness :
  command (entry {| timestamp := js "2024-01-02T10:00:00.000Z";
                    entry := {| command := js "generate"; status := js "success";
                                duration := None |} |}) = js "generate".
Proof.
  destruct (query_results_pass_filters
              (fun line => Some {| timestamp := line;
                                   entry := {| command := js "generate";
                                               status := js "success";
                                               duration := None |} |})
              (Some [(js "generate_2024-01-02.jsonl", js "2024-01-02T10:00:00.000Z")])
              {| byCommand := Some (js "generate"); byStatus := None;
                 startDate := Some (js "2024-01-01"); endDate := None; limit := None |}
              {| timestamp := js "2024-01-02T10:00:00.000Z";
                 entry := {| command := js "generate"; status := js "success";
                             duration := None |} |})
    as (_ & H & _).
  - vm_compute. left. reflexivity.
  - apply H; [reflexivity | vm_compute; discriminate].
Defined.

Lemma split_on_nonempty sep s : split_on sep s <> [].
Proof.
  destruct s as [|c s]; simpl; [discriminate|].
  destruct (c =? sep)%N; [discriminate|].
  destruct (split_on sep s); discriminate.
Qed.

Lemma split_on_app_sep sep a b :
  split_on sep (a ++ sep :: b) = split_on sep a ++ split_on sep b.
Proof.
  induction a as [|c a IH]; simpl.
  - now rewrite N.eqb_refl.
  - destruct (c =? sep)%N; [now rewrite IH|].
    rewrite IH. destruct (split_on sep a) as [|w ws] eqn:E; [|reflexivity].
    now apply split_on_nonempty in E.
Qed.

Lemma split_on_no_sep sep s : ~ In sep s -> split_on sep s = [s].
Proof.
  induction s as [|c s IH]; simpl; intros H; [reflexivity|].
  destruct (N.eqb_spec c sep) as [-> | Hne]; [tauto|].
  rewrite IH by tauto. reflexivity.
Qed.

Lemma linesOf_app_lf a b : linesOf (a ++ 10%N :: b) = linesOf a ++ linesOf b.
Proof. unfold linesOf. now rewrite split_on_app_sep, filter_app. Qed.

Lemma linesOf_line line : line <> [] -> ~ In 10%N line -> linesOf line = [line].
Proof.
  intros Hne Hlf. unfold linesOf. rewrite split_on_no_sep by assumption.
  destruct line; [contradiction | reflexivity].
Qed.

Lemma linesOf_line_lf line :
  line <> [] -> ~ In 10%N line -> linesOf (line ++ [10%N]) = [line].
Proof.
  intros Hne Hlf. rewrite linesOf_app_lf, (linesOf_line line Hne Hlf). reflexivity.
Qed.

(** Appending a line to a text of whole lines adds exactly that line. *)
Lemma linesOf_append old line :
  wholeLines old -> line <> [] -> ~ In 10%N line ->
  linesOf (old ++ line ++ [10%N]) = linesOf old ++ [line].
Proof.
  intros Hold Hne Hlf.
  assert (Hl : linesOf (line ++ [10%N]) = [line]).
  { rewrite linesOf_app_lf, (linesOf_line line Hne Hlf). reflexivity. }
  destruct Hold as [-> | [t ->]].
  - simpl app at 1. rewrite Hl. reflexivity.
  - replace ((t ++ [10%N]) ++ line ++ [10%N]) with (t ++ 10%N :: (line ++ [10%N]))
      by now rewrite <- app_assoc.
    rewrite (linesOf_app_lf t (line ++ [10%N])), (linesOf_app_lf t []), Hl.
    change (linesOf []) with (@nil jsstring). now rewrite app_nil_r.
Qed.

Lemma appendFile_cons_other (k file text v : jsstring) (files : obj jsstring) :
  eqb k file = false ->
  appendFile ((k, v) :: files) file text = (k, v) :: appendFile files file text.
Proof.
  intros E. unfold appendFile. simpl. rewrite E.
  destruct (get files file); reflexivity.
Qed.

Lemma appendFile_cons_same (k file text v : jsstring) (files : obj jsstring) :
  eqb k file = true ->
  appendFile ((k, v) :: files) file text = (k, v ++ text) :: files.
Proof. intros E. unfold appendFile. simpl. now rewrite E. Qed.

Lemma get_appendFile_same (files : obj jsstring) file text :
  get (appendFile files file text) file = Some (valueOf (get files file) ++ text).
Proof.
  unfold appendFile. destruct (get files file); simpl; apply get_set_same.
Qed.

Lemma get_appendFile_other (files : obj jsstring) file text other :
  other <> file -> get (appendFile files file text) other = get files other.
Proof.
  intros H. unfold appendFile. destruct (get files file); now apply get_set_other.
Qed.

Lemma logFile_is_log command date : endsWith (logFile command date) (js ".jsonl") = true.
Proof.
  unfold logFile. rewrite !app_assoc. apply endsWith_app.
Qed.

(** The entries read after a line was appended to a log file: the entries
    read before, with the entries of the new line put in at the end of that
    file's own. *)
Lemma entriesOf_appendFile (A : Type) (parse : jsstring -> option A)
      (files : obj jsstring) file line :
  endsWith file (js ".jsonl") = true ->
  (forall old, get files file = Some old -> wholeLines old) ->
  line <> [] -> ~ In 10%N line ->
  exists pre post,
    entriesOf parse (logFiles files) = pre ++ post /\
    entriesOf parse (logFiles (appendFile files file (line ++ [10%N]))) =
      pre ++ parsed parse line ++ post.
Proof.
  intros Hlog Hold Hne Hlf.
  induction files as [|[k v] files IH].
  - exists [], []. split; [reflexivity|].
    unfold appendFile. simpl. rewrite Hlog. simpl.
    rewrite (linesOf_line_lf line Hne Hlf). simpl.
    now rewrite !app_nil_r.
  - destruct (eqb k file) eqn:E.
    + rewrite (appendFile_cons_same _ _ _ _ _ E).
      apply eqb_eq in E. subst k.
      assert (Hv : wholeLines v).
      { apply Hold. simpl. now rewrite eqb_refl. }
      exists (flat_map (parsed parse) (linesOf v)), (entriesOf parse (logFiles files)).
      unfold logFiles. simpl. rewrite Hlog. simpl. split; [reflexivity|].
      rewrite (linesOf_append v line Hv Hne Hlf), flat_map_app. simpl.
      rewrite app_nil_r, <- app_assoc. reflexivity.
    + rewrite (appendFile_cons_other _ _ _ _ _ E).
      destruct IH as (pre & post & H1 & H2).
      { intros old Ho. apply Hold. simpl. now rewrite E. }
      unfold logFiles in *. simpl. destruct (endsWith k (js ".jsonl")).
      * exists (flat_map (parsed parse) (linesOf v) ++ pre), post. simpl.
        unfold entriesOf in *. simpl. rewrite H1, H2, <- !app_assoc. split; reflexivity.
      * exists pre, post. split; assumption.
Qed.

Lemma finish_started (Json : Type) (stringify : Entry Json -> jsstring)
      (l : Logger Json) (begun ended : Clock) (command : jsstring)
      (arguments : list jsstring) (opts : Json) (ok : bool)
      (result : option Json) (failure : option jsstring) :
  finish stringify (start l begun command arguments opts) ended ok result failure =
  if inDirectory (logFile command (dateOf (nowIso ended)))
  then Some {| currentLog := None;
               startTime := nowMs begun;
               commandFiles :=
                 appendFile (commandFiles l) (logFile command (dateOf (nowIso ended)))
                            (stringify (finished begun ended command arguments opts
                                                 ok result failure) ++ [10%N]) |}
  else None.
Proof.
  unfold finish, start, save, finished.
  cbn [currentLog startTime commandFiles name stamp args options].
  destruct (inDirectory (logFile command (dateOf (nowIso ended)))); reflexivity.
Qed.

(** The life of a log entry.  [start] followed by [end] appends exactly one
    line to the file [<command>_<date>.jsonl], the date being that of the
    end, not of the start: the line is the entry with the start's timestamp,
    the outcome and the elapsed time.  Every other file is left as it is,
    and nothing stays pending: a second [end] changes nothing.  A command
    that was started and never ended leaves no trace once the next one
    starts. *)
Theorem command_log_lifecycle
        (Json : Type) (stringify : Entry Json -> jsstring)
        (l : Logger Json) (begun ended : Clock) (command : jsstring)
        (arguments : list jsstring) (opts : Json) (ok : bool)
        (result : option Json) (failure : option jsstring) :
  let file := logFile command (dateOf (nowIso ended)) in
  let line :=
    stringify (finished begun ended command arguments opts ok result failure)
      ++ [10%N] in
  inDirectory file = true ->
  exists l2,
    finish stringify (start l begun command arguments opts) ended ok result failure
      = Some l2 /\
    currentLog l2 = None /\
    get (commandFiles l2) file = Some (valueOf (get (commandFiles l) file) ++ line) /\
    (forall other, other <> file ->
                   get (commandFiles l2) other = get (commandFiles l) other) /\
    (forall clock ok' result' failure',
        finish stringify l2 clock ok' result' failure' = Some l2) /\
    (forall begun0 command0 arguments0 opts0,
        finish stringify
               (start (start l begun0 command0 arguments0 opts0)
                      begun command arguments opts)
               ended ok result failure = Some l2).
Proof.
  intros file line Hdir.
  eexists. split.
  { rewrite finish_started. fold file. rewrite Hdir. reflexivity. }
  cbn [currentLog commandFiles]. fold file. fold line.
  split; [reflexivity|].
  split; [apply get_appendFile_same|].
  split; [intros other Hne; now apply get_appendFile_other|].
  split; [reflexivity|].
  intros begun0 command0 arguments0 opts0.
  rewrite finish_started. fold file. rewrite Hdir. reflexivity.
Qed.

Lemma command_log_lifecycle_witness :
  exists l2 : Logger unit,
    finish (fun e => name e)
           (start {| currentLog := None; startTime := 0; commandFiles := [] |}
                  {| nowMs := 1000; nowIso := js "2024-01-01T23:59:59.000Z" |}
                  (js "generate") [] tt)
           {| nowMs := 4000; nowIso := js "2024-01-02T00:00:02.000Z" |}
           true None None = Some l2 /\
    get (commandFiles l2) (js "generate_2024-01-02.jsonl") = Some (js "generate" ++ [10%N]).
Proof.
  destruct (command_log_lifecycle
              unit (fun e => name e)
              {| currentLog := None; startTime := 0; commandFiles := [] |}
              {| nowMs := 1000; nowIso := js "2024-01-01T23:59:59.000Z" |}
              {| nowMs := 4000; nowIso := js "2024-01-02T00:00:02.000Z" |}
              (js "generate") [] tt true None None)
    as (l2 & H1 & _ & H2 & _).
  - vm_compute. reflexivity.
  - exists l2. split; [exact H1|].
    exact H2.
Defined.

Lemma error_is_not_success : eqb (js "error") (js "success") = false.
Proof. vm_compute. reflexivity. Qed.

Lemma countZ_insert (A : Type) (p : A -> bool) (pre post : list A) (x : A) :
  countZ p (pre ++ [x] ++ post) = (countZ p (pre ++ post) + if p x then 1 else 0)%Z.
Proof.
  unfold countZ. rewrite !filter_app, !length_app. simpl.
  destruct (p x); simpl; lia.
Qed.

Lemma filter_insert (A : Type) (p : A -> bool) (pre post : list A) (x : A) :
  List.filter p (pre ++ [x] ++ post) =
  List.filter p pre ++ (if p x then [x] else []) ++ List.filter p post.
Proof. rewrite !filter_app. simpl. destruct (p x); reflexivity. Qed.

(** A finished command is counted.  When the log file holds whole lines and
    the written line reads back as the entry (it is not empty, has no line
    feed, and parses to the entry's command, status and duration), [start]
    followed by [end] raises [totalCommands] of the statistics over all
    files by one, and [successCount] or [errorCount] by one according to the
    outcome; with a command filter that holds for the commands asked for,
    and the counters of the other commands do not move.  The file holds
    whole lines again afterwards. *)
Theorem finished_command_is_counted
        (Json : Type) (stringify : Entry Json -> jsstring)
        (parse : jsstring -> option LogEntry)
        (l l2 : Logger Json) (begun ended : Clock) (command : jsstring)
        (arguments : list jsstring) (opts : Json) (ok : bool)
        (result : option Json) (failure : option jsstring)
        (commandFilter : option jsstring) :
  let e := finished begun ended command arguments opts ok result failure in
  let file := logFile command (dateOf (nowIso ended)) in
  stringify e <> [] -> ~ In 10%N (stringify e) ->
  parse (stringify e) = Some (summaryOf e) ->
  (forall old, get (commandFiles l) file = Some old -> wholeLines old) ->
  finish stringify (start l begun command arguments opts) ended ok result failure
    = Some l2 ->
  let before := getStats parse (Some (commandFiles l)) commandFilter 0 in
  let after := getStats parse (Some (commandFiles l2)) commandFilter 0 in
  let k := if selects commandFilter (summaryOf e) then 1%Z else 0%Z in
  totalCommands after = (totalCommands before + k)%Z /\
  successCount after = (successCount before + if ok then k else 0)%Z /\
  errorCount after = (errorCount before + if ok then 0 else k)%Z /\
  (forall text, get (commandFiles l2) file = Some text -> wholeLines text).
Proof.
  intros e file Hne Hlf Hparse Hold Hfin before after k.
  rewrite finish_started in Hfin. fold file in Hfin. fold e in Hfin.
  destruct (inDirectory file); [|discriminate].
  injection Hfin as <-.
  destruct (entriesOf_appendFile LogEntry parse (commandFiles l) file (stringify e)
              (logFile_is_log _ _) Hold Hne Hlf) as (pre & post & Hpre & Hpost).
  unfold parsed in Hpost. rewrite Hparse in Hpost.
  subst before after. rewrite !getStats_tally. cbv zeta.
  cbn [totalCommands successCount errorCount commandFiles].
  change (- 0)%Z with 0%Z. rewrite !sliceFrom_zero, Hpre, Hpost.
  rewrite filter_insert. fold k.
  assert (Hk : forall p : LogEntry -> bool,
             countZ p (List.filter (selects commandFilter) pre ++
                       (if selects commandFilter (summaryOf e) then [summaryOf e] else []) ++
                       List.filter (selects commandFilter) post) =
             (countZ p (List.filter (selects commandFilter) (pre ++ post)) +
              if p (summaryOf e) then k else 0)%Z).
  { intros p. subst k. rewrite filter_app.
    destruct (selects commandFilter (summaryOf e)).
    - apply countZ_insert.
    - simpl. destruct (p (summaryOf e)); lia. }
  repeat split.
  - generalize (Hk (fun _ => true)). unfold countZ.
    rewrite !(filter_all _ (fun _ : LogEntry => true)) by reflexivity.
    intros ->. reflexivity.
  - rewrite Hk. f_equal. unfold hasStatus, summaryOf, e, finished. cbn [status state].
    destruct ok; [now rewrite eqb_refl | now rewrite error_is_not_success].
  - rewrite Hk. f_equal. unfold hasStatus, summaryOf, e, finished. cbn [status state].
    destruct ok; [now rewrite success_is_not_error | now rewrite eqb_refl].
  - intros text. rewrite get_appendFile_same. intros [= <-].
    right. exists (valueOf (get (commandFiles l) file) ++ stringify e).
    now rewrite <- app_assoc.
Qed.

Lemma finished_command_is_counted_witness :
  let stats :=
    getStats (fun _ => Some {| command := js "generate"; status := js "success";
                               duration := Some 3000%Z |})
             (Some [(js "generate_2024-01-02.jsonl", js "generate" ++ [10%N])])
             (Some (js "generate")) 0 in
  totalCommands stats = 1%Z /\ successCount stats = 1%Z /\ errorCount stats = 0%Z.
Proof.
  destruct (finished_command_is_counted
              unit (fun e => name e)
              (fun _ => Some {| command := js "generate"; status := js "success";
                                duration := Some 3000%Z |})
              {| currentLog := None; startTime := 0; commandFiles := [] |}
              {| currentLog := None; startTime := 1000;
                 commandFiles := [(js "generate_2024-01-02.jsonl",
                                   js "generate" ++ [10%N])] |}
              {| nowMs := 1000; nowIso := js "2024-01-01T23:59:59.000Z" |}
              {| nowMs := 4000; nowIso := js "2024-01-02T00:00:02.000Z" |}
              (js "generate") [] tt true None None (Some (js "generate")))
    as (H1 & H2 & H3 & _).
  - vm_compute. discriminate.
  - vm_compute. intuition discriminate.
  - vm_compute. reflexivity.
  - intros old H. discriminate H.
  - vm_compute. reflexivity.
  - cbv zeta. split; [|split].
    + etransitivity; [exact H1 | vm_compute; reflexivity].
    + etransitivity; [exact H2 | vm_compute; reflexivity].
    + etransitivity; [exact H3 | vm_compute; reflexivity].
Defined.

End LoggerFacts.

(* ================================================================== *)
(** * Properties of the saved outputs *)
(* ================================================================== *)

Section OutputFacts.
Import Outputs.

Lemma timestampOf_second iso1 iso2 :
  toTheSecond iso1 = toTheSecond iso2 -> timestampOf iso1 = timestampOf iso2.
Proof.
  unfold toTheSecond, timestampOf. intros H. rewrite !firstn_map, H. reflexivity.
Qed.

Lemma outputAt_saved outputs iso scene text :
  outputAt (fst (saveOutput outputs iso scene text)) (snd (saveOutput outputs iso scene text))
  = Some text.
Proof.
  unfold saveOutput, outputAt. cbn [fst snd].
  destruct (get outputs scene) as [dir|] eqn:E.
  - rewrite get_modify_same, E. cbn [option_map]. apply get_set_same.
  - rewrite get_modify_same, get_set_same. cbn [option_map]. apply get_set_same.
Qed.

Lemma outputAt_other outputs iso scene text q :
  q <> snd (saveOutput outputs iso scene text) ->
  outputAt (fst (saveOutput outputs iso scene text)) q = outputAt outputs q.
Proof.
  unfold saveOutput, outputAt. cbn [fst snd]. destruct q as [s f]. cbn [fst snd].
  intros Hq.
  destruct (list_eq_dec N.eq_dec s scene) as [-> | Hs].
  - assert (Hf : f <> timestampOf iso ++ js ".md").
    { intros ->. apply Hq. reflexivity. }
    destruct (get outputs scene) as [dir|] eqn:E.
    + rewrite get_modify_same, E. cbn [option_map]. now apply get_set_other.
    + rewrite get_modify_same, get_set_same. cbn [option_map].
      now rewrite get_set_other.
  - rewrite get_modify_other by assumption.
    destruct (get outputs scene); [reflexivity|]. now rewrite get_set_other.
Qed.

(** Saving an output: the file is [<timestamp>.md] in the scene's
    directory, the timestamp being the ISO time cut to the second with [:]
    and [.] turned into [-], so at most 19 code units without [:] or [.];
    the text is read back at the returned path and every other output keeps
    its text. *)
Theorem output_saved_and_read_back
        (outputs : OutputDirs) (iso scene text : jsstring) :
  let outputs' := fst (saveOutput outputs iso scene text) in
  let p := snd (saveOutput outputs iso scene text) in
  p = (scene, timestampOf iso ++ js ".md") /\
  List.length (timestampOf iso) <= 19 /\
  ~ In 58%N (timestampOf iso) /\ ~ In 46%N (timestampOf iso) /\
  outputAt outputs' p = Some text /\
  (forall q, q <> p -> outputAt outputs' q = outputAt outputs q).
Proof.
  intros outputs' p. subst outputs' p.
  split; [reflexivity|].
  split; [unfold timestampOf; rewrite length_firstn; lia|].
  assert (Hno : forall c, (c = 58 \/ c = 46)%N -> ~ In c (timestampOf iso)).
  { intros c Hc Hin. unfold timestampOf in Hin.
    apply In_firstn in Hin. apply in_map_iff in Hin as (x & Hx & _).
    destruct (N.eqb_spec x 58) as [E58 | H58]; simpl in Hx; [lia|].
    destruct (N.eqb_spec x 46) as [E46 | H46]; simpl in Hx; lia. }
  split; [apply Hno; now left|].
  split; [apply Hno; now right|].
  split; [apply outputAt_saved | intros q; apply outputAt_other].
Qed.

(** Outputs saved within the same second overwrite each other.  When two
    saves into one scene happen at times equal down to the second, both
    return the same path, the file holds the second text, and the store is
    the one the second save alone would have left: the first text is lost.
    The same holds for [saveEvaluation] and its [eval_<timestamp>.json]. *)
Theorem same_second_saves_overwrite
        (Json : Type) (stringify : Json -> jsstring)
        (outputs : OutputDirs) (evaluations : obj jsstring)
        (iso1 iso2 scene text1 text2 : jsstring) (result1 result2 : Json) :
  toTheSecond iso1 = toTheSecond iso2 ->
  let first := saveOutput outputs iso1 scene text1 in
  let second := saveOutput (fst first) iso2 scene text2 in
  let firstEval := saveEvaluation stringify evaluations iso1 result1 in
  let secondEval := saveEvaluation stringify (fst firstEval) iso2 result2 in
  snd second = snd first /\
  outputAt (fst second) (snd first) = Some text2 /\
  (forall q, outputAt (fst second) q =
             outputAt (fst (saveOutput outputs iso2 scene text2)) q) /\
  snd secondEval = snd firstEval /\
  get (fst secondEval) (snd firstEval) = Some (stringify result2) /\
  (forall f, get (fst secondEval) f =
             get (fst (saveEvaluation stringify evaluations iso2 result2)) f).
Proof.
  intros Hsec first second firstEval secondEval.
  apply timestampOf_second in Hsec.
  assert (Hp : snd second = snd first).
  { subst second first. unfold saveOutput. cbn [snd]. now rewrite Hsec. }
  assert (Hp2 : snd (saveOutput outputs iso2 scene text2) = snd first).
  { subst first. unfold saveOutput. cbn [snd]. now rewrite Hsec. }
  assert (He : snd secondEval = snd firstEval).
  { subst secondEval firstEval. unfold saveEvaluation. cbn [snd]. now rewrite Hsec. }
  assert (He2 : snd (saveEvaluation stringify evaluations iso2 result2) = snd firstEval).
  { subst firstEval. unfold saveEvaluation. cbn [snd]. now rewrite Hsec. }
  split; [exact Hp|].
  split; [rewrite <- Hp; apply outputAt_saved|].
  split.
  { intros q. destruct (list_eq_dec N.eq_dec (fst q) (fst (snd first))) as [Hs|Hs];
      [destruct (list_eq_dec N.eq_dec (snd q) (snd (snd first))) as [Hf|Hf]|].
    - assert (Hq : q = snd first) by (destruct q, (snd first); simpl in *; congruence).
      rewrite Hq. rewrite <- Hp at 1. subst second. rewrite outputAt_saved.
      rewrite <- Hp2. now rewrite outputAt_saved.
    - assert (Hq : q <> snd first) by congruence.
      subst second. rewrite outputAt_other by (rewrite Hp; exact Hq).
      subst first. rewrite outputAt_other by exact Hq.
      rewrite outputAt_other by (rewrite Hp2; exact Hq). reflexivity.
    - assert (Hq : q <> snd first) by congruence.
      subst second. rewrite outputAt_other by (rewrite Hp; exact Hq).
      subst first. rewrite outputAt_other by exact Hq.
      rewrite outputAt_other by (rewrite Hp2; exact Hq). reflexivity. }
  split; [exact He|].
  split.
  { rewrite <- He. subst secondEval. unfold saveEvaluation. cbn [fst snd].
    apply get_set_same. }
  intros f. subst secondEval firstEval. unfold saveEvaluation in *. cbn [fst snd] in *.
  rewrite Hsec.
  destruct (list_eq_dec N.eq_dec f (js "eval_" ++ timestampOf iso2 ++ js ".json"))
    as [-> | Hf].
  - now rewrite !get_set_same.
  - now rewrite !get_set_other by exact Hf.
Qed.

Lemma same_second_saves_overwrite_witness :
  outputAt (fst (saveOutput (fst (saveOutput [] (js "2024-01-01T10:20:30.100Z")
                                             (js "hr/exit") (js "first")))
                            (js "2024-01-01T10:20:30.900Z") (js "hr/exit") (js "second")))
           (js "hr/exit", js "2024-01-01T10-20-30.md")
  = Some (js "second").
Proof.
  destruct (same_second_saves_overwrite
              unit (fun _ => js "{}") [] []
              (js "2024-01-01T10:20:30.100Z") (js "2024-01-01T10:20:30.900Z")
              (js "hr/exit") (js "first") (js "second") tt tt)
    as (_ & H & _).
  - vm_compute. reflexivity.
  - exact H.
Defined.

End OutputFacts.
